(** * ClearML client glue: framework bindings, callback registry, model cache,
      thread kill, archive unpacking and hyper-parameter calls.

    Each module embeds one source file (or one class of it) and proves the
    properties of that code.  Python dictionaries that are only read and
    written by key are [gmap]s; dictionaries whose iteration order is observed
    are association lists. *)

From Stdlib Require Import ZArith Lia Bool Ascii String List.
From stdpp Require Import base option list gmap strings pretty.

Local Open Scope Z_scope.

(** ** clearml/binding/frameworks/__init__.py : [_patched_call] *)

Module Guard.

(** A thread ident, as [threading.get_ident()] returns it. *)
Definition ident := Z.

Section WithFunctions.

(** The callables that get patched ([CatBoost.save_model], [CatBoost.fit],
    ...) together with their arguments, the values they return and the
    exceptions they raise. *)
Context {fn value exn : Type}.

(** How a call ends: [return v] or [raise e]. *)
Inductive outcome :=
| Returned (v : value)
| Raised (e : exn).

(** The body of a Python function, as far as the guard can observe it: it
    ends, or it calls an attribute that [_patched_call] replaced, or it calls
    an [original_fn] it holds directly (what [patched_fn] does with its first
    argument).  The continuation receives the callee's outcome, so a body is
    free to catch an exception or to let it through. *)
Inductive code :=
| Finish (o : outcome)
| Invoke (f : fn) (k : outcome -> code)
| InvokeOriginal (f : fn) (k : outcome -> code).

Variable original_fn : fn -> code.
Variable patched_fn : fn -> code.

(** The activation records of one thread. *)
Inductive frame :=
| InPassthrough (k : outcome -> code)
    (* _inner_patch, line 30: return original_fn(...) *)
| InGuarded (k : outcome -> code)
    (* _inner_patch, lines 33-42: patched_fn is running, finally pending *)
| InDirect (k : outcome -> code).
    (* original_fn called by patched_fn itself *)

Inductive control :=
| Running (c : code)
| Entering (f : fn) (k : outcome -> code).
    (* _inner_patch between the test of line 29 and the store of line 31 *)

Record thread := Thread { ctl : control; stack : list frame }.

Inductive event :=
| EvOriginal (f : fn)
| EvPatched (f : fn).

(** One step of the thread [i] on the shared dictionary [_recursion_guard].
    [None]: the thread has finished. *)
Definition step (i : ident) (g : gmap Z Z) (t : thread)
  : option (option event * gmap Z Z * thread) :=
  match ctl t with
  | Running (Finish o) =>
      match stack t with
      | [] => None
      | InPassthrough k :: st => Some (None, g, Thread (Running (k o)) st)
      | InDirect k :: st => Some (None, g, Thread (Running (k o)) st)
      | InGuarded k :: st =>
          (* finally: _recursion_guard.pop(ident), KeyError ignored *)
          Some (None, delete i g, Thread (Running (k o)) st)
      end
  | Running (Invoke f k) =>
      if decide (is_Some (g !! i))
      then Some (Some (EvOriginal f), g,
                 Thread (Running (original_fn f)) (InPassthrough k :: stack t))
      else Some (None, g, Thread (Entering f k) (stack t))
  | Running (InvokeOriginal f k) =>
      Some (Some (EvOriginal f), g,
            Thread (Running (original_fn f)) (InDirect k :: stack t))
  | Entering f k =>
      Some (Some (EvPatched f), <[i:=1]> g,
            Thread (Running (patched_fn f)) (InGuarded k :: stack t))
  end.

(** The interpreter state: the module-level dictionary and the live threads,
    keyed by their idents (live threads have distinct idents). *)
Record config := Config { guard : gmap Z Z; pool : gmap Z thread }.

(** The thread [i] is scheduled for one step; a finished or unknown thread
    leaves the configuration as it is. *)
Definition sched_step (i : ident) (c : config) : config * list (ident * event) :=
  match pool c !! i with
  | None => (c, [])
  | Some t =>
      match step i (guard c) t with
      | None => (c, [])
      | Some (ev, g', t') =>
          (Config g' (<[i:=t']> (pool c)),
           match ev with Some e => [(i, e)] | None => [] end)
      end
  end.

Fixpoint run (schedule : list ident) (c : config) : config * list (ident * event) :=
  match schedule with
  | [] => (c, [])
  | i :: rest =>
      let '(c1, tr1) := sched_step i c in
      let '(c2, tr2) := run rest c1 in
      (c2, tr1 ++ tr2)
  end.

(** Threads start outside every call, with an empty dictionary. *)
Definition start (bodies : gmap Z code) : config :=
  Config ∅ ((fun c => Thread (Running c) []) <$> bodies).

Definition is_guarded (fr : frame) : bool :=
  match fr with InGuarded _ => true | _ => false end.

Definition is_wrapper (fr : frame) : bool :=
  match fr with InGuarded _ | InPassthrough _ => true | InDirect _ => false end.

(** The thread is executing inside a call of a wrapped function. *)
Definition inside_wrapped (t : thread) : bool := existsb is_wrapper (stack t).

(** The thread is inside the guarded branch of [_inner_patch]. *)
Definition inside_guarded (t : thread) : bool := existsb is_guarded (stack t).

(** Shape of a stack that [step] can build: below the guarded activation of
    [_inner_patch] there is no other activation of it, and a pass-through
    activation has a guarded one below. *)
Fixpoint stack_ok (st : list frame) : bool :=
  match st with
  | [] => true
  | InDirect _ :: st' => stack_ok st'
  | InPassthrough _ :: st' => existsb is_guarded st' && stack_ok st'
  | InGuarded _ :: st' => negb (existsb is_wrapper st') && stack_ok st'
  end.

Definition is_entering (c : control) : bool :=
  match c with Entering _ _ => true | Running _ => false end.

(** What the dictionary holds for the thread [i], against what the thread is
    doing. *)
Definition thread_inv (i : ident) (g : gmap Z Z) (t : thread) : Prop :=
  stack_ok (stack t) = true
  /\ (is_Some (g !! i) <-> inside_guarded t = true)
  /\ (is_entering (ctl t) = true -> inside_guarded t = false).

Definition config_inv (c : config) : Prop :=
  forall i t, pool c !! i = Some t -> thread_inv i (guard c) t.

End WithFunctions.

(** A run of two threads.  Function 0 stands for [CatBoostClassifier.fit],
    whose original body calls function 1, [CatBoost.fit]; both are patched with
    a callback that calls the original it was given (as [_fit] does), and the
    callback of function 1 raises afterwards. *)
Definition demo_original (f : nat) : @code nat Z string :=
  match f with
  | O => Invoke 1%nat (fun o => Finish o)
  | _ => Finish (Returned 7)
  end.

Definition demo_patched (f : nat) : @code nat Z string :=
  match f with
  | O => InvokeOriginal 0%nat (fun o => Finish o)
  | _ => InvokeOriginal f (fun _ => Finish (Raised "callback failed"%string))
  end.

Definition demo_bodies : gmap Z (@code nat Z string) :=
  <[10 := Invoke 0%nat (fun o => Finish o)]>
  (<[20 := Invoke 1%nat (fun o => Finish o)]> ∅).

Definition demo_run (schedule : list ident) :=
  run demo_original demo_patched schedule (start demo_bodies).

(** The thread 10, stopped inside the original [CatBoostClassifier.fit] that
    its own callback called, about to call the patched [CatBoost.fit]. *)
Definition demo_thread : @thread nat Z string :=
  Thread (Running (Invoke 1%nat (fun o => Finish o)))
         [InDirect (fun o => Finish o); InGuarded (fun o => Finish o)].

Section WithFunctionsFacts.

Context {fn value exn : Type}.
Variable original_fn : fn -> @code fn value exn.
Variable patched_fn : fn -> @code fn value exn.

Local Abbreviation step := (Guard.step original_fn patched_fn).
Local Abbreviation sched_step := (Guard.sched_step original_fn patched_fn).
Local Abbreviation run := (Guard.run original_fn patched_fn).
Local Abbreviation code := (@Guard.code fn value exn).
Local Abbreviation frame := (@Guard.frame fn value exn).
Local Abbreviation thread := (@Guard.thread fn value exn).
Local Abbreviation config := (@Guard.config fn value exn).

Lemma wrapper_guarded (st : list frame) :
  stack_ok st = true -> existsb is_wrapper st = existsb is_guarded st.
Proof.
  induction st as [|fr st IH]; [reflexivity|].
  destruct fr; simpl; intros H.
  - apply andb_true_iff in H as [H1 _]. now rewrite H1.
  - reflexivity.
  - auto.
Qed.

Lemma guarded_wrapper (st : list frame) :
  existsb is_wrapper st = false -> existsb is_guarded st = false.
Proof.
  induction st as [|fr st IH]; [reflexivity|].
  destruct fr; simpl; intros H; try discriminate; auto.
Qed.

Lemma step_frame i g (t : thread) ev g' t' :
  step i g t = Some (ev, g', t') -> forall j, j <> i -> g' !! j = g !! j.
Proof.
  unfold step. intros H j Hj.
  destruct (ctl t) as [[o|f k|f k]|f k].
  - destruct (stack t) as [|[k|k|k] st]; inversion H; subst; auto.
    now rewrite lookup_delete_ne.
  - destruct (decide (is_Some (g !! i))); inversion H; subst; auto.
  - inversion H; subst; auto.
  - inversion H; subst. now rewrite lookup_insert_ne.
Qed.

Lemma step_inv i g (t : thread) ev g' t' :
  thread_inv i g t -> step i g t = Some (ev, g', t') -> thread_inv i g' t'.
Proof.
  unfold thread_inv, inside_guarded, step.
  intros (Hok & Hg & He) H.
  destruct t as [c st]; simpl in *.
  destruct c as [[o|f k|f k]|f k]; simpl in *.
  - destruct st as [|[k|k|k] st]; inversion H; subst; clear H; simpl in *.
    + apply andb_true_iff in Hok as [_ Hok]. repeat split; tauto || discriminate.
    + apply andb_true_iff in Hok as [Hw Hok]. apply negb_true_iff in Hw.
      apply guarded_wrapper in Hw. rewrite Hw, lookup_delete_eq.
      repeat split; try tauto; try discriminate.
      intros [x Hx]; discriminate.
    + repeat split; tauto || discriminate.
  - destruct (decide (is_Some (g !! i))) as [Hs|Hs]; inversion H; subst; clear H; simpl.
    + apply Hg in Hs. rewrite Hs. repeat split; tauto || discriminate.
    + repeat split; try tauto. intros _.
      destruct (existsb is_guarded st); [exfalso; tauto | reflexivity].
  - inversion H; subst; clear H; simpl. repeat split; tauto || discriminate.
  - inversion H; subst; clear H; simpl. specialize (He eq_refl).
    rewrite lookup_insert_eq. split; [|split].
    + rewrite (wrapper_guarded st Hok), He, Hok. reflexivity.
    + split; [reflexivity | eauto].
    + discriminate.
Qed.

Lemma thread_inv_other j g g' (t : thread) :
  g' !! j = g !! j -> thread_inv j g t -> thread_inv j g' t.
Proof. unfold thread_inv. intros ->. tauto. Qed.

Lemma sched_step_inv i (c : config) :
  config_inv c -> config_inv (sched_step i c).1.
Proof.
  unfold sched_step. intros Hc.
  destruct (pool c !! i) as [t|] eqn:Ht; [|exact Hc].
  destruct (step i (guard c) t) as [[[ev g'] t']|] eqn:Hs; [|exact Hc].
  intros j tj. simpl. destruct (decide (i = j)) as [<-|Hne].
  - rewrite lookup_insert_eq. intros [= <-]. eapply step_inv; eauto.
  - rewrite lookup_insert_ne by exact Hne. intros Hj.
    eapply thread_inv_other; [|eapply Hc; eauto].
    eapply step_frame; eauto.
Qed.

Lemma run_inv schedule (c : config) :
  config_inv c -> config_inv (run schedule c).1.
Proof.
  revert c. induction schedule as [|i rest IH]; intros c Hc; [exact Hc|].
  simpl. pose proof (sched_step_inv i c Hc) as H1.
  destruct (sched_step i c) as [c1 tr1]. specialize (IH c1 H1).
  destruct (run rest c1) as [c2 tr2]. exact IH.
Qed.

Lemma start_inv (bodies : gmap Z code) : config_inv (start bodies).
Proof.
  intros i t. unfold start. simpl. rewrite lookup_fmap.
  destruct (bodies !! i); simpl; [|discriminate]. intros [= <-].
  unfold thread_inv, inside_guarded. simpl. rewrite lookup_empty.
  repeat split; try discriminate; auto. intros [x Hx]; discriminate.
Qed.

(** C1: the recursion guard of [_patched_call].  In every state that threads
    calling wrapped functions can reach from the empty dictionary, under every
    interleaving, for every live thread [i]: its ident is in
    [_recursion_guard] exactly while the thread is inside the guarded branch of
    a wrapper, which is the case whenever it is inside any wrapped call; and
    for every step the thread takes next, the entries of all other idents stay
    as they are, a thread inside a wrapped call never starts a patched callback
    and a nested wrapped invocation runs the original function alone, and when
    the guarded wrapper call ends (with a return or with a raise) the outcome
    is handed to the caller unchanged, the ident is gone from the dictionary
    and the thread is outside every wrapped call. *)
Theorem patched_call_recursion_guard
    (bodies : gmap Z code) (schedule : list ident) (i : ident) (t : thread) :
  let c := (run schedule (start bodies)).1 in
  pool c !! i = Some t ->
  (is_Some (guard c !! i) <-> inside_guarded t = true)
  /\ (inside_wrapped t = true -> is_Some (guard c !! i))
  /\ (inside_wrapped t = false -> guard c !! i = None)
  /\ forall ev g' t', step i (guard c) t = Some (ev, g', t') ->
       (forall j, j <> i -> g' !! j = guard c !! j)
       /\ (inside_wrapped t = true -> forall f, ev <> Some (EvPatched f))
       /\ (inside_wrapped t = true -> forall f k, ctl t = Running (Invoke f k) ->
             ev = Some (EvOriginal f) /\ g' = guard c
             /\ t' = Thread (Running (original_fn f)) (InPassthrough k :: stack t))
       /\ (forall o k st, ctl t = Running (Finish o) -> stack t = InGuarded k :: st ->
             g' !! i = None /\ t' = Thread (Running (k o)) st
             /\ inside_wrapped t' = false).
Proof.
  intros c Ht.
  pose proof (run_inv schedule _ (start_inv bodies) i t Ht) as (Hok & Hg & He).
  fold c in Hg. unfold inside_wrapped, inside_guarded in *.
  rewrite (wrapper_guarded _ Hok).
  split; [exact Hg|]. split; [tauto|]. split.
  { intros Hw. destruct (guard c !! i) eqn:E; [|reflexivity].
    assert (is_Some (Some z)) as Hs by eauto. apply Hg in Hs. congruence. }
  intros ev g' t' Hstep. split; [eapply step_frame; eauto|].
  unfold step in Hstep. split; [|split].
  - intros Hw f ->. destruct (ctl t) as [[o|f0 k|f0 k]|f0 k]; simpl in *.
    + destruct (stack t) as [|[k|k|k] st]; discriminate.
    + destruct (decide _); discriminate.
    + discriminate.
    + specialize (He eq_refl). congruence.
  - intros Hw f k Hc. rewrite Hc in Hstep. apply Hg in Hw.
    destruct (decide _); [|contradiction]. inversion Hstep; subst. auto.
  - intros o k st Hc Hst. rewrite Hc, Hst in Hstep. inversion Hstep; subst.
    rewrite lookup_delete_eq. rewrite Hst in Hok. simpl in Hok.
    apply andb_true_iff in Hok as [Hw _]. apply negb_true_iff in Hw. auto.
Qed.

Lemma step_entry i g (t : thread) ev g' t' :
  step i g t = Some (ev, g', t') ->
  forall j v, g' !! j = Some v -> g !! j = Some v \/ (j = i /\ v = 1).
Proof.
  unfold step. intros H j v.
  destruct (ctl t) as [[o|f k|f k]|f k].
  - destruct (stack t) as [|[k|k|k] st]; inversion H; subst; auto.
    intros Hj. apply lookup_delete_Some in Hj. tauto.
  - destruct (decide (is_Some (g !! i))); inversion H; subst; auto.
  - inversion H; subst; auto.
  - inversion H; subst. intros Hj. apply lookup_insert_Some in Hj.
    destruct Hj as [[<- <-]|[_ Hj]]; auto.
Qed.

Lemma sched_step_entries i (c : config) :
  (forall j v, guard c !! j = Some v -> v = 1 /\ is_Some (pool c !! j)) ->
  forall j v, guard (sched_step i c).1 !! j = Some v ->
    v = 1 /\ is_Some (pool (sched_step i c).1 !! j).
Proof.
  unfold sched_step. intros Hc.
  destruct (pool c !! i) as [t|] eqn:Ht; [|exact Hc].
  destruct (step i (guard c) t) as [[[ev g'] t']|] eqn:Hs; [|exact Hc].
  simpl. intros j v Hj.
  destruct (step_entry _ _ _ _ _ _ Hs j v Hj) as [Hold|[-> ->]].
  - destruct (Hc j v Hold) as [-> Hp]. split; [reflexivity|].
    destruct (decide (i = j)) as [<-|Hne].
    + rewrite lookup_insert_eq. eauto.
    + now rewrite lookup_insert_ne.
  - split; [reflexivity|]. rewrite lookup_insert_eq. eauto.
Qed.

Lemma run_entries schedule : forall c : config,
  (forall j v, guard c !! j = Some v -> v = 1 /\ is_Some (pool c !! j)) ->
  forall j v, guard (run schedule c).1 !! j = Some v ->
    v = 1 /\ is_Some (pool (run schedule c).1 !! j).
Proof.
  induction schedule as [|i rest IH]; intros c Hc; [exact Hc|].
  simpl. pose proof (sched_step_entries i c Hc) as H1.
  destruct (sched_step i c) as [c1 tr1]. specialize (IH c1 H1).
  destruct (run rest c1) as [c2 tr2]. exact IH.
Qed.

Lemma sched_step_other i j (c : config) :
  j <> i ->
  pool (sched_step j c).1 !! i = pool c !! i
  /\ guard (sched_step j c).1 !! i = guard c !! i.
Proof.
  unfold sched_step. intros Hne.
  destruct (pool c !! j) as [t|] eqn:Ht; [|auto].
  destruct (step j (guard c) t) as [[[ev g'] t']|] eqn:Hs; [|auto].
  simpl. rewrite lookup_insert_ne by exact Hne. split; [reflexivity|].
  eapply step_frame; eauto.
Qed.

Lemma run_others i others : forall c : config,
  Forall (fun j => j <> i) others ->
  pool (run others c).1 !! i = pool c !! i
  /\ guard (run others c).1 !! i = guard c !! i.
Proof.
  induction others as [|j rest IH]; intros c Ho; [auto|].
  apply Forall_cons in Ho as [Hj Ho]. simpl.
  destruct (sched_step_other i j c Hj) as [Hp Hg].
  destruct (sched_step j c) as [c1 tr1]. specialize (IH c1 Ho).
  destruct (run rest c1) as [c2 tr2]. simpl in *.
  destruct IH as [-> ->]. auto.
Qed.

(** X4: [_recursion_guard] holds no stale entry.  In every state that threads
    calling wrapped functions can reach from the empty dictionary, every key of
    the dictionary is the ident of a live thread that is inside the guarded
    branch of a wrapper, and its value is 1; once every thread is outside all
    calls the dictionary is empty again. *)
Theorem recursion_guard_has_no_stale_entry
    (bodies : gmap Z code) (schedule : list ident) :
  let c := (run schedule (start bodies)).1 in
  (forall i v, guard c !! i = Some v ->
     v = 1 /\ exists t : thread, pool c !! i = Some t /\ inside_guarded t = true)
  /\ ((forall i (t : thread), pool c !! i = Some t -> stack t = []) -> guard c = ∅).
Proof.
  intros c.
  assert (forall i v, guard c !! i = Some v ->
            v = 1 /\ exists t : thread, pool c !! i = Some t /\ inside_guarded t = true) as H.
  { intros i v Hi.
    destruct (run_entries schedule (start bodies)) with (j := i) (v := v) as [-> [t Ht]].
    - simpl. intros j w Hj. now rewrite lookup_empty in Hj.
    - exact Hi.
    - split; [reflexivity|]. exists t. split; [exact Ht|].
      pose proof (run_inv schedule _ (start_inv bodies) i t Ht) as (_ & Hg & _).
      apply Hg. change (is_Some (guard c !! i)). rewrite Hi. eauto. }
  split; [exact H|]. intros Hdone. apply map_eq. intros i. rewrite lookup_empty.
  destruct (guard c !! i) as [v|] eqn:Hi; [|reflexivity].
  destruct (H i v Hi) as (_ & t & Ht & Hin). unfold inside_guarded in Hin.
  rewrite (Hdone i t Ht) in Hin. discriminate.
Qed.

(** X5: the guard is per thread.  A thread that is outside every wrapped call
    and calls a wrapped function runs the patched callback for it, whatever the
    other threads do between its test of the dictionary and its store into it,
    and however many of them are inside guarded calls of their own: its first
    step emits nothing, and its next step, after any steps of other threads,
    starts [patched_fn] and stores its ident. *)
Theorem patched_callback_runs_per_thread
    (bodies : gmap Z code) (schedule others : list ident) (i : ident) (t : thread)
    (f : fn) (k : outcome -> code) :
  let c := (run schedule (start bodies)).1 in
  pool c !! i = Some t ->
  ctl t = Running (Invoke f k) ->
  inside_wrapped t = false ->
  Forall (fun j => j <> i) others ->
  let c2 := (run others (sched_step i c).1).1 in
  (sched_step i c).2 = []
  /\ sched_step i c2
     = (Config (<[i:=1]> (guard c2))
               (<[i:=Thread (Running (patched_fn f)) (InGuarded k :: stack t)]> (pool c2)),
        [(i, EvPatched f)]).
Proof.
  intros c Ht Hc Hw Ho c2.
  pose proof (run_inv schedule _ (start_inv bodies) i t Ht) as (_ & Hg & _).
  fold c in Hg. apply guarded_wrapper in Hw. fold (inside_guarded t) in Hw.
  assert (sched_step i c
          = (Config (guard c) (<[i:=Thread (Entering f k) (stack t)]> (pool c)), [])) as E1.
  { unfold sched_step, step. rewrite Ht, Hc.
    destruct (decide (is_Some (guard c !! i))) as [Hs|Hs]; [|reflexivity].
    apply Hg in Hs. congruence. }
  split; [now rewrite E1|].
  destruct (run_others i others (sched_step i c).1 Ho) as [Hp _]. fold c2 in Hp.
  rewrite E1 in Hp. simpl in Hp. rewrite lookup_insert_eq in Hp.
  unfold sched_step, step. rewrite Hp. reflexivity.
Qed.

End WithFunctionsFacts.

Example demo_nested_trace :
  (demo_run [10; 20; 10; 10; 10; 20]).2
  = [(10, EvPatched 0%nat); (10, EvOriginal 0%nat); (10, EvOriginal 1%nat);
     (20, EvPatched 1%nat)].
Proof. vm_compute. reflexivity. Qed.

Example demo_guard_while_running :
  (fun g => (g !! 10, g !! 20, g !! 30))
    (guard (demo_run [10; 20; 10; 10; 10; 20]).1) = (Some 1, Some 1, None).
Proof. vm_compute. reflexivity. Qed.

Example demo_guard_after_finish :
  guard (demo_run [10; 20; 10; 10; 10; 20; 20; 20; 20; 10; 10; 10; 10; 10]).1 = ∅
  /\ ctl <$> pool (demo_run [10; 20; 10; 10; 10; 20; 20; 20; 20; 10; 10; 10; 10; 10]).1 !! 20
     = Some (Running (Finish (Raised "callback failed"%string)))
  /\ ctl <$> pool (demo_run [10; 20; 10; 10; 10; 20; 20; 20; 20; 10; 10; 10; 10; 10]).1 !! 10
     = Some (Running (Finish (Returned 7))).
Proof. vm_compute. auto. Qed.

Lemma patched_call_recursion_guard_witness :
  pool (demo_run [10; 20; 10; 10]).1 !! 10 = Some demo_thread
  /\ is_Some (guard (demo_run [10; 20; 10; 10]).1 !! 10)
  /\ forall ev g' t',
       step demo_original demo_patched 10 (guard (demo_run [10; 20; 10; 10]).1) demo_thread
       = Some (ev, g', t') ->
       ev = Some (EvOriginal 1%nat).
Proof.
  assert (pool (demo_run [10; 20; 10; 10]).1 !! 10 = Some demo_thread) as H
    by (vm_compute; reflexivity).
  split; [exact H|].
  destruct (patched_call_recursion_guard demo_original demo_patched
              demo_bodies [10; 20; 10; 10] 10 demo_thread H)
    as (_ & Hin & _ & Hstep).
  split; [apply Hin; reflexivity|].
  intros ev g' t' Hs.
  destruct (Hstep ev g' t' Hs) as (_ & _ & Hnested & _).
  destruct (Hnested eq_refl 1%nat (fun o => Finish o) eq_refl) as [-> _].
  reflexivity.
Defined.

Lemma patched_callback_runs_per_thread_witness :
  (sched_step demo_original demo_patched 20 (demo_run [10; 10]).1).2 = []
  /\ (sched_step demo_original demo_patched 20
        (run demo_original demo_patched [10; 10; 10]
           (sched_step demo_original demo_patched 20 (demo_run [10; 10]).1).1).1).2
     = [(20, EvPatched 1%nat)].
Proof.
  destruct (patched_callback_runs_per_thread demo_original demo_patched demo_bodies
              [10; 10] [10; 10; 10] 20
              (Thread (Running (Invoke 1%nat (fun o => Finish o))) [])
              1%nat (fun o => Finish o)) as [H1 H2].
  - vm_compute. reflexivity.
  - reflexivity.
  - reflexivity.
  - repeat constructor; discriminate.
  - split; [exact H1|]. unfold demo_run. rewrite H2. reflexivity.
Defined.

End Guard.

(** ** clearml/binding/frameworks/__init__.py :
       [WeightsFileHandler._add_callback] and its callers *)

Module Registry.

(** What a Python call yields here: a value, the [IndexError] of an empty
    list's [[0]], or nothing yet because the [while True] loop has used up
    every draw it was given. *)
Inductive py_result (A : Type) :=
| Ok (a : A)
| IndexError
| Looping.
Arguments Ok {A} a.
Arguments IndexError {A}.
Arguments Looping {A}.

Section WithCallbacks.

(** Callback functions, compared with [==] (identity for Python functions). *)
Context {F : Type} `{EqDecision F}.

(** [Dict[int, Callable]], in insertion order. *)
Abbreviation registry := (list (Z * F)).

(** [handle in target] *)
Definition has_key (h : Z) (target : registry) : bool :=
  existsb (fun kv => Z.eqb kv.1 h) target.

(** [target[h]] *)
Fixpoint get (h : Z) (target : registry) : option F :=
  match target with
  | [] => None
  | (k, v) :: rest => if Z.eqb k h then Some v else get h rest
  end.

(** [func in target.values()] *)
Definition in_values (func : F) (target : registry) : bool :=
  existsb (fun kv => bool_decide (kv.2 = func)) target.

(** [[k for k, v in target.items() if v == func]] *)
Definition handles_of (func : F) (target : registry) : list Z :=
  map fst (filter (fun kv => kv.2 = func) target).

(** [target.pop(handle, None)] *)
Definition dict_pop (h : Z) (target : registry) : registry :=
  filter (fun kv => kv.1 <> h) target.

(** The [while True] loop of lines 110-113; [draws] are the values that
    successive calls of [randint(0, 1 << 31)] return. *)
Fixpoint draw_handle (draws : list Z) (target : registry) : py_result Z :=
  match draws with
  | [] => Looping
  | h :: rest => if has_key h target then draw_handle rest target else Ok h
  end.

(** Returns the handle and the dictionary as the call leaves it. *)
Definition _add_callback (draws : list Z) (func : F) (target : registry)
  : py_result (Z * registry) :=
  if in_values func target then
    match handles_of func target with
    | h :: _ => Ok (h, target)
    | [] => IndexError
    end
  else
    match draw_handle draws target with
    | Ok h => Ok (h, target ++ [(h, func)])
    | IndexError => IndexError
    | Looping => Looping
    end.

Definition _remove_callback (handle : Z) (target : registry) : bool * registry :=
  if has_key handle target then (true, dict_pop handle target) else (false, target).

(** The two class-level dictionaries of [WeightsFileHandler]. *)
Record callbacks := Callbacks {
  model_pre_callbacks : registry;
  model_post_callbacks : registry
}.

Definition add_pre_callback (draws : list Z) (callback_function : F) (cls : callbacks)
  : py_result (Z * callbacks) :=
  match _add_callback draws callback_function (model_pre_callbacks cls) with
  | Ok (h, target) => Ok (h, Callbacks target (model_post_callbacks cls))
  | IndexError => IndexError
  | Looping => Looping
  end.

Definition add_post_callback (draws : list Z) (callback_function : F) (cls : callbacks)
  : py_result (Z * callbacks) :=
  match _add_callback draws callback_function (model_post_callbacks cls) with
  | Ok (h, target) => Ok (h, Callbacks (model_pre_callbacks cls) target)
  | IndexError => IndexError
  | Looping => Looping
  end.

Definition remove_pre_callback (handle : Z) (cls : callbacks) : bool * callbacks :=
  let '(r, target) := _remove_callback handle (model_pre_callbacks cls) in
  (r, Callbacks target (model_post_callbacks cls)).

Definition remove_post_callback (handle : Z) (cls : callbacks) : bool * callbacks :=
  let '(r, target) := _remove_callback handle (model_post_callbacks cls) in
  (r, Callbacks (model_pre_callbacks cls) target).

(** One call on one of the dictionaries, as the class methods make it. *)
Inductive operation :=
| Register (draws : list Z) (func : F)
| Unregister (handle : Z).

(** The dictionary after a call; a call that has not returned a handle has
    not written to it. *)
Definition after (target : registry) (o : operation) : registry :=
  match o with
  | Register draws func =>
      match _add_callback draws func target with
      | Ok (_, target') => target'
      | _ => target
      end
  | Unregister handle => (_remove_callback handle target).2
  end.

(** The dictionary after a series of calls on the empty dictionary the class
    starts with. *)
Definition after_all (ops : list operation) : registry := fold_left after ops [].

(** No handle is a key twice and no function is a value twice. *)
Definition distinct (target : registry) : Prop :=
  NoDup (map fst target) /\ NoDup (map snd target).

Lemma in_values_handles func target :
  in_values func target = true ->
  exists h rest, handles_of func target = h :: rest /\ In (h, func) target.
Proof.
  unfold in_values, handles_of.
  induction target as [|[k v] target IH]; simpl; [discriminate|].
  destruct (decide (v = func)) as [->|Hne].
  - intros _. exists k, (map fst (filter (fun kv => kv.2 = func) target)).
    split; [|auto]. now rewrite filter_cons_True.
  - rewrite bool_decide_eq_false_2 by exact Hne. simpl. intros H.
    destruct (IH H) as (h & rest & E & Hin). exists h, rest.
    split; [|auto]. now rewrite filter_cons_False.
Qed.

Lemma draw_handle_fresh draws target h :
  draw_handle draws target = Ok h -> has_key h target = false /\ In h draws.
Proof.
  induction draws as [|d draws IH]; simpl; [discriminate|].
  destruct (has_key d target) eqn:E.
  - intros H. destruct (IH H). auto.
  - intros [= <-]. auto.
Qed.

Lemma draw_handle_not_IndexError draws target :
  draw_handle draws target <> IndexError.
Proof.
  induction draws as [|d draws IH]; simpl; [discriminate|].
  destruct (has_key d target); [exact IH | discriminate].
Qed.

Lemma draw_handle_finds draws target :
  (exists d, In d draws /\ has_key d target = false) ->
  exists h, draw_handle draws target = Ok h.
Proof.
  induction draws as [|d draws IH]; simpl; intros (x & Hin & Hx); [contradiction|].
  destruct (has_key d target) eqn:E; [|eauto].
  destruct Hin as [->|Hin]; [congruence|]. apply IH. eauto.
Qed.

Lemma has_key_get h target : has_key h target = false <-> get h target = None.
Proof.
  unfold has_key. induction target as [|[k v] target IH]; simpl; [tauto|].
  destruct (Z.eqb k h); simpl; [split; discriminate | exact IH].
Qed.

Lemma has_key_pop h target : has_key h (dict_pop h target) = false.
Proof.
  unfold has_key, dict_pop. induction target as [|[k v] target IH]; [reflexivity|].
  rewrite filter_cons. simpl. destruct (decide (k <> h)) as [Hne|He]; [|exact IH].
  simpl. rewrite IH. apply Z.eqb_neq in Hne. now rewrite Hne.
Qed.

Lemma get_pop_ne h h' target : h' <> h -> get h' (dict_pop h target) = get h' target.
Proof.
  intros Hne. unfold dict_pop. induction target as [|[k v] target IH]; [reflexivity|].
  rewrite filter_cons. simpl. destruct (decide (k <> h)) as [Hk|Hk]; simpl.
  - now rewrite IH.
  - assert (k = h) as -> by lia. apply Z.eqb_neq in Hne.
    rewrite Z.eqb_sym in Hne. now rewrite Hne.
Qed.

Lemma add_callback_existing draws func target :
  in_values func target = true ->
  exists h, _add_callback draws func target = Ok (h, target) /\ In (h, func) target.
Proof.
  intros H. unfold _add_callback. rewrite H.
  destruct (in_values_handles _ _ H) as (h & rest & -> & Hin). eauto.
Qed.

Lemma add_callback_new draws func target :
  in_values func target = false ->
  (exists d, In d draws /\ has_key d target = false) ->
  exists h, _add_callback draws func target = Ok (h, target ++ [(h, func)])
            /\ has_key h target = false /\ In h draws.
Proof.
  intros H Hd. unfold _add_callback. rewrite H.
  destruct (draw_handle_finds _ _ Hd) as [h Hh]. rewrite Hh.
  exists h. split; [reflexivity|]. now apply draw_handle_fresh.
Qed.

Lemma remove_callback_spec h target :
  (has_key h target = true ->
     _remove_callback h target = (true, dict_pop h target))
  /\ (has_key h target = false -> _remove_callback h target = (false, target))
  /\ (_remove_callback h (_remove_callback h target).2).1 = false.
Proof.
  unfold _remove_callback. destruct (has_key h target) eqn:E; simpl.
  - rewrite has_key_pop. repeat split; try discriminate; auto.
  - rewrite E. repeat split; try discriminate; auto.
Qed.

(** C9: registering a callback is idempotent and removing one is exact, for
    the pre and for the post dictionary alike.  A function that is already a
    value is answered with a handle it is stored under and nothing changes; a
    new one gets a handle that was not a key (as soon as [randint] draws one)
    and the dictionary grows by that one entry at its end.  Removing a handle
    that is a key answers [True] and leaves a dictionary without it in which
    every other handle maps to what it mapped to; removing one that is not a
    key answers [False] and changes nothing, so a second removal answers
    [False]. *)
Theorem callback_registration_idempotent_removal_exact
    (draws : list Z) (f : F) (h : Z) (cls : callbacks) :
  let pre := model_pre_callbacks cls in
  let post := model_post_callbacks cls in
  (in_values f pre = true ->
     exists h0, add_pre_callback draws f cls = Ok (h0, cls) /\ In (h0, f) pre)
  /\ (in_values f post = true ->
     exists h0, add_post_callback draws f cls = Ok (h0, cls) /\ In (h0, f) post)
  /\ (in_values f pre = false ->
      (exists d, In d draws /\ has_key d pre = false) ->
      exists h1, add_pre_callback draws f cls = Ok (h1, Callbacks (pre ++ [(h1, f)]) post)
                 /\ has_key h1 pre = false)
  /\ (in_values f post = false ->
      (exists d, In d draws /\ has_key d post = false) ->
      exists h1, add_post_callback draws f cls = Ok (h1, Callbacks pre (post ++ [(h1, f)]))
                 /\ has_key h1 post = false)
  /\ (has_key h pre = true ->
      exists pre', remove_pre_callback h cls = (true, Callbacks pre' post)
                   /\ has_key h pre' = false
                   /\ forall h', h' <> h -> get h' pre' = get h' pre)
  /\ (has_key h post = true ->
      exists post', remove_post_callback h cls = (true, Callbacks pre post')
                   /\ has_key h post' = false
                   /\ forall h', h' <> h -> get h' post' = get h' post)
  /\ (has_key h pre = false -> remove_pre_callback h cls = (false, cls))
  /\ (has_key h post = false -> remove_post_callback h cls = (false, cls))
  /\ (remove_pre_callback h (remove_pre_callback h cls).2).1 = false
  /\ (remove_post_callback h (remove_post_callback h cls).2).1 = false.
Proof.
  destruct cls as [pre post]. simpl.
  unfold add_pre_callback, add_post_callback, remove_pre_callback, remove_post_callback.
  simpl. repeat split.
  - intros H. destruct (add_callback_existing draws f pre H) as (h0 & -> & Hin). eauto.
  - intros H. destruct (add_callback_existing draws f post H) as (h0 & -> & Hin). eauto.
  - intros H Hd. destruct (add_callback_new draws f pre H Hd) as (h1 & -> & Hk & _). eauto.
  - intros H Hd. destruct (add_callback_new draws f post H Hd) as (h1 & -> & Hk & _). eauto.
  - intros H. rewrite (proj1 (remove_callback_spec h pre) H).
    exists (dict_pop h pre).
    split; [reflexivity|]. split; [apply has_key_pop|]. intros; now apply get_pop_ne.
  - intros H. rewrite (proj1 (remove_callback_spec h post) H).
    exists (dict_pop h post).
    split; [reflexivity|]. split; [apply has_key_pop|]. intros; now apply get_pop_ne.
  - intros H. now rewrite (proj1 (proj2 (remove_callback_spec h pre)) H).
  - intros H. now rewrite (proj1 (proj2 (remove_callback_spec h post)) H).
  - destruct (remove_callback_spec h pre) as (_ & _ & H).
    destruct (_remove_callback h pre) as [r t]. simpl in *.
    destruct (_remove_callback h t); exact H.
  - destruct (remove_callback_spec h post) as (_ & _ & H).
    destruct (_remove_callback h post) as [r t]. simpl in *.
    destruct (_remove_callback h t); exact H.
Qed.

Lemma has_key_In h target : has_key h target = true <-> In h (map fst target).
Proof.
  unfold has_key. rewrite existsb_exists, in_map_iff. split.
  - intros ([k v] & Hin & E). apply Z.eqb_eq in E. simpl in E. subst. now exists (h, v).
  - intros ([k v] & E & Hin). simpl in E. subst. exists (h, v). split; [exact Hin|].
    apply Z.eqb_refl.
Qed.

Lemma in_values_In func target : in_values func target = true <-> In func (map snd target).
Proof.
  unfold in_values. rewrite existsb_exists, in_map_iff. split.
  - intros ([k v] & Hin & E). apply bool_decide_eq_true in E. simpl in E. subst.
    now exists (k, func).
  - intros ([k v] & E & Hin). simpl in E. subst. exists (k, func). split; [exact Hin|].
    now apply bool_decide_eq_true.
Qed.

Lemma In_pop {A} (g : Z * F -> A) h target x :
  In x (map g (dict_pop h target)) -> In x (map g target).
Proof.
  rewrite !in_map_iff. intros (kv & E & Hin). exists kv. split; [exact E|].
  unfold dict_pop in Hin. apply list_elem_of_In in Hin. apply list_elem_of_In.
  apply list_elem_of_filter in Hin. tauto.
Qed.

Lemma NoDup_pop {A} (g : Z * F -> A) h target :
  NoDup (map g target) -> NoDup (map g (dict_pop h target)).
Proof.
  induction target as [|kv target IH]; [auto|].
  simpl. rewrite NoDup_cons. intros [Hnin Hnd].
  unfold dict_pop. rewrite filter_cons. destruct (decide (kv.1 <> h)); [|now apply IH].
  simpl. apply NoDup_cons. split; [|now apply IH].
  intros Hin. apply Hnin. apply list_elem_of_In. apply list_elem_of_In in Hin.
  now apply In_pop in Hin.
Qed.

Lemma distinct_add draws func target h target' :
  distinct target -> _add_callback draws func target = Ok (h, target') -> distinct target'.
Proof.
  intros [Hk Hv]. unfold _add_callback.
  destruct (in_values func target) eqn:E.
  - destruct (handles_of func target); [discriminate|]. intros [= _ <-]. now split.
  - destruct (draw_handle draws target) as [h'| |] eqn:Ed; try discriminate.
    intros [= <- <-]. apply draw_handle_fresh in Ed as [Ed _].
    split; rewrite map_app; simpl.
    + apply NoDup_app. split; [exact Hk|]. split; [|apply NoDup_singleton].
      intros x Hx ->%list_elem_of_singleton. apply list_elem_of_In, has_key_In in Hx.
      congruence.
    + apply NoDup_app. split; [exact Hv|]. split; [|apply NoDup_singleton].
      intros x Hx ->%list_elem_of_singleton. apply list_elem_of_In, in_values_In in Hx.
      congruence.
Qed.

Lemma distinct_remove h target : distinct target -> distinct (_remove_callback h target).2.
Proof.
  intros [Hk Hv]. unfold _remove_callback. destruct (has_key h target); simpl.
  - split; now apply NoDup_pop.
  - now split.
Qed.

Lemma distinct_after target o : distinct target -> distinct (after target o).
Proof.
  intros H. destruct o as [draws func | handle]; simpl.
  - destruct (_add_callback draws func target) as [[h target']| |] eqn:E; auto.
    eapply distinct_add; eauto.
  - now apply distinct_remove.
Qed.

Lemma get_In h func target :
  NoDup (map fst target) -> In (h, func) target -> get h target = Some func.
Proof.
  induction target as [|[k v] target IH]; simpl; [contradiction|].
  rewrite NoDup_cons. intros [Hnin Hnd] [[= -> ->]|Hin].
  - now rewrite Z.eqb_refl.
  - destruct (Z.eqb_spec k h) as [->|Hne]; [|now apply IH].
    exfalso. apply Hnin. apply list_elem_of_In, in_map_iff. now exists (h, func).
Qed.

Lemma get_app_new h func target :
  has_key h target = false -> get h (target ++ [(h, func)]) = Some func.
Proof.
  unfold has_key. induction target as [|[k v] target IH]; simpl.
  - now rewrite Z.eqb_refl.
  - destruct (Z.eqb k h); simpl; [discriminate | exact IH].
Qed.

Lemma handles_of_absent func target : in_values func target = false -> handles_of func target = [].
Proof.
  unfold in_values, handles_of. induction target as [|[k v] target IH]; [reflexivity|].
  simpl. intros [Hv Hrest]%orb_false_iff. apply bool_decide_eq_false in Hv.
  rewrite filter_cons_False by exact Hv. now apply IH.
Qed.

Lemma pop_absent h target : has_key h target = false -> dict_pop h target = target.
Proof.
  unfold has_key, dict_pop. induction target as [|[k v] target IH]; [reflexivity|].
  simpl. intros [Hk Hrest]%orb_false_iff. apply Z.eqb_neq in Hk.
  rewrite filter_cons_True by exact Hk. now rewrite IH.
Qed.

Lemma pop_removes_value h func target :
  NoDup (map snd target) -> In (h, func) target -> in_values func (dict_pop h target) = false.
Proof.
  intros Hnd Hin. apply not_true_iff_false. rewrite in_values_In, in_map_iff.
  intros ([k v] & E & Hkv). simpl in E. subst v.
  unfold dict_pop in Hkv. apply list_elem_of_In, list_elem_of_filter in Hkv as [Hne Hkv].
  simpl in Hne. apply list_elem_of_In in Hkv. apply Hne.
  clear Hne. induction target as [|[k' v'] target IH]; simpl in *; [contradiction|].
  apply NoDup_cons in Hnd as [Hnin Hnd].
  destruct Hin as [Hin|Hin], Hkv as [Hkv|Hkv]; simplify_eq; auto.
  - exfalso. apply Hnin. apply list_elem_of_In, in_map_iff. now exists (k, func).
  - exfalso. apply Hnin. apply list_elem_of_In, in_map_iff. now exists (h, func).
Qed.

(** X1: whatever calls of [_add_callback] and [_remove_callback] are made on a
    dictionary that starts empty, no handle is ever a key twice and no
    function is ever registered under two handles. *)
Theorem registry_stays_distinct (ops : list operation) : distinct (after_all ops).
Proof.
  unfold after_all.
  assert (forall target, distinct target -> distinct (fold_left after ops target)) as H.
  { induction ops as [|o ops IH]; simpl; [auto|]. intros target Ht.
    apply IH. now apply distinct_after. }
  apply H. split; constructor.
Qed.

(** X2: a handle that [_add_callback] returns leads back to the function: the
    dictionary it leaves maps the handle to the function, the function is one
    of its values, and registering the function again, whatever [randint]
    draws then, returns this same handle and changes nothing. *)
Theorem add_callback_then_lookup draws func target h target' :
  NoDup (map fst target) ->
  _add_callback draws func target = Ok (h, target') ->
  get h target' = Some func
  /\ in_values func target' = true
  /\ forall draws', _add_callback draws' func target' = Ok (h, target').
Proof.
  intros Hk. unfold _add_callback at 1.
  destruct (in_values func target) eqn:E.
  - destruct (in_values_handles _ _ E) as (h0 & rest & Eh & Hin). rewrite Eh.
    intros [= <- <-]. split; [now apply get_In|]. split; [exact E|].
    intros draws'. unfold _add_callback. now rewrite E, Eh.
  - destruct (draw_handle draws target) as [h'| |] eqn:Ed; try discriminate.
    intros [= <- <-]. apply draw_handle_fresh in Ed as [Ed _].
    assert (in_values func (target ++ [(h', func)]) = true) as Hin.
    { apply in_values_In. rewrite map_app. apply in_or_app. right. now left. }
    split; [now apply get_app_new|]. split; [exact Hin|].
    intros draws'. unfold _add_callback. rewrite Hin.
    unfold handles_of. rewrite filter_app, map_app.
    fold (handles_of func target). rewrite handles_of_absent by exact E.
    now rewrite filter_cons_True.
Qed.

(** X3: registrations are not counted.  Removing the handle that
    [_add_callback] returned answers [True] and leaves a dictionary in which
    the function is no value any more, also when the function had been
    registered before; when it had not, the dictionary is again what it was
    before the call. *)
Theorem add_callback_then_remove draws func target h target' :
  distinct target ->
  _add_callback draws func target = Ok (h, target') ->
  (_remove_callback h target').1 = true
  /\ in_values func (_remove_callback h target').2 = false
  /\ (in_values func target = false -> (_remove_callback h target').2 = target).
Proof.
  intros Hd Hadd. pose proof (distinct_add _ _ _ _ _ Hd Hadd) as [Hk' Hv'].
  assert (In (h, func) target' /\ (in_values func target = false ->
            target' = target ++ [(h, func)] /\ has_key h target = false)) as [Hin Hnew].
  { revert Hadd. unfold _add_callback. destruct (in_values func target) eqn:E.
    - destruct (in_values_handles _ _ E) as (h0 & rest & Eh & Hin). rewrite Eh.
      intros [= <- <-]. split; [exact Hin | discriminate].
    - destruct (draw_handle draws target) as [h'| |] eqn:Ed; try discriminate.
      intros [= <- <-]. apply draw_handle_fresh in Ed as [Ed _].
      split; [apply in_or_app; right; now left | auto]. }
  assert (has_key h target' = true) as Hh.
  { apply has_key_In, in_map_iff. now exists (h, func). }
  unfold _remove_callback. rewrite Hh. simpl.
  split; [reflexivity|]. split; [now apply pop_removes_value|].
  intros E. destruct (Hnew E) as [-> Hfresh].
  unfold dict_pop. rewrite filter_app. fold (dict_pop h target).
  rewrite pop_absent by exact Hfresh.
  rewrite filter_cons_False by (simpl; tauto). now rewrite app_nil_r.
Qed.

End WithCallbacks.

(** Two callbacks, named by numbers; [randint] first draws a handle that is
    taken. *)
Example add_then_add_again :
  add_pre_callback [5; 9] 100%nat (Callbacks [(5, 200%nat)] [])
  = Ok (9, Callbacks [(5, 200%nat); (9, 100%nat)] [])
  /\ add_pre_callback [3] 100%nat (Callbacks [(5, 200%nat); (9, 100%nat)] [])
     = Ok (9, Callbacks [(5, 200%nat); (9, 100%nat)] []).
Proof. split; reflexivity. Qed.

Example add_while_every_draw_is_taken :
  add_post_callback [5; 5; 5] 100%nat (Callbacks [] [(5, 200%nat)]) = Looping.
Proof. reflexivity. Qed.

Example remove_twice :
  remove_pre_callback 5 (Callbacks [(5, 200%nat); (9, 100%nat)] [])
  = (true, Callbacks [(9, 100%nat)] [])
  /\ remove_pre_callback 5 (Callbacks [(9, 100%nat)] [])
     = (false, Callbacks [(9, 100%nat)] []).
Proof. split; reflexivity. Qed.

Lemma callback_registration_idempotent_removal_exact_witness :
  (exists h1,
     add_pre_callback [5; 9] 100%nat (Callbacks [(5, 200%nat)] [])
     = Ok (h1, Callbacks ([(5, 200%nat)] ++ [(h1, 100%nat)]) [])
     /\ has_key h1 [(5, 200%nat)] = false)
  /\ (exists h0,
        add_post_callback [3] 200%nat (Callbacks [] [(5, 200%nat); (9, 100%nat)])
        = Ok (h0, Callbacks [] [(5, 200%nat); (9, 100%nat)])
        /\ In (h0, 200%nat) [(5, 200%nat); (9, 100%nat)])
  /\ remove_pre_callback 7 (Callbacks [(5, 200%nat)] []) = (false, Callbacks [(5, 200%nat)] []).
Proof.
  split; [|split].
  - destruct (callback_registration_idempotent_removal_exact
                [5; 9] 100%nat 0 (Callbacks [(5, 200%nat)] []))
      as (_ & _ & H & _).
    apply H; [reflexivity|]. exists 9. split; [simpl; auto | reflexivity].
  - destruct (callback_registration_idempotent_removal_exact
                [3] 200%nat 0 (Callbacks [] [(5, 200%nat); (9, 100%nat)]))
      as (_ & H & _).
    apply H. reflexivity.
  - destruct (callback_registration_idempotent_removal_exact
                [] 100%nat 7 (Callbacks [(5, 200%nat)] []))
      as (_ & _ & _ & _ & _ & _ & H & _).
    apply H. reflexivity.
Defined.

Lemma add_callback_then_lookup_witness :
  get 9 [(5, 200%nat); (9, 100%nat)] = Some 100%nat
  /\ in_values 100%nat [(5, 200%nat); (9, 100%nat)] = true
  /\ forall draws',
       _add_callback draws' 100%nat [(5, 200%nat); (9, 100%nat)]
       = Ok (9, [(5, 200%nat); (9, 100%nat)]).
Proof.
  apply (add_callback_then_lookup [5; 9] 100%nat [(5, 200%nat)] 9).
  - apply (bool_decide_unpack _). vm_compute. exact I.
  - reflexivity.
Defined.

Lemma add_callback_then_remove_witness :
  (_remove_callback 9 [(5, 200%nat); (9, 100%nat)]).1 = true
  /\ in_values 100%nat (_remove_callback 9 [(5, 200%nat); (9, 100%nat)]).2 = false
  /\ (in_values 100%nat [(5, 200%nat)] = false ->
      (_remove_callback 9 [(5, 200%nat); (9, 100%nat)]).2 = [(5, 200%nat)]).
Proof.
  apply (add_callback_then_remove [5; 9] 100%nat [(5, 200%nat)] 9).
  - split; apply (bool_decide_unpack _); vm_compute; exact I.
  - reflexivity.
Defined.

End Registry.

(** ** clearml/utilities/pigar/unpack.py : [Archive] *)

Module Unpack.

Local Open Scope string_scope.

Inductive exn :=
| AttributeError (module_name attribute : string)
| ValueError_unsafe (unsafe : list string)   (* "unsafe to unpack: [...]" *)
| ValueError_unreadable (filename : string). (* "unreadable: ..." *)

(** What a call does: it raises, or it ends with a value. *)
Inductive result (A : Type) :=
| Raised (e : exn)
| Returned (a : A).
Arguments Raised {A} e.
Arguments Returned {A} a.

(** The constants of Python's [string] module, by attribute name; any other
    data attribute does not exist. *)
Definition string_module (attribute : string) : option string :=
  if String.eqb attribute "ascii_lowercase" then Some "abcdefghijklmnopqrstuvwxyz"
  else if String.eqb attribute "ascii_uppercase" then Some "ABCDEFGHIJKLMNOPQRSTUVWXYZ"
  else if String.eqb attribute "ascii_letters"
       then Some "abcdefghijklmnopqrstuvwxyzABCDEFGHIJKLMNOPQRSTUVWXYZ"
  else if String.eqb attribute "digits" then Some "0123456789"
  else if String.eqb attribute "hexdigits" then Some "0123456789abcdefABCDEF"
  else if String.eqb attribute "octdigits" then Some "01234567"
  else None.

(** [c in s] for a one-character [c]. *)
Fixpoint char_in (c : ascii) (s : string) : bool :=
  match s with
  | EmptyString => false
  | String d rest => Ascii.eqb c d || char_in c rest
  end.

(** [filename.startswith(("/", "\\"))] *)
Definition startswith_separator (filename : string) : bool :=
  match filename with
  | String c _ => Ascii.eqb c "/" || Ascii.eqb c "\"
  | EmptyString => false
  end.

(** [len(filename) > 1 and filename[1] == ":"] *)
Definition second_is_colon (filename : string) : bool :=
  match filename with
  | String _ (String c _) => Ascii.eqb c ":"
  | _ => false
  end.

(** [re.search(r"[.][.][/\\]", filename)], as a truth value. *)
Fixpoint search_dotdot_separator (filename : string) : bool :=
  match filename with
  | EmptyString => false
  | String a rest =>
      match rest with
      | String b (String c _) =>
          (Ascii.eqb a "." && Ascii.eqb b "." && (Ascii.eqb c "/" || Ascii.eqb c "\"))
          || search_dotdot_separator rest
      | _ => false
      end
  end.

(** Lines 94-99.  Python evaluates the [or] and [and] chains from the left and
    stops as soon as the value is known; the third operand of the [and] looks
    up the attribute [ascii_letter] of the module [string]. *)
Definition is_safe (filename : string) : result bool :=
  if startswith_separator filename then Returned false
  else if second_is_colon filename then
    match string_module "ascii_letter" with
    | None => Raised (AttributeError "string" "ascii_letter")
    | Some letters =>
        match filename with
        | String c _ =>
            if char_in c letters then Returned false
            else Returned (negb (search_dotdot_separator filename))
        | EmptyString => Returned (negb (search_dotdot_separator filename))
        end
    end
  else Returned (negb (search_dotdot_separator filename)).

(** The loop of lines 71-74: the names that are not safe, in order. *)
Fixpoint collect_unsafe (names : list string) (unsafe : list string)
  : result (list string) :=
  match names with
  | [] => Returned unsafe
  | name :: rest =>
      match is_safe name with
      | Raised e => Raised e
      | Returned true => collect_unsafe rest unsafe
      | Returned false => collect_unsafe rest (unsafe ++ [name])
      end
  end.

(** Lines 70-77.  [Returned l]: [self._file.extractall(to_path)] was called on
    an archive whose members are [l]. *)
Definition _safe_extractall (names : list string) : result (list string) :=
  match collect_unsafe names [] with
  | Raised e => Raised e
  | Returned [] => Returned names
  | Returned unsafe => Raised (ValueError_unsafe unsafe)
  end.

(** [s.endswith(suffix)] *)
Definition endswith (s suffix : string) : bool :=
  let n := String.length s in
  let m := String.length suffix in
  Nat.leb m n && String.eqb (substring (n - m) m s) suffix.

Definition endswith_any (s : string) (suffixes : list string) : bool :=
  existsb (endswith s) suffixes.

(** An archive: its file name and the member names that [zipfile] or
    [tarfile] reports once it is opened. *)
Record Archive := { _filename : string; member_names : list string }.

(** Lines 60-68: which opener is used. *)
Definition _prepare (a : Archive) : result unit :=
  if endswith_any (_filename a) [".tar.gz"; ".tar.bz2"; ".tar.xz"] then Returned tt
  else if endswith_any (_filename a) [".zip"; ".egg"; ".whl"] then Returned tt
  else Raised (ValueError_unreadable (_filename a)).

(** Lines 54-58. *)
Definition unpack (a : Archive) : result (list string) :=
  match _prepare a with
  | Raised e => Raised e
  | Returned _ => _safe_extractall (member_names a)
  end.

(** The notion of an unsafe member name, in the words of the specification. *)
Definition is_ascii_letter (c : ascii) : bool :=
  let n := nat_of_ascii c in
  ((65 <=? n)%nat && (n <=? 90)%nat) || ((97 <=? n)%nat && (n <=? 122)%nat).

Definition names_drive (filename : string) : bool :=
  match filename with
  | String c (String d _) => Ascii.eqb d ":" && is_ascii_letter c
  | _ => false
  end.

Definition unsafe_by_spec (filename : string) : bool :=
  startswith_separator filename || names_drive filename
  || search_dotdot_separator filename.

(** What [is_safe] does with a name, read off its three operands: the first
    and the third reject the name, the second cannot be evaluated. *)
Definition rejected (filename : string) : bool :=
  startswith_separator filename || search_dotdot_separator filename.

Definition crashing (filename : string) : bool :=
  negb (startswith_separator filename) && second_is_colon filename.

(** [c.lower()] for a character below 256. *)
Definition lower_char (c : ascii) : ascii :=
  let n := nat_of_ascii c in
  if ((65 <=? n)%nat && (n <=? 90)%nat)
     || ((192 <=? n)%nat && (n <=? 222)%nat && negb (n =? 215)%nat)
  then ascii_of_nat (n + 32) else c.

(** [s.lower()] *)
Fixpoint lower (s : string) : string :=
  match s with
  | EmptyString => EmptyString
  | String c rest => String (lower_char c) (lower rest)
  end.

(** The characters below 256 at which [str.splitlines] breaks a line: line
    feed, vertical tab, form feed, carriage return, the three separators 28 to
    30 and the next-line character 133. *)
Definition is_linebreak (c : ascii) : bool :=
  let n := nat_of_ascii c in
  ((10 <=? n)%nat && (n <=? 13)%nat) || ((28 <=? n)%nat && (n <=? 30)%nat)
  || (n =? 133)%nat.

(** [txt.splitlines()], with the characters of the line being read in
    [current]; a carriage return and the line feed after it end one line, and
    what follows the last break is a line only if it is not empty. *)
Fixpoint splitlines_from (current : string) (txt : string) : list string :=
  match txt with
  | EmptyString => if String.eqb current "" then [] else [current]
  | String c rest =>
      if is_linebreak c then
        match rest with
        | String d rest' =>
            if Ascii.eqb c "013" && Ascii.eqb d "010"
            then current :: splitlines_from "" rest'
            else current :: splitlines_from "" rest
        | EmptyString => current :: splitlines_from "" rest
        end
      else splitlines_from (current ++ String c "") rest
  end.

Definition splitlines (txt : string) : list string := splitlines_from "" txt.

(** [name.replace("/", ".")] *)
Fixpoint replace_slash (name : string) : string :=
  match name with
  | EmptyString => EmptyString
  | String c rest => String (if Ascii.eqb c "/" then "."%char else c) (replace_slash rest)
  end.

(** How a call of [top_level] ends: with the [ValueError] of [_prepare], with
    whatever [archive.read(file).decode("utf-8")] raises, or with the list of
    names. *)
Inductive top_level_outcome :=
| Unreadable (filename : string)
| ReadFailed (member : string)
| Names (names : list string).

(** Lines 113-126, for an archive that [zipfile] or [tarfile] can open.
    [read_text member] is the decoded content of a member ([None]: reading or
    decoding it raises), as a text of characters below 256; the second
    component lists the members that were read. *)
Definition top_level (a : Archive) (read_text : string -> option string)
  : top_level_outcome * list string :=
  match _prepare a with
  | Raised _ => (Unreadable (_filename a), [])
  | Returned _ =>
      match List.find (fun name => endswith (lower name) "top_level.txt") (member_names a) with
      | None => (Names [], [])
      | Some file =>
          if String.eqb file "" then (Names [], [])
          else
            match read_text file with
            | None => (ReadFailed file, [file])
            | Some txt =>
                if String.eqb txt "" then (Names [], [file])
                else (Names (map replace_slash (splitlines txt)), [file])
            end
      end
  end.

Lemma names_drive_colon filename :
  names_drive filename = true -> second_is_colon filename = true.
Proof.
  destruct filename as [|c [|d rest]]; simpl; try discriminate.
  intros H. now apply andb_true_iff in H as [H _].
Qed.

Lemma is_safe_true filename :
  is_safe filename = Returned true -> unsafe_by_spec filename = false.
Proof.
  unfold is_safe, unsafe_by_spec.
  destruct (startswith_separator filename); [discriminate|].
  destruct (second_is_colon filename) eqn:Hc; [discriminate|].
  destruct (names_drive filename) eqn:Hd.
  - apply names_drive_colon in Hd. congruence.
  - simpl. intros [= H]. now apply negb_true_iff in H.
Qed.

Lemma collect_unsafe_safe names : forall acc unsafe,
  collect_unsafe names acc = Returned unsafe ->
  unsafe = acc \/
  (unsafe <> [] /\ exists name, In name names /\ In name unsafe).
Proof.
  induction names as [|name names IH]; simpl; intros acc unsafe H.
  - left. congruence.
  - destruct (is_safe name) as [e|[|]] eqn:E; [discriminate| |].
    + destruct (IH _ _ H) as [->|(Hne & n & Hn & Hin)]; [now left|].
      right. split; [exact Hne|]. exists n. tauto.
    + destruct (IH _ _ H) as [->|(Hne & n & Hn & Hin)].
      * right. split; [now destruct acc|]. exists name.
        split; [now left|]. apply in_or_app. right. now left.
      * right. split; [exact Hne|]. exists n. tauto.
Qed.

Lemma collect_unsafe_empty names : forall acc,
  collect_unsafe names acc = Returned [] ->
  Forall (fun name => unsafe_by_spec name = false) names.
Proof.
  induction names as [|name names IH]; simpl; intros acc H; [constructor|].
  destruct (is_safe name) as [e|[|]] eqn:E; [discriminate| |].
  - constructor; [now apply is_safe_true | eapply IH; eauto].
  - exfalso. destruct (collect_unsafe_safe _ _ _ H) as [Hacc|[Hne _]].
    + now destruct acc.
    + now apply Hne.
Qed.

(** Extraction happens only for archives all of whose members are safe in the
    sense of the specification. *)
Lemma unpack_extracts_only_safe (a : Archive) (extracted : list string) :
  unpack a = Returned extracted ->
  extracted = member_names a
  /\ Forall (fun name => unsafe_by_spec name = false) extracted.
Proof.
  unfold unpack, _safe_extractall.
  destruct (_prepare a); [discriminate|].
  destruct (collect_unsafe (member_names a) []) as [e|[|u us]] eqn:E; try discriminate.
  intros [= <-]. split; [reflexivity|]. eapply collect_unsafe_empty; eauto.
Qed.

Lemma is_safe_cases filename :
  is_safe filename
  = if crashing filename then Raised (AttributeError "string" "ascii_letter")
    else Returned (negb (rejected filename)).
Proof.
  unfold is_safe, crashing, rejected.
  destruct (startswith_separator filename); [reflexivity|].
  destruct (second_is_colon filename); reflexivity.
Qed.

Lemma collect_unsafe_cases names : forall acc,
  collect_unsafe names acc
  = if existsb crashing names then Raised (AttributeError "string" "ascii_letter")
    else Returned (acc ++ List.filter rejected names)%list.
Proof.
  induction names as [|name names IH]; simpl; intros acc.
  - now rewrite app_nil_r.
  - rewrite is_safe_cases. destruct (crashing name); [reflexivity|]. simpl.
    destruct (rejected name); simpl; rewrite IH.
    + destruct (existsb crashing names); [reflexivity|]. now rewrite <- app_assoc.
    + reflexivity.
Qed.

(** X9: what [unpack] does with an archive whose file name has one of the six
    extensions.  If some member name has a colon as its second character and
    no leading separator, the call ends in the [AttributeError] of
    [string.ascii_letter], whatever the other names are; otherwise, if some
    names start with a separator or contain two dots followed by one, it ends
    in the [ValueError] that lists exactly these names in archive order; and
    only otherwise [extractall] is called. *)
Theorem unpack_outcome (a : Archive) :
  _prepare a = Returned tt ->
  unpack a
  = if existsb crashing (member_names a)
    then Raised (AttributeError "string" "ascii_letter")
    else match List.filter rejected (member_names a) with
         | [] => Returned (member_names a)
         | unsafe => Raised (ValueError_unsafe unsafe)
         end.
Proof.
  intros Hp. unfold unpack, _safe_extractall. rewrite Hp, collect_unsafe_cases.
  destruct (existsb crashing (member_names a)); [reflexivity|]. simpl.
  destruct (List.filter rejected (member_names a)); reflexivity.
Qed.

(** X10: [unpack] never extracts an archive with an unsafe member or with a
    file name it does not know: when [extractall] is called, the file name has
    one of the six extensions, all members are handed over, and none of them
    starts with a separator, names a drive or contains two dots followed by a
    separator. *)
Theorem unpack_extracts_only_safe_archives (a : Archive) (extracted : list string) :
  unpack a = Returned extracted ->
  endswith_any (_filename a) [".tar.gz"; ".tar.bz2"; ".tar.xz"; ".zip"; ".egg"; ".whl"] = true
  /\ extracted = member_names a
  /\ Forall (fun name => unsafe_by_spec name = false) extracted.
Proof.
  intros H. split; [|now apply unpack_extracts_only_safe].
  revert H. unfold unpack, _prepare, endswith_any. simpl.
  repeat match goal with
         | |- context [endswith ?x ?y] => destruct (endswith x y); simpl; auto
         end.
  discriminate.
Qed.

Lemma splitlines_from_lines txt : forall current,
  forallb (fun c => negb (is_linebreak c)) (list_ascii_of_string current) = true ->
  Forall (fun line => forallb (fun c => negb (is_linebreak c)) (list_ascii_of_string line) = true)
         (splitlines_from current txt).
Proof.
  induction txt as [txt IH] using
    (well_founded_induction (well_founded_ltof _ String.length)).
  intros current Hc. destruct txt as [|c rest]; simpl.
  - destruct (String.eqb current ""); repeat constructor. exact Hc.
  - destruct (is_linebreak c) eqn:Ec.
    + destruct rest as [|d rest'].
      * constructor; [exact Hc|]. simpl. constructor.
      * destruct (Ascii.eqb c "013" && Ascii.eqb d "010");
          (constructor; [exact Hc|]); apply IH; unfold ltof; simpl; auto; lia.
    + apply IH; [unfold ltof; simpl; lia|].
      clear IH. induction current as [|x current IHc]; simpl in *.
      * now rewrite Ec.
      * apply andb_true_iff in Hc as [Hx Hc]. rewrite Hx. simpl. now apply IHc.
Qed.

Lemma replace_slash_chars name :
  forallb (fun c => negb (is_linebreak c)) (list_ascii_of_string name) = true ->
  forallb (fun c => negb (Ascii.eqb c "/") && negb (is_linebreak c))
          (list_ascii_of_string (replace_slash name)) = true.
Proof.
  induction name as [|c name IH]; simpl; [reflexivity|].
  intros [Hc Hn]%andb_true_iff. rewrite (IH Hn), andb_true_r.
  destruct (Ascii.eqb c "/") eqn:E; [reflexivity|]. now rewrite E, Hc.
Qed.

(** X11: [top_level] reads at most one member, the first whose name ends with
    [top_level.txt] in any letter case, and reads none when there is no such
    member, in which case it returns the empty list; the names it returns
    contain neither a slash nor a line break. *)
Theorem top_level_reads_one_member (a : Archive) (read_text : string -> option string) :
  let r := top_level a read_text in
  (r.2 = [] \/ exists file,
       r.2 = [file]
       /\ List.find (fun name => endswith (lower name) "top_level.txt") (member_names a)
          = Some file)
  /\ (forallb (fun name => negb (endswith (lower name) "top_level.txt")) (member_names a) = true ->
      _prepare a = Returned tt -> r = (Names [], []))
  /\ forall names, r.1 = Names names ->
       Forall (fun name =>
                 forallb (fun c => negb (Ascii.eqb c "/") && negb (is_linebreak c))
                         (list_ascii_of_string name) = true) names.
Proof.
  unfold top_level. split; [|split].
  - destruct (_prepare a); [now left|].
    destruct (List.find _ (member_names a)) as [file|] eqn:Ef; [|now left].
    destruct (String.eqb file ""); [now left|].
    destruct (read_text file) as [txt|]; [destruct (String.eqb txt "")|];
      right; exists file; auto.
  - intros Hnone ->.
    destruct (List.find _ (member_names a)) as [file|] eqn:Ef; [|reflexivity].
    apply find_some in Ef as [Hin Hf].
    rewrite forallb_forall in Hnone. specialize (Hnone file Hin).
    rewrite Hf in Hnone. discriminate.
  - intros names. destruct (_prepare a); [discriminate|].
    destruct (List.find _ (member_names a)) as [file|]; simpl.
    2: { intros [= <-]. constructor. }
    destruct (String.eqb file ""); simpl.
    { intros [= <-]. constructor. }
    destruct (read_text file) as [txt|]; [|discriminate].
    destruct (String.eqb txt ""); simpl; intros [= <-]; [constructor|].
    rewrite Forall_map. eapply Forall_impl; [apply (splitlines_from_lines txt ""); reflexivity|].
    intros line. apply replace_slash_chars.
Qed.

(** C6, at a member that names a Windows drive: the specification calls the
    name unsafe, and [unpack] extracts nothing, but what it raises is the
    [AttributeError] of [string.ascii_letter] instead of the [ValueError] that
    lists the unsafe names; the same happens for a name that the
    specification calls safe, whose second character is a colon that follows a
    digit. *)
Theorem unpack_drive_name_raises_AttributeError :
  unsafe_by_spec "C:evil.txt" = true
  /\ unpack {| _filename := "pkg.zip"; member_names := ["ok.txt"; "C:evil.txt"] |}
     = Raised (AttributeError "string" "ascii_letter")
  /\ unpack {| _filename := "pkg.zip"; member_names := ["ok.txt"; "C:evil.txt"] |}
     <> Raised (ValueError_unsafe ["C:evil.txt"])
  /\ unsafe_by_spec "1:notes.txt" = false
  /\ unpack {| _filename := "pkg.zip"; member_names := ["1:notes.txt"] |}
     = Raised (AttributeError "string" "ascii_letter").
Proof. repeat split; try reflexivity. discriminate. Qed.

Example unpack_parent_path :
  unpack {| _filename := "pkg.tar.gz"; member_names := ["a/b.py"; "../x"; "/etc/passwd"; "c\..\d"] |}
  = Raised (ValueError_unsafe ["../x"; "/etc/passwd"; "c\..\d"]).
Proof. reflexivity. Qed.

Example unpack_all_safe :
  unpack {| _filename := "pkg.whl"; member_names := ["a/b.py"; "a/..b"; "top_level.txt"] |}
  = Returned ["a/b.py"; "a/..b"; "top_level.txt"].
Proof. reflexivity. Qed.

Example top_level_of_a_wheel :
  top_level {| _filename := "pkg.whl";
               member_names := ["pkg/__init__.py"; "pkg.dist-info/TOP_LEVEL.TXT"; "top_level.txt"] |}
            (fun member => if String.eqb member "pkg.dist-info/TOP_LEVEL.TXT"
                           then Some ("pkg" ++ String "010" ("ns/sub" ++ String "013"
                                        (String "010" ("other" ++ String "013" ""))))
                           else None)
  = (Names ["pkg"; "ns.sub"; "other"], ["pkg.dist-info/TOP_LEVEL.TXT"]).
Proof. reflexivity. Qed.

Example splitlines_keeps_empty_lines :
  splitlines ("a" ++ String "010" (String "010" ("b" ++ String "010" ""))) = ["a"; ""; "b"]
  /\ splitlines "" = []
  /\ splitlines (String "010" "") = [""].
Proof. repeat split; reflexivity. Qed.

Lemma unpack_outcome_witness :
  unpack {| _filename := "pkg.zip"; member_names := ["ok.txt"; "/x"; "C:evil.txt"] |}
  = Raised (AttributeError "string" "ascii_letter")
  /\ unpack {| _filename := "pkg.tar.gz"; member_names := ["a/b.py"; "../x"; "/etc/passwd"] |}
     = Raised (ValueError_unsafe ["../x"; "/etc/passwd"]).
Proof.
  split.
  - exact (unpack_outcome
             {| _filename := "pkg.zip"; member_names := ["ok.txt"; "/x"; "C:evil.txt"] |}
             eq_refl).
  - exact (unpack_outcome
             {| _filename := "pkg.tar.gz"; member_names := ["a/b.py"; "../x"; "/etc/passwd"] |}
             eq_refl).
Defined.

Lemma unpack_extracts_only_safe_archives_witness :
  Forall (fun name => unsafe_by_spec name = false) ["a/b.py"; "a/..b"; "top_level.txt"].
Proof.
  apply (unpack_extracts_only_safe_archives
           {| _filename := "pkg.whl"; member_names := ["a/b.py"; "a/..b"; "top_level.txt"] |}).
  reflexivity.
Defined.

End Unpack.

(** ** clearml/utilities/lowlevel/threads.py *)

Module Threads.

(** Exception objects handed to the interpreter. *)
Inductive exc :=
| SystemExit
| OtherException (name : string).

(** One call of [ctypes.pythonapi.PyThreadState_SetAsyncExc(tid, arg)];
    [None] as the argument is the [NULL] that cancels a pending exception. *)
Record api_call := ApiCall { call_tid : Z; call_exc : option exc }.

Section WithInterpreter.

(** The interpreter outside this module: its state, the version it reports and
    the width of a C [long]. *)
Context {W : Type}.
Variable version_major version_minor : Z.
Variable long_bits : Z.

(** [PyThreadState_SetAsyncExc]: the number of thread states it modified, or
    [None] when the [ctypes] call raises. *)
Variable PyThreadState_SetAsyncExc : Z -> option exc -> W -> option N * W.

(** [thread_obj.is_alive()] and [time.sleep(0.1)]. *)
Variable is_alive : Z -> W -> bool * W.
Variable sleep : W -> W.

(** [ctypes.c_ulong(v).value] and [ctypes.c_long(v).value]. *)
Definition c_ulong (v : Z) : Z := v mod 2 ^ long_bits.
Definition c_long (v : Z) : Z :=
  (v + 2 ^ (long_bits - 1)) mod 2 ^ long_bits - 2 ^ (long_bits - 1).

(** Lines 32-37. *)
Definition c_tid (v : Z) : Z :=
  if (3 <=? version_major) && (7 <=? version_minor) then c_ulong v else c_long v.

(** Lines 19-23: the first ident of [threading._active] whose thread object
    is [thread_obj] (objects are compared with [is]; they are named by
    numbers here). *)
Fixpoint find_thread (active : list (Z * Z)) (thread_obj : Z) : option Z :=
  match active with
  | [] => None
  | (tid, tobj) :: rest =>
      if Z.eqb tobj thread_obj then Some tid else find_thread rest thread_obj
  end.

(** Lines 15-62.  The result comes with the API calls made, in order, and the
    interpreter state. *)
Definition _lowlevel_async_raise
    (active : list (Z * Z)) (thread_obj : Z) (exception : option exc) (w : W)
  : bool * list api_call * W :=
  match find_thread active thread_obj with
  | None => (false, [], w)
  | Some target_tid =>
      let exception := match exception with Some e => e | None => SystemExit end in
      let target_tid := c_tid target_tid in
      let '(answer, w1) := PyThreadState_SetAsyncExc target_tid (Some exception) w in
      let first := ApiCall target_tid (Some exception) in
      (* try: ret = ... except Exception: ret = 0 *)
      let ret := match answer with Some n => Z.of_N n | None => 0 end in
      if ret =? 0 then (false, [first], w1)
      else if ret >? 1 then
        let '(_, w2) := PyThreadState_SetAsyncExc target_tid None w1 in
        (false, [first; ApiCall target_tid None], w2)
      else (true, [first], w1)
  end.

(** The loop of lines 69-70, for at most [polls] rounds; [None]: the thread is
    still alive after them. *)
Fixpoint wait_loop (polls : nat) (wait : bool) (thread_obj : Z) (w : W)
  : option W :=
  if wait then
    match polls with
    | O => None
    | S polls' =>
        let '(alive, w1) := is_alive thread_obj w in
        if alive then wait_loop polls' wait thread_obj (sleep w1) else Some w1
    end
  else Some w.

(** Lines 65-71. *)
Definition kill_thread
    (polls : nat) (active : list (Z * Z)) (thread_obj : Z) (wait : bool) (w : W)
  : option bool * list api_call * W :=
  let '(raised, calls, w1) := _lowlevel_async_raise active thread_obj (Some SystemExit) w in
  if negb raised then (Some false, calls, w1)
  else
    match wait_loop polls wait thread_obj w1 with
    | Some w2 => (Some true, calls, w2)
    | None => (None, calls, w1)
    end.

(** The argument of [threadpool_waited_join]: an object that is false (such as
    [None]), a [threading.Thread], or any other object with a [join] method
    (such as a [ThreadPool]); objects are named by numbers. *)
Inductive joinable :=
| Falsy
| AThread (thread_obj : Z)
| APool (pool_obj : Z).

(** The [timeout] argument, which is only handed on. *)
Context {T : Type}.

(** [thread_object.join(timeout=timeout)]; [false]: the call raises. *)
Variable join : Z -> T -> W -> bool * W.

(** Lines 99-108: a daemon thread running [__wait_thread(thread_object,
    done_signal)] is created and started; the answer is the new thread object,
    or [None] when [start] raises. *)
Variable start_waiter : Z -> W -> option Z * W.

(** [done_signal.wait(timeout=timeout)] *)
Variable done_signal_wait : T -> W -> bool * W.

(** [threading._active.items()], as [kill_thread] finds it. *)
Variable active_threads : W -> list (Z * Z).

(** Lines 83-113.  [None]: an exception leaves the function. *)
Definition threadpool_waited_join (thread_object : joinable) (timeout : T) (w : W)
  : option bool * list api_call * W :=
  match thread_object with
  | Falsy => (Some true, [], w)
  | AThread t =>
      let '(returned, w1) := join t timeout w in
      if returned then
        let '(alive, w2) := is_alive t w1 in
        (Some (negb alive), [], w2)
      else (None, [], w1)
  | APool p =>
      let '(started, w1) := start_waiter p w in
      match started with
      | None => (None, [], w1)
      | Some waitable =>
          let '(done, w2) := done_signal_wait timeout w1 in
          if done then (Some true, [], w2)
          else
            let '(_, calls, w3) := kill_thread O (active_threads w2) waitable false w2 in
            (Some false, calls, w3)
      end
  end.

End WithInterpreter.

(** An interpreter with threads 101 and 102, whose state counts the API calls
    it has seen and which reports one modified thread state for a known ident
    and none for any other. *)
Definition demo_api (tid : Z) (e : option exc) (w : nat) : option N * nat :=
  (Some (if (tid =? 101) || (tid =? 102) then 1%N else 0%N), S w).

Definition demo_alive (thread_obj : Z) (w : nat) : bool * nat := (Nat.ltb w 3, w).

Section WithInterpreterFacts.

Context {W : Type}.
Variable version_major version_minor : Z.
Variable long_bits : Z.
Variable PyThreadState_SetAsyncExc : Z -> option exc -> W -> option N * W.
Variable is_alive : Z -> W -> bool * W.
Variable sleep : W -> W.

Local Abbreviation c_ulong := (Threads.c_ulong long_bits).
Local Abbreviation c_tid := (Threads.c_tid version_major version_minor long_bits).
Local Abbreviation _lowlevel_async_raise :=
  (Threads._lowlevel_async_raise version_major version_minor long_bits
     PyThreadState_SetAsyncExc).
Local Abbreviation wait_loop := (Threads.wait_loop is_alive sleep).
Local Abbreviation kill_thread :=
  (Threads.kill_thread version_major version_minor long_bits PyThreadState_SetAsyncExc
     is_alive sleep).

Lemma find_thread_None active thread_obj :
  find_thread active thread_obj = None <-> ~ In thread_obj (map snd active).
Proof.
  induction active as [|[tid tobj] active IH]; simpl; [tauto|].
  destruct (Z.eqb_spec tobj thread_obj) as [->|Hne].
  - split; [discriminate | tauto].
  - rewrite IH. tauto.
Qed.

Lemma find_thread_Some active thread_obj tid :
  find_thread active thread_obj = Some tid -> In (tid, thread_obj) active.
Proof.
  induction active as [|[t tobj] active IH]; simpl; [discriminate|].
  destruct (Z.eqb_spec tobj thread_obj) as [->|Hne]; [intros [= ->]|]; auto.
Qed.

(** The search of lines 19-23 stops at the first entry of [threading._active]
    that holds the thread object. *)
Lemma find_thread_first before tid thread_obj after :
  ~ In thread_obj (map snd before) ->
  find_thread (before ++ (tid, thread_obj) :: after) thread_obj = Some tid.
Proof using Type.
  induction before as [|[t tobj] before IH]; simpl; intros Hn.
  - rewrite Z.eqb_refl. reflexivity.
  - destruct (Z.eqb_spec tobj thread_obj) as [->|Hne].
    + exfalso. apply Hn. left. reflexivity.
    + apply IH. intros Hin. apply Hn. right. exact Hin.
Qed.

(** A thread object that is active under one ident only is found under it. *)
Lemma find_thread_unique active thread_obj tid :
  In (tid, thread_obj) active ->
  (forall tid', In (tid', thread_obj) active -> tid' = tid) ->
  find_thread active thread_obj = Some tid.
Proof using Type.
  intros Hin Huniq. clear - Hin Huniq.
  induction active as [|[t tobj] active IH]; simpl; [destruct Hin|].
  destruct (Z.eqb_spec tobj thread_obj) as [->|Hne].
  - f_equal. apply Huniq. left. reflexivity.
  - apply IH.
    + destruct Hin as [[= -> ->]|Hin]; [congruence | exact Hin].
    + intros tid' H'. apply Huniq. right. exact H'.
Qed.

(** An ident that fits an unsigned C [long] reaches the API unchanged on
    Python 3.7 and later. *)
Lemma c_tid_in_range tid :
  3 <= version_major -> 7 <= version_minor -> 0 <= tid < 2 ^ long_bits ->
  c_tid tid = tid.
Proof.
  intros H3 H7 Hr. unfold c_tid, c_ulong.
  apply Z.leb_le in H3, H7. rewrite H3, H7. simpl. now apply Z.mod_small.
Qed.

Lemma wait_loop_no_wait polls thread_obj w :
  wait_loop polls false thread_obj w = Some w.
Proof. destruct polls; reflexivity. Qed.


(** The calls that [_lowlevel_async_raise] makes all name the ident it found. *)
Lemma async_raise_calls active thread_obj exception w :
  let calls := (_lowlevel_async_raise active thread_obj exception w).1.2 in
  match find_thread active thread_obj with
  | None => calls = []
  | Some tid =>
      let e := match exception with Some e => e | None => SystemExit end in
      calls = [ApiCall (c_tid tid) (Some e)]
      \/ calls = [ApiCall (c_tid tid) (Some e); ApiCall (c_tid tid) None]
  end.
Proof.
  unfold _lowlevel_async_raise.
  destruct (find_thread active thread_obj) as [tid|]; [|reflexivity].
  destruct (PyThreadState_SetAsyncExc (c_tid tid) _ w) as [answer w1].
  destruct (_ =? 0); [now left|].
  destruct (_ >? 1); [|now left].
  destruct (PyThreadState_SetAsyncExc (c_tid tid) None w1). now right.
Qed.

Lemma c_long_in_range tid :
  0 < long_bits -> - 2 ^ (long_bits - 1) <= tid < 2 ^ (long_bits - 1) ->
  Threads.c_long long_bits tid = tid.
Proof.
  intros Hb Hr. unfold Threads.c_long.
  assert (2 ^ long_bits = 2 * 2 ^ (long_bits - 1)) as E.
  { replace long_bits with (Z.succ (long_bits - 1)) at 1 by lia.
    rewrite Z.pow_succ_r by lia. reflexivity. }
  rewrite Z.mod_small by lia. lia.
Qed.

Lemma wait_loop_last polls thread_obj : forall w w2,
  wait_loop polls true thread_obj w = Some w2 ->
  exists w1, is_alive thread_obj w1 = (false, w2).
Proof.
  induction polls as [|polls IH]; simpl; intros w w2; [discriminate|].
  destruct (is_alive thread_obj w) as [[|] w1] eqn:E.
  - apply IH.
  - intros [= <-]. eauto.
Qed.

Lemma wait_loop_alive polls thread_obj :
  (forall w, (is_alive thread_obj w).1 = true) ->
  forall w, wait_loop polls true thread_obj w = None.
Proof.
  intros Halive. induction polls as [|polls IH]; simpl; intros w; [reflexivity|].
  specialize (Halive w). destruct (is_alive thread_obj w) as [alive w1].
  simpl in Halive. subst alive. apply IH.
Qed.

(** X6: the ident that [threading._active] holds for the thread object is the
    one the interpreter is called with.  For a thread object that is active
    under the ident [tid], and under no other, on Python 3.7 and later with an
    ident that fits an unsigned C [long], and before 3.7 with one that fits a
    signed C [long], [_lowlevel_async_raise] calls [PyThreadState_SetAsyncExc]
    at least once and at most twice, and every call names [tid]. *)
Theorem async_raise_calls_name_the_thread_ident
    (active : list (Z * Z)) (thread_obj : Z) (exception : option exc) (w : W) (tid : Z) :
  In (tid, thread_obj) active ->
  (forall tid', In (tid', thread_obj) active -> tid' = tid) ->
  0 < long_bits ->
  (3 <= version_major /\ 7 <= version_minor /\ 0 <= tid < 2 ^ long_bits)
  \/ ((version_major < 3 \/ version_minor < 7)
      /\ - 2 ^ (long_bits - 1) <= tid < 2 ^ (long_bits - 1)) ->
  let calls := (_lowlevel_async_raise active thread_obj exception w).1.2 in
  calls <> []
  /\ Forall (fun c => call_tid c = tid) calls
  /\ (length calls <= 2)%nat.
Proof.
  intros Hin Huniq Hb Hr calls.
  pose proof (find_thread_unique _ _ _ Hin Huniq) as Hf.
  assert (c_tid tid = tid) as E.
  { destruct Hr as [(H3 & H7 & Hr)|[Hv Hr]].
    - now apply c_tid_in_range.
    - unfold Threads.c_tid.
      replace ((3 <=? version_major) && (7 <=? version_minor)) with false.
      + now apply c_long_in_range.
      + symmetry. apply andb_false_iff.
        destruct Hv; [left | right]; now apply Z.leb_gt. }
  pose proof (async_raise_calls active thread_obj exception w) as H.
  cbv zeta in H. rewrite Hf, E in H. fold calls in H.
  destruct H as [-> | ->]; simpl; repeat split; try discriminate;
    repeat constructor; lia.
Qed.

(** X7: [kill_thread] with [wait] answers [True] only after [is_alive] has
    answered [False], and the interpreter state it leaves is the one of that
    answer; while the thread object keeps reporting itself alive after the
    exception was set, the loop of lines 69-70 is never left, however many
    rounds it is given. *)
Theorem kill_thread_waits_for_the_thread
    (active : list (Z * Z)) (thread_obj : Z) (w : W) :
  (forall polls calls w2,
     kill_thread polls active thread_obj true w = (Some true, calls, w2) ->
     exists w1, is_alive thread_obj w1 = (false, w2))
  /\ ((forall w1, (is_alive thread_obj w1).1 = true) ->
      (_lowlevel_async_raise active thread_obj (Some SystemExit) w).1.1 = true ->
      forall polls, (kill_thread polls active thread_obj true w).1.1 = None).
Proof.
  unfold kill_thread. split.
  - intros polls calls w2.
    destruct (_lowlevel_async_raise active thread_obj (Some SystemExit) w)
      as [[[|] calls'] w1]; simpl; [|discriminate].
    destruct (wait_loop polls true thread_obj w1) as [w2'|] eqn:E; [|discriminate].
    intros [= _ <-]. eapply wait_loop_last; eauto.
  - intros Halive Hraised polls.
    destruct (_lowlevel_async_raise active thread_obj (Some SystemExit) w)
      as [[raised calls'] w1]; simpl in *. subst raised. simpl.
    now rewrite wait_loop_alive.
Qed.

(** The objects that [threadpool_waited_join] works with. *)
Context {T : Type}.
Variable join : Z -> T -> W -> bool * W.
Variable start_waiter : Z -> W -> option Z * W.
Variable done_signal_wait : T -> W -> bool * W.
Variable active_threads : W -> list (Z * Z).

Local Abbreviation threadpool_waited_join :=
  (Threads.threadpool_waited_join version_major version_minor long_bits
     PyThreadState_SetAsyncExc is_alive sleep join start_waiter done_signal_wait
     active_threads).

(** X8: [threadpool_waited_join] never raises an exception in the thread it
    was asked to join.  For a [threading.Thread] (and for a false argument) it
    makes no API call at all; for another object it makes one only after
    [done_signal.wait] timed out, it answers [False] then, and every such call
    names the ident under which the waiter thread it started itself is active
    and carries [SystemExit] or the cancelling [NULL]. *)
Theorem threadpool_waited_join_kills_only_its_waiter
    (thread_object : joinable) (timeout : T) (w : W) :
  let r := threadpool_waited_join thread_object timeout w in
  r.1.2 = []
  \/ exists p waitable w1 w2 tid,
       thread_object = APool p
       /\ start_waiter p w = (Some waitable, w1)
       /\ done_signal_wait timeout w1 = (false, w2)
       /\ r.1.1 = Some false
       /\ find_thread (active_threads w2) waitable = Some tid
       /\ Forall (fun c => call_tid c = c_tid tid
                          /\ (call_exc c = Some SystemExit \/ call_exc c = None)) r.1.2.
Proof.
  unfold threadpool_waited_join. destruct thread_object as [|t|p]; simpl.
  - now left.
  - destruct (join t timeout w) as [[|] w1]; [|now left].
    destruct (is_alive t w1). now left.
  - destruct (start_waiter p w) as [[waitable|] w1] eqn:Es; [|now left].
    destruct (done_signal_wait timeout w1) as [[|] w2] eqn:Ed; [now left|].
    pose proof (async_raise_calls (active_threads w2) waitable (Some SystemExit) w2) as H.
    cbv zeta in H. unfold kill_thread.
    destruct (_lowlevel_async_raise (active_threads w2) waitable (Some SystemExit) w2)
      as [[raised calls] w3]. simpl in H.
    destruct raised; simpl; rewrite ?wait_loop_no_wait; simpl.
    all: destruct (find_thread (active_threads w2) waitable) as [tid|] eqn:Ef;
      [right | left; exact H].
    all: exists p, waitable, w1, w2, tid; repeat split; auto.
    all: destruct H as [-> | ->];
      repeat (apply Forall_cons_2; [simpl; auto|]); apply Forall_nil_2.
Qed.

End WithInterpreterFacts.

Example kill_known_thread :
  kill_thread 3 11 64 demo_api demo_alive S 10 [(101, 7); (102, 8)] 8 true O
  = (Some true, [ApiCall 102 (Some SystemExit)], 3%nat).
Proof. reflexivity. Qed.

Example kill_unknown_thread :
  kill_thread 3 11 64 demo_api demo_alive S 10 [(101, 7); (102, 8)] 9 true O
  = (Some false, [], O).
Proof. reflexivity. Qed.

Example raise_when_two_states_modified :
  _lowlevel_async_raise 3 11 64 (fun _ _ w => (Some 2%N, S w)) [(101, 7)] 7
    (Some (OtherException "KeyboardInterrupt")) O
  = (false, [ApiCall 101 (Some (OtherException "KeyboardInterrupt")); ApiCall 101 None],
     2%nat).
Proof. reflexivity. Qed.


(** A pool whose [join] does not end in time: the waiter thread, active under
    the ident 102, is the one that gets the [SystemExit]. *)
Example join_pool_timed_out :
  threadpool_waited_join 3 11 64 demo_api demo_alive S
    (fun _ (_ : unit) w => (true, w)) (fun _ w => (Some 9, w)) (fun _ w => (false, w))
    (fun _ => [(101, 7); (102, 9)]) (APool 50) tt O
  = (Some false, [ApiCall 102 (Some SystemExit)], 1%nat).
Proof. reflexivity. Qed.

Example join_thread_timed_out :
  threadpool_waited_join 3 11 64 demo_api demo_alive S
    (fun _ (_ : unit) w => (true, w)) (fun _ w => (Some 9, w)) (fun _ w => (false, w))
    (fun _ => [(101, 7); (102, 9)]) (AThread 7) tt O
  = (Some false, [], O).
Proof. reflexivity. Qed.

Lemma async_raise_calls_name_the_thread_ident_witness :
  Forall (fun c => call_tid c = 102)
    (_lowlevel_async_raise 3 11 64 demo_api [(101, 7); (102, 8)] 8 None O).1.2.
Proof.
  destruct (async_raise_calls_name_the_thread_ident 3 11 64 demo_api
              [(101, 7); (102, 8)] 8 None O 102) as (_ & H & _).
  - simpl. auto.
  - simpl. intros tid' [H1|[H1|[]]]; congruence.
  - lia.
  - left. repeat split; try lia; reflexivity.
  - exact H.
Defined.

Lemma kill_thread_waits_for_the_thread_witness :
  exists w1, demo_alive 8 w1 = (false, 3%nat).
Proof.
  apply (proj1 (kill_thread_waits_for_the_thread 3 11 64 demo_api demo_alive S
                  [(101, 7); (102, 8)] 8 O)
           10%nat [ApiCall 102 (Some SystemExit)] 3%nat).
  reflexivity.
Defined.

End Threads.

(** ** clearml/backend_interface/task/hyperparams.py *)

Module HyperParams.

Local Open Scope string_scope.

(** A server API version, major and minor. *)
Definition version := (Z * Z)%type.

(** Modelled from the spec: [Session.check_min_api_version] is not part of
    the sources; the server supports a feature when its API version is not
    below the version asked for. *)
Definition check_min_api_version (server min_api : version) : bool :=
  ((min_api.1 <? server.1) || ((min_api.1 =? server.1) && (min_api.2 <=? server.2)))%Z.

(** Modelled from the spec: the fields of [tasks.ParamsItem] (the class is
    not part of the sources); an unset field is [None]. *)
Record ParamsItem := {
  section : option string;
  name : option string;
  value : option string;
  type : option string;
  description : option string
}.

Definition set_name (i : ParamsItem) (n : option string) : ParamsItem :=
  {| section := section i; name := n; value := value i; type := type i;
     description := description i |}.

Definition set_section (i : ParamsItem) (s : option string) : ParamsItem :=
  {| section := s; name := name i; value := value i; type := type i;
     description := description i |}.

Definition UNSAFE_NAMES_2_10 : list string :=
  [ "ne"; "gt"; "gte"; "lt"; "lte"; "in"; "nin"; "mod"; "all"; "size";
    "exists"; "not"; "elemMatch"; "type"; "within_distance";
    "within_spherical_distance"; "within_box"; "within_polygon"; "near";
    "near_sphere"; "max_distance"; "min_distance"; "geo_within";
    "geo_within_box"; "geo_within_polygon"; "geo_within_center";
    "geo_within_sphere"; "geo_intersects"; "contains"; "icontains";
    "startswith"; "istartswith"; "endswith"; "iendswith"; "exact"; "iexact";
    "match" ].

(** [value in UNSAFE_NAMES_2_10] *)
Definition is_unsafe (v : string) : bool := existsb (String.eqb v) UNSAFE_NAMES_2_10.

Inductive exn :=
| ValueError (msg : string)
| ValueError_unpack.   (* not enough values to unpack *)

Inductive result (A : Type) :=
| Raised (e : exn)
| Returned (a : A).
Arguments Raised {A} e.
Arguments Returned {A} a.

(** The requests of lines 43, 139 and 179. *)
Inductive request :=
| GetHyperParamsRequest (tasks : list string)
| EditHyperParamsRequest (task : string) (hyperparams : list ParamsItem)
    (replace_hyperparams : option string)
| DeleteHyperParamsRequest (task : string) (hyperparams : list (string * string)).

(** What a call does to the task, besides returning. *)
Inductive event :=
| LogInfo (unsafe_value : string)      (* self.task.log.info, line 197 *)
| Sent (r : request)                   (* self.task.session.send *)
| Reload                               (* self.task.reload() *)
| SaveOffline (props : list (option string * ParamsItem))
                                       (* lines 133-136 *)
| LogException.                        (* self.task.log.exception, line 59 *)

(** The truth value of an optional string: [None] and [""] are false. *)
Definition truthy (s : option string) : bool :=
  match s with
  | Some (String _ _) => true
  | _ => false
  end.

(** The string behind a true optional string. *)
Definition nonempty (s : option string) : option string :=
  if truthy s then s else None.

(** [a or b] *)
Definition py_or (a b : option string) : option string := if truthy a then a else b.

(** Lines 191-200, for one value: the value that is yielded and what is
    logged. *)
Definition _escape_unsafe_value (v : string) : string * list event :=
  if negb (is_unsafe v) then (v, []) else ("_" ++ v, [LogInfo v]).

(** The values that [make_item] accepts. *)
Inductive param_value :=
| VItem (i : ParamsItem)        (* a tasks.ParamsItem *)
| VDict (d : ParamsItem)        (* a dict of item fields, values through str *)
| VTupleDict (n : string) (d : ParamsItem)
                                (* a pair whose second item is a dict with a
                                   "value" key and without a "name" key *)
| VTuple (n v : string)         (* another tuple, str(value[0]), str(value[1]) *)
| VOther (v : string).          (* anything else, str(value) *)

(** Lines 97-108. *)
Definition item_of_value (v : param_value) : ParamsItem :=
  match v with
  | VItem i => i
  | VDict d => d
  | VTupleDict n d => set_name d (Some n)
  | VTuple n x =>
      {| section := None; name := Some n; value := Some x; type := None;
         description := None |}
  | VOther x =>
      {| section := None; name := None; value := Some x; type := None;
         description := None |}
  end.

(** Lines 96-122; the result comes with what was logged. *)
Definition make_item (escape_unsafe : bool) (default_section force_section : option string)
    (v : param_value) (name_arg : option string) : result ParamsItem * list event :=
  let a_item := item_of_value v in
  let a_item := if truthy name_arg then set_name a_item name_arg else a_item in
  match nonempty (name a_item) with
  | None => (Raised (ValueError "Missing hyper-param name"), [])
  | Some item_name =>
      match nonempty (py_or (py_or force_section (section a_item)) default_section) with
      | None => (Raised (ValueError "Missing hyper-param section"), [])
      | Some section =>
          if escape_unsafe then
            let '(section', log1) := _escape_unsafe_value section in
            let '(name', log2) := _escape_unsafe_value item_name in
            (Returned (set_name (set_section a_item (Some section')) (Some name')),
             (log1 ++ log2)%list)
          else (Returned (set_section a_item (Some section)), [])
      end
  end.

(** [d[k] = v] on a dictionary in insertion order: a key that is present
    keeps its place. *)
Fixpoint dict_set {V : Type} (k : option string) (v : V) (d : list (option string * V))
  : list (option string * V) :=
  match d with
  | [] => [(k, v)]
  | (k', v') :: rest =>
      if bool_decide (k' = k) then (k', v) :: rest else (k', v') :: dict_set k v rest
  end.

Fixpoint dict_get {V : Type} (k : option string) (d : list (option string * V)) : option V :=
  match d with
  | [] => None
  | (k', v') :: rest => if bool_decide (k' = k) then Some v' else dict_get k rest
  end.

(** The first argument of [edit_hyper_params]: a dictionary from names to
    values, or an iterable of values. *)
Inductive iterables :=
| IDict (entries : list (string * param_value))
| IList (values : list param_value).

(** Line 126: the dictionary comprehension, then [props.update]. *)
Fixpoint props_of_dict (escape_unsafe : bool) (default_section force_section : option string)
    (entries : list (string * param_value)) (props : list (option string * ParamsItem))
  : result (list (option string * ParamsItem)) * list event :=
  match entries with
  | [] => (Returned props, [])
  | (n, v) :: rest =>
      match make_item escape_unsafe default_section force_section v (Some n) with
      | (Raised e, log) => (Raised e, log)
      | (Returned item, log) =>
          let '(r, log') := props_of_dict escape_unsafe default_section force_section
                              rest (dict_set (Some n) item props) in
          (r, (log ++ log')%list)
      end
  end.

(** Lines 128-130. *)
Fixpoint props_of_list (escape_unsafe : bool) (default_section force_section : option string)
    (values : list param_value) (props : list (option string * ParamsItem))
  : result (list (option string * ParamsItem)) * list event :=
  match values with
  | [] => (Returned props, [])
  | v :: rest =>
      match make_item escape_unsafe default_section force_section v None with
      | (Raised e, log) => (Raised e, log)
      | (Returned item, log) =>
          let '(r, log') := props_of_list escape_unsafe default_section force_section
                              rest (dict_set (name item) item props) in
          (r, (log ++ log')%list)
      end
  end.

(** The values of [tasks.ReplaceHyperparamsEnum], as the docstring of
    [edit_hyper_params] lists them. *)
Definition ReplaceHyperparamsEnum_has_value (replace : option string) : bool :=
  match replace with
  | Some r => existsb (String.eqb r) ["none"; "section"; "all"]
  | None => false
  end.

(** The task the object was built for. *)
Record Task := { task_id : string; is_offline : bool }.

(** One entry of a [GetHyperParamsRequest] response. *)
Record params_entry := { entry_task : option string; entry_hyperparams : list ParamsItem }.

Record response := { ok : bool; params : list params_entry }.

(** The values that [delete_hyper_params] accepts. *)
Inductive key_value :=
| KDict (section name : option string)   (* value.get("section"), value.get("name") *)
| KObject (section name : option string) (* a tasks.ParamKey or tasks.ParamsItem *)
| KSequence (items : list string).       (* tuple(map(str, value)) *)

(** Lines 166-175; a sequence gives its first two items, or fewer. *)
Definition get_key (v : key_value) : result (list (option string)) :=
  let key :=
    match v with
    | KDict s n => [s; n]
    | KObject s n => [s; n]
    | KSequence items => map Some (firstn 2 items)
    end in
  if forallb truthy key then Returned key
  else Raised (ValueError "Missing section or name").

(** Line 177: the set comprehension; the keys are kept in the order of their
    first occurrence. *)
Fixpoint get_keys (values : list key_value) (keys : list (list (option string)))
  : result (list (list (option string))) :=
  match values with
  | [] => Returned keys
  | v :: rest =>
      match get_key v with
      | Raised e => Raised e
      | Returned key =>
          get_keys rest (if bool_decide (key ∈ keys) then keys else (keys ++ [key])%list)
      end
  end.

(** Line 182: [for section, name in keys]. *)
Fixpoint param_keys (keys : list (list (option string))) : result (list (string * string)) :=
  match keys with
  | [] => Returned []
  | [Some s; Some n] :: rest =>
      match param_keys rest with
      | Raised e => Raised e
      | Returned l => Returned ((s, n) :: l)
      end
  | _ :: _ => Raised ValueError_unpack
  end.

Section WithServer.

(** The session and the task's other methods. *)
Context {W : Type}.
Variable send : request -> W -> response * W.
Variable reload : W -> W.
Variable _save_data_to_offline_dir : list (option string * ParamsItem) -> W -> W.

(** The version of the server's API. *)
Variable api_version : version.

Definition not_supported {A : Type} (w : W) : result A * list event * W :=
  (Raised (ValueError "Not supported by server"), [], w).

(** Lines 62-150. *)
Definition edit_hyper_params (task : Task) (its : iterables)
    (replace default_section force_section : option string) (w : W)
  : result bool * list event * W :=
  if negb (check_min_api_version api_version (2, 9)%Z) then not_supported w
  else
    let escape_unsafe := negb (check_min_api_version api_version (2, 11)%Z) in
    let replace := if negb (ReplaceHyperparamsEnum_has_value replace) then None else replace in
    let made :=
      match its with
      | IDict entries => props_of_dict escape_unsafe default_section force_section entries []
      | IList values => props_of_list escape_unsafe default_section force_section values []
      end in
    match made with
    | (Raised e, log) => (Raised e, log, w)
    | (Returned props, log) =>
        if is_offline task then
          (Returned true, (log ++ [SaveOffline props])%list, _save_data_to_offline_dir props w)
        else
          let request := EditHyperParamsRequest (task_id task) (map snd props) replace in
          let '(res, w1) := send request w in
          if ok res then (Returned true, (log ++ [Sent request; Reload])%list, reload w1)
          else (Returned false, (log ++ [Sent request])%list, w1)
    end.

(** Lines 152-189; the arguments are flattened, as the comprehension of line
    177 reads them. *)
Definition delete_hyper_params (task : Task) (its : list (list key_value)) (w : W)
  : result bool * list event * W :=
  if negb (check_min_api_version api_version (2, 9)%Z) then not_supported w
  else
    match get_keys (concat its) [] with
    | Raised e => (Raised e, [], w)
    | Returned keys =>
        match param_keys keys with
        | Raised e => (Raised e, [], w)
        | Returned hyperparams =>
            let request := DeleteHyperParamsRequest (task_id task) hyperparams in
            let '(res, w1) := send request w in
            if ok res then (Returned true, [Sent request; Reload], reload w1)
            else (Returned false, [Sent request], w1)
        end
    end.

(** [tasks.ParamsItem().get(field)], line 55 with [return_obj]: the class is
    not part of the sources, so what [get] answers on the API object is left
    open; [None]: the call raises (the object has no such method). *)
Variable ParamsItem_get : string -> option (option string).

(** The object of line 54, [tasks.ParamsItem()]: no field is set. *)
Definition empty_item : ParamsItem :=
  {| section := None; name := None; value := None; type := None; description := None |}.

(** Lines 50-59: one item of the response is filed under its section and name
    unless a filter drops it.  [selector] and [projector] are callables that
    answer or raise ([None]); whatever is raised inside the block is logged at
    line 59 and the loop goes on.  Line 55 evaluates the right-hand side, then
    [hyperparams[section]], which makes the inner dictionary, then the name. *)
Definition file_item {V : Type} (return_obj : bool) (sections : option (list string))
    (selector : option (ParamsItem -> option bool))
    (projector : option (ParamsItem -> option V))
    (hyperparams : list (option string * list (option string * (ParamsItem + V))))
    (item : ParamsItem)
  : list (option string * list (option string * (ParamsItem + V))) * list event :=
  let dropped_by_section :=
    match sections with
    | Some ((_ :: _) as l) =>
        negb (match section item with Some s => existsb (String.eqb s) l | None => false end)
    | _ => false
    end in
  if dropped_by_section then (hyperparams, [])
  else
    match (match selector with Some f => f item | None => Some true end) with
    | None => (hyperparams, [LogException])
    | Some false => (hyperparams, [])
    | Some true =>
        let get (field : string) (of_dict : option string) :=
          if return_obj then ParamsItem_get field else Some of_dict in
        let section_of_dict := section item in
        let name_of_dict := name item in
        let item := if return_obj then empty_item else item in
        match (match projector with
               | Some p => inr <$> p item
               | None => Some (inl item)
               end) with
        | None => (hyperparams, [LogException])
        | Some v =>
            match get "section" section_of_dict with
            | None => (hyperparams, [LogException])
            | Some sec =>
                let inner := default [] (dict_get sec hyperparams) in
                match get "name" name_of_dict with
                | None => (dict_set sec inner hyperparams, [LogException])
                | Some nm => (dict_set sec (dict_set nm v inner) hyperparams, [])
                end
            end
        end
    end.

(** The loop of line 48 over the items of one entry. *)
Definition file_items {V : Type} (return_obj : bool) (sections : option (list string))
    (selector : option (ParamsItem -> option bool))
    (projector : option (ParamsItem -> option V))
    (items : list ParamsItem)
    (acc : list (option string * list (option string * (ParamsItem + V))) * list event)
  : list (option string * list (option string * (ParamsItem + V))) * list event :=
  fold_left (fun acc item =>
               let '(hyperparams, log) :=
                 file_item return_obj sections selector projector acc.1 item in
               (hyperparams, (acc.2 ++ log)%list))
            items acc.

(** Lines 23-60. *)
Definition get_hyper_params {V : Type} (task : Task) (sections : option (list string))
    (selector : option (ParamsItem -> option bool))
    (projector : option (ParamsItem -> option V)) (return_obj : bool) (w : W)
  : result (list (option string * list (option string * (ParamsItem + V)))) * list event * W :=
  if negb (check_min_api_version api_version (2, 9)%Z) then not_supported w
  else
    let request := GetHyperParamsRequest [task_id task] in
    let '(res, w1) := send request w in
    let entries :=
      if ok res then
        filter (fun e => entry_task e = Some (task_id task)) (params res)
      else [] in
    let '(hyperparams, log) :=
      fold_left (fun acc e =>
                   file_items return_obj sections selector projector (entry_hyperparams e) acc)
                entries ([], []) in
    (Returned hyperparams, Sent request :: log, w1).

End WithServer.

(** The hyper-parameters that a call handed to the server or to the offline
    store. *)
Definition edited_items (events : list event) : list ParamsItem :=
  concat (map (fun ev =>
                 match ev with
                 | Sent (EditHyperParamsRequest _ items _) => items
                 | SaveOffline props => map snd props
                 | _ => []
                 end) events).

(** The pairs of a value and a [name] argument that [make_item] is called on. *)
Definition make_item_calls (its : iterables) : list (param_value * option string) :=
  match its with
  | IDict entries => map (fun e => (e.2, Some e.1)) entries
  | IList values => map (fun v => (v, None)) values
  end.

(** The rewriting of the specification: a reserved name gets the prefix. *)
Definition escaped (v : string) : string := if is_unsafe v then "_" ++ v else v.

Definition escaped_item (i : ParamsItem) : ParamsItem :=
  set_name (set_section i (escaped <$> section i)) (escaped <$> name i).

Definition is_log (ev : event) : bool :=
  match ev with LogInfo _ => true | _ => false end.

Definition below (v min_api : version) : Prop :=
  (v.1 < min_api.1 \/ (v.1 = min_api.1 /\ v.2 < min_api.2))%Z.

(** A call that sent [request] after logging [log] ends as the response says:
    [True] with a reload when the response is ok, [False] without one
    otherwise. *)
Definition reports_response {W : Type} (send : request -> W -> response * W)
    (reload : W -> W) (w : W) (request : request) (log : list event)
    (out : result bool * list event * W) : Prop :=
  let answer := send request w in
  out.1.1 = Returned (ok answer.1)
  /\ out.1.2 = (log ++ Sent request :: (if ok answer.1 then [Reload] else []))%list
  /\ out.2 = (if ok answer.1 then reload answer.2 else answer.2).

(** A call that raised after logging only: nothing was sent and the task is
    as it was. *)
Definition raised_before_sending {W : Type} (w : W)
    (out : result bool * list event * W) : Prop :=
  (exists e, out.1.1 = Raised e) /\ forallb is_log out.1.2 = true /\ out.2 = w.

(** A value given to [edit_hyper_params] has a name (the [name] argument or
    its own) and a section (the forced one, its own or the default). *)
Definition has_name_and_section (default_section force_section : option string)
    (call : param_value * option string) : bool :=
  truthy (py_or call.2 (name (item_of_value call.1)))
  && truthy (py_or (py_or force_section (section (item_of_value call.1))) default_section).

(** A value given to [delete_hyper_params] has a section and a name, neither
    of them empty. *)
Definition has_key (v : key_value) : bool :=
  match v with
  | KDict s n | KObject s n => truthy s && truthy n
  | KSequence (s :: n :: _) => truthy (Some s) && truthy (Some n)
  | KSequence _ => false
  end.

(** How an item is handed over: rewritten below API version 2.11, as it is
    from 2.11 on. *)
Definition handed (api : version) (raw item : ParamsItem) : Prop :=
  (below api (2, 11)%Z -> item = escaped_item raw)
  /\ (~ below api (2, 11)%Z -> item = raw).

(** A server whose state counts the requests it has seen and whose response
    is ok for every second one; reloading adds a hundred. *)
Definition demo_send (r : request) (w : nat) : response * nat :=
  ({| ok := Nat.even w; params := [] |}, S w).

Definition demo_task : Task := {| task_id := "t1"; is_offline := false |}.

Definition demo_values : iterables :=
  IList [ VDict {| section := Some "in"; name := Some "type"; value := Some "5";
                   type := None; description := None |};
          VTuple "lr" "0.1" ].

Definition demo_edit (api : version) (w : nat) :=
  edit_hyper_params demo_send (fun w => (100 + w)%nat) (fun _ w => w) api
    demo_task demo_values (Some "everything") (Some "Args") None w.

(** [value in UNSAFE_NAMES_2_10] for a field that may be unset. *)
Definition reserved (field : option string) : bool :=
  match field with
  | Some v => is_unsafe v
  | None => false
  end.

(** The props that [edit_hyper_params] builds from its first argument. *)
Definition made_props (escape_unsafe : bool) (default_section force_section : option string)
    (its : iterables) : result (list (option string * ParamsItem)) * list event :=
  match its with
  | IDict entries => props_of_dict escape_unsafe default_section force_section entries []
  | IList values => props_of_list escape_unsafe default_section force_section values []
  end.

(** A server that answers a [GetHyperParamsRequest] with two entries, one of
    them for another task. *)
Definition demo_item (s n v : string) : ParamsItem :=
  {| section := Some s; name := Some n; value := Some v; type := None; description := None |}.

Definition demo_get_send (r : request) (w : nat) : response * nat :=
  ({| ok := true;
      params := [ {| entry_task := Some "t1";
                     entry_hyperparams := [ demo_item "Args" "lr" "0.1";
                                            demo_item "Model" "depth" "6";
                                            demo_item "Args" "lr" "0.2" ] |};
                  {| entry_task := Some "t2";
                     entry_hyperparams := [ demo_item "Args" "seed" "1" ] |} ] |},
   S w).

Lemma check_min_api_version_below server min_api :
  check_min_api_version server min_api = false <-> below server min_api.
Proof.
  unfold check_min_api_version, below.
  destruct (Z.ltb_spec min_api.1 server.1), (Z.eqb_spec min_api.1 server.1),
    (Z.leb_spec min_api.2 server.2); simpl; split; intros; try discriminate; lia.
Qed.

Lemma escape_value_escaped v : (_escape_unsafe_value v).1 = escaped v.
Proof. unfold _escape_unsafe_value, escaped. now destruct (is_unsafe v). Qed.

Lemma escape_value_logs v : forallb is_log (_escape_unsafe_value v).2 = true.
Proof. unfold _escape_unsafe_value. now destruct (is_unsafe v). Qed.

(** No reserved name starts with the prefix, so escaping twice is escaping
    once. *)
Lemma escaped_idempotent v : escaped (escaped v) = escaped v.
Proof.
  unfold escaped. destruct (is_unsafe v) eqn:E; [|now rewrite E].
  replace (is_unsafe ("_" ++ v)) with false; [reflexivity|].
  unfold is_unsafe. simpl. reflexivity.
Qed.

Lemma make_item_logs esc ds fs v n :
  forallb is_log (make_item esc ds fs v n).2 = true.
Proof.
  unfold make_item.
  destruct (nonempty (name _)) as [nm|]; [|reflexivity].
  destruct (nonempty (py_or _ _)) as [sec|]; [|reflexivity].
  destruct esc; [|reflexivity].
  pose proof (escape_value_logs sec) as H1. pose proof (escape_value_logs nm) as H2.
  destruct (_escape_unsafe_value sec), (_escape_unsafe_value nm). simpl in *.
  rewrite forallb_app, H1, H2. reflexivity.
Qed.

(** With escaping, [make_item] builds the item it builds without, rewritten. *)
Lemma make_item_escaped ds fs v n :
  (make_item true ds fs v n).1
  = match (make_item false ds fs v n).1 with
    | Raised e => Raised e
    | Returned raw => Returned (escaped_item raw)
    end.
Proof.
  unfold make_item.
  destruct (nonempty (name _)) as [nm|] eqn:En; [|reflexivity].
  destruct (nonempty (py_or _ _)) as [sec|]; [|reflexivity].
  pose proof (escape_value_escaped sec) as H1. pose proof (escape_value_escaped nm) as H2.
  destruct (_escape_unsafe_value sec), (_escape_unsafe_value nm). simpl in *. subst.
  set (a_item := if truthy n then _ else _) in *.
  assert (name a_item = Some nm) as Hn.
  { unfold nonempty in En. now destruct (truthy (name a_item)). }
  unfold escaped_item, set_name, set_section. simpl. now rewrite Hn.
Qed.

Lemma dict_set_In {V : Type} k (v : V) d k0 v0 :
  In (k0, v0) (dict_set k v d) -> (k0, v0) = (k, v) \/ In (k0, v0) d.
Proof.
  induction d as [|[k' v'] d IH]; simpl.
  - intros [H|[]]. now left.
  - destruct (bool_decide_reflect (k' = k)) as [->|Hne]; simpl.
    + intros [H|H]; auto.
    + intros [H|H]; auto. destruct (IH H); auto.
Qed.

Lemma props_of_dict_logs esc ds fs entries : forall props,
  forallb is_log (props_of_dict esc ds fs entries props).2 = true.
Proof.
  induction entries as [|[n v] entries IH]; intros props; simpl; [reflexivity|].
  pose proof (make_item_logs esc ds fs v (Some n)) as Hl.
  destruct (make_item esc ds fs v (Some n)) as [[e|item] log]; simpl in *; [exact Hl|].
  specialize (IH (dict_set (Some n) item props)).
  destruct (props_of_dict _ _ _ _ _) as [r log']. simpl in *.
  now rewrite forallb_app, Hl, IH.
Qed.

Lemma props_of_list_logs esc ds fs values : forall props,
  forallb is_log (props_of_list esc ds fs values props).2 = true.
Proof.
  induction values as [|v values IH]; intros props; simpl; [reflexivity|].
  pose proof (make_item_logs esc ds fs v None) as Hl.
  destruct (make_item esc ds fs v None) as [[e|item] log]; simpl in *; [exact Hl|].
  specialize (IH (dict_set (name item) item props)).
  destruct (props_of_list _ _ _ _ _) as [r log']. simpl in *.
  now rewrite forallb_app, Hl, IH.
Qed.

Lemma props_of_dict_items esc ds fs entries : forall props made,
  (props_of_dict esc ds fs entries props).1 = Returned made ->
  forall k item, In (k, item) made ->
    In (k, item) props
    \/ exists n v, In (n, v) entries /\ (make_item esc ds fs v (Some n)).1 = Returned item.
Proof.
  induction entries as [|[n v] entries IH]; intros props made; simpl.
  - intros [= <-]. auto.
  - destruct (make_item esc ds fs v (Some n)) as [[e|it] log] eqn:E; simpl; [discriminate|].
    specialize (IH (dict_set (Some n) it props) made).
    destruct (props_of_dict _ _ _ _ _) as [r log']. simpl in *.
    intros Hr k item Hin. destruct (IH Hr k item Hin) as [H|(n' & v' & H1 & H2)].
    + apply dict_set_In in H as [[= -> ->]|H]; [|auto].
      right. exists n, v. rewrite E. auto.
    + right. exists n', v'. auto.
Qed.

Lemma props_of_list_items esc ds fs values : forall props made,
  (props_of_list esc ds fs values props).1 = Returned made ->
  forall k item, In (k, item) made ->
    In (k, item) props
    \/ exists v, In v values /\ (make_item esc ds fs v None).1 = Returned item.
Proof.
  induction values as [|v values IH]; intros props made; simpl.
  - intros [= <-]. auto.
  - destruct (make_item esc ds fs v None) as [[e|it] log] eqn:E; simpl; [discriminate|].
    specialize (IH (dict_set (name it) it props) made).
    destruct (props_of_list _ _ _ _ _) as [r log']. simpl in *.
    intros Hr k item Hin. destruct (IH Hr k item Hin) as [H|(v' & H1 & H2)].
    + apply dict_set_In in H as [[= -> ->]|H]; [|auto].
      right. exists v. rewrite E. auto.
    + right. exists v'. auto.
Qed.

Lemma edited_items_logs log : forallb is_log log = true -> edited_items log = [].
Proof.
  unfold edited_items. induction log as [|[] log IH]; simpl; try discriminate; auto.
Qed.

Lemma edited_items_app l1 l2 : edited_items (l1 ++ l2) = (edited_items l1 ++ edited_items l2)%list.
Proof. unfold edited_items. now rewrite map_app, concat_app. Qed.

Lemma escaped_safe v : is_unsafe (escaped v) = false.
Proof.
  unfold escaped. destruct (is_unsafe v) eqn:E; [|exact E].
  unfold is_unsafe. simpl. reflexivity.
Qed.

Lemma nonempty_truthy s v : nonempty s = Some v -> s = Some v /\ truthy (Some v) = true.
Proof. unfold nonempty. destruct (truthy s) eqn:E; [|discriminate]. intros ->. auto. Qed.

Lemma escaped_truthy v : truthy (Some v) = true -> truthy (Some (escaped v)) = true.
Proof. unfold escaped. destruct (is_unsafe v); [reflexivity | auto]. Qed.

(** What [make_item] returns has a section and a name, and with escaping
    neither of them is reserved. *)
Lemma make_item_named esc ds fs v n item :
  (make_item esc ds fs v n).1 = Returned item ->
  truthy (section item) = true /\ truthy (name item) = true
  /\ (esc = true -> reserved (section item) = false /\ reserved (name item) = false).
Proof.
  unfold make_item.
  destruct (nonempty (name _)) as [nm|] eqn:En; [|discriminate].
  destruct (nonempty (py_or _ _)) as [sec|] eqn:Es; [|discriminate].
  apply nonempty_truthy in En as [En Hn]. apply nonempty_truthy in Es as [_ Hs].
  pose proof (escaped_truthy _ Hs) as Hs'. pose proof (escaped_truthy _ Hn) as Hn'.
  destruct esc.
  - pose proof (escape_value_escaped sec) as H1. pose proof (escape_value_escaped nm) as H2.
    destruct (_escape_unsafe_value sec), (_escape_unsafe_value nm). simpl in *. subst.
    intros [= <-]. simpl. rewrite !escaped_safe. auto.
  - simpl. intros [= <-]. simpl. rewrite En. split; [exact Hs|]. split; [exact Hn|].
    discriminate.
Qed.

Lemma dict_set_keys {V : Type} k (v : V) d :
  NoDup (map fst d) -> NoDup (map fst (dict_set k v d)).
Proof.
  induction d as [|[k' v'] d IH]; simpl.
  - intros _. apply NoDup_singleton.
  - rewrite NoDup_cons. intros [Hnin Hnd].
    destruct (bool_decide_reflect (k' = k)) as [->|Hne]; simpl.
    + now apply NoDup_cons.
    + apply NoDup_cons. split; [|now apply IH].
      intros Hin. apply Hnin. apply list_elem_of_In. apply list_elem_of_In in Hin.
      apply in_map_iff in Hin as ([k0 v0] & E & Hin). simpl in E. subst k0.
      apply dict_set_In in Hin as [[= ? ?]|Hin]; [congruence|].
      apply in_map_iff. now exists (k', v0).
Qed.

Lemma props_of_list_keyed esc ds fs values : forall props made,
  (props_of_list esc ds fs values props).1 = Returned made ->
  NoDup (map fst props) -> (forall k item, In (k, item) props -> k = name item) ->
  NoDup (map fst made) /\ (forall k item, In (k, item) made -> k = name item).
Proof.
  induction values as [|v values IH]; intros props made; simpl.
  - intros [= <-]. auto.
  - destruct (make_item esc ds fs v None) as [[e|it] log] eqn:E; simpl; [discriminate|].
    specialize (IH (dict_set (name it) it props) made).
    destruct (props_of_list _ _ _ _ _) as [r log']. simpl in *.
    intros Hr Hnd Hkey. apply IH; [exact Hr | now apply dict_set_keys |].
    intros k item Hin. apply dict_set_In in Hin as [[= -> ->]|Hin]; auto.
Qed.

Lemma get_key_truthy v s n :
  get_key v = Returned [Some s; Some n] -> s <> "" /\ n <> "".
Proof.
  unfold get_key. destruct (forallb truthy _) eqn:E; [|discriminate].
  intros [= H]. rewrite H in E. simpl in E.
  destruct s, n; simpl in E; try discriminate; split; discriminate.
Qed.

Lemma get_keys_keys values : forall acc keys,
  get_keys values acc = Returned keys ->
  NoDup acc ->
  NoDup keys
  /\ forall key, In key keys <->
       In key acc \/ exists v, In v values /\ get_key v = Returned key.
Proof.
  induction values as [|v values IH]; simpl; intros acc keys.
  - intros [= <-] Hnd. split; [exact Hnd|]. intros key. split; [auto|].
    intros [H|(v & [] & _)]. exact H.
  - destruct (get_key v) as [e|k] eqn:Ek; [discriminate|].
    intros Hk Hnd. apply IH in Hk as [Hnd' Hiff].
    + split; [exact Hnd'|]. intros key. rewrite Hiff. split.
      * intros [Hin|(v' & Hv' & Hg)]; [|right; exists v'; auto].
        destruct (bool_decide_reflect (k ∈ acc)) as [Hel|Hel]; [now left|].
        apply in_app_or in Hin as [Hin|[<-|[]]]; [now left|].
        right. exists v. auto.
      * intros [Hin|(v' & [<-|Hv'] & Hg)].
        -- left. destruct (bool_decide (k ∈ acc)); [exact Hin|].
           apply in_or_app. now left.
        -- left. rewrite Ek in Hg. injection Hg as <-.
           destruct (bool_decide_reflect (k ∈ acc)) as [Hel|Hel].
           ++ now apply list_elem_of_In.
           ++ apply in_or_app. right. now left.
        -- right. exists v'. auto.
    + destruct (bool_decide_reflect (k ∈ acc)) as [Hel|Hel]; [exact Hnd|].
      apply NoDup_app. split; [exact Hnd|]. split; [|apply NoDup_singleton].
      intros x Hx ->%list_elem_of_singleton. contradiction.
Qed.

Lemma param_keys_keys keys : forall hp,
  param_keys keys = Returned hp ->
  keys = map (fun sn : string * string => [Some sn.1; Some sn.2]) hp.
Proof.
  induction keys as [|key keys IH]; simpl; intros hp.
  - intros [= <-]. reflexivity.
  - destruct key as [|[s|] [|[n|] [|x key]]]; try discriminate.
    destruct (param_keys keys) as [e|l]; [discriminate|].
    intros [= <-]. simpl. now rewrite (IH l eq_refl).
Qed.

Lemma dict_get_In {V : Type} k (v : V) d : dict_get k d = Some v -> In (k, v) d.
Proof.
  induction d as [|[k' v'] d IH]; simpl; [discriminate|].
  destruct (bool_decide_reflect (k' = k)) as [->|Hne]; [intros [= ->]|]; auto.
Qed.

Lemma nonempty_Some s : truthy s = true -> exists v, nonempty s = Some v.
Proof. unfold nonempty. intros H. rewrite H. destruct s as [v|]; [eauto | discriminate H]. Qed.

Lemma nonempty_None s : truthy s = false -> nonempty s = None.
Proof. unfold nonempty. now intros ->. Qed.

(** [make_item] returns an item for a value that has a name and a section,
    and raises [ValueError] for any other. *)
Lemma make_item_outcome esc ds fs v n :
  if has_name_and_section ds fs (v, n)
  then exists item, (make_item esc ds fs v n).1 = Returned item
  else exists msg, (make_item esc ds fs v n).1 = Raised (ValueError msg).
Proof.
  unfold has_name_and_section, make_item. cbn [fst snd]. cbv zeta.
  set (a := item_of_value v).
  assert (name (if truthy n then set_name a n else a) = py_or n (name a)) as ->.
  { unfold py_or. now destruct (truthy n). }
  assert (section (if truthy n then set_name a n else a) = section a) as ->.
  { now destruct (truthy n). }
  destruct (truthy (py_or n (name a))) eqn:En; cbn [andb].
  - destruct (nonempty_Some _ En) as [nm ->].
    destruct (truthy (py_or (py_or fs (section a)) ds)) eqn:Es.
    + destruct (nonempty_Some _ Es) as [sec ->].
      destruct esc; [|eauto].
      destruct (_escape_unsafe_value sec), (_escape_unsafe_value nm). eauto.
    + rewrite (nonempty_None _ Es). eauto.
  - rewrite (nonempty_None _ En). eauto.
Qed.

Lemma props_of_dict_outcome esc ds fs entries : forall props,
  if forallb (has_name_and_section ds fs) (map (fun e => (e.2, Some e.1)) entries)
  then exists made, (props_of_dict esc ds fs entries props).1 = Returned made
  else exists msg, (props_of_dict esc ds fs entries props).1 = Raised (ValueError msg).
Proof.
  induction entries as [|[n v] entries IH]; intros props; cbn [map forallb props_of_dict];
    [eauto|].
  cbn [fst snd]. pose proof (make_item_outcome esc ds fs v (Some n)) as Hm.
  destruct (has_name_and_section ds fs (v, Some n)); cbn [andb].
  - destruct Hm as [item Hm].
    destruct (make_item esc ds fs v (Some n)) as [r log]. cbn [fst] in Hm. subst r.
    specialize (IH (dict_set (Some n) item props)).
    destruct (props_of_dict esc ds fs entries _) as [r log']. exact IH.
  - destruct Hm as [msg Hm].
    destruct (make_item esc ds fs v (Some n)) as [r log]. cbn [fst] in Hm. subst r.
    eauto.
Qed.

Lemma props_of_list_outcome esc ds fs values : forall props,
  if forallb (has_name_and_section ds fs) (map (fun v => (v, None)) values)
  then exists made, (props_of_list esc ds fs values props).1 = Returned made
  else exists msg, (props_of_list esc ds fs values props).1 = Raised (ValueError msg).
Proof.
  induction values as [|v values IH]; intros props; cbn [map forallb props_of_list];
    [eauto|].
  pose proof (make_item_outcome esc ds fs v None) as Hm.
  destruct (has_name_and_section ds fs (v, None)); cbn [andb].
  - destruct Hm as [item Hm].
    destruct (make_item esc ds fs v None) as [r log]. cbn [fst] in Hm. subst r.
    specialize (IH (dict_set (name item) item props)).
    destruct (props_of_list esc ds fs values _) as [r log']. exact IH.
  - destruct Hm as [msg Hm].
    destruct (make_item esc ds fs v None) as [r log]. cbn [fst] in Hm. subst r.
    eauto.
Qed.

Lemma made_props_outcome esc ds fs its :
  if forallb (has_name_and_section ds fs) (make_item_calls its)
  then exists made, (made_props esc ds fs its).1 = Returned made
  else exists msg, (made_props esc ds fs its).1 = Raised (ValueError msg).
Proof.
  destruct its; [apply props_of_dict_outcome | apply props_of_list_outcome].
Qed.

Lemma made_props_logs esc ds fs its : forallb is_log (made_props esc ds fs its).2 = true.
Proof. destruct its; [apply props_of_dict_logs | apply props_of_list_logs]. Qed.

(** [get_key] gives a section and a name for a value that has them; for any
    other it raises or gives fewer than two parts. *)
Lemma get_key_outcome v :
  if has_key v
  then exists s n, get_key v = Returned [Some s; Some n]
  else (exists msg, get_key v = Raised (ValueError msg))
       \/ (exists key, get_key v = Returned key /\ (length key < 2)%nat).
Proof.
  unfold get_key, has_key. destruct v as [s n|s n|items].
  - destruct s as [[|c s]|], n as [[|c' n]|]; cbn; eauto.
  - destruct s as [[|c s]|], n as [[|c' n]|]; cbn; eauto.
  - destruct items as [|s [|n items]].
    + right. exists []. split; [reflexivity | cbn; lia].
    + destruct s as [|c s]; cbn; [eauto|].
      right. eexists. split; [reflexivity | cbn; lia].
    + destruct s as [|c s], n as [|c' n]; cbn; eauto.
Qed.

Lemma get_keys_pairs values : forall acc,
  forallb has_key values = true ->
  Forall (fun key => exists s n, key = [Some s; Some n]) acc ->
  exists keys, get_keys values acc = Returned keys
    /\ Forall (fun key => exists s n, key = [Some s; Some n]) keys.
Proof.
  induction values as [|v values IH]; intros acc; cbn [forallb get_keys]; [eauto|].
  intros [Hv Hrest]%andb_prop Hacc.
  pose proof (get_key_outcome v) as Hk. rewrite Hv in Hk. destruct Hk as (s & n & ->).
  apply IH; [exact Hrest|]. destruct (bool_decide _); [exact Hacc|].
  apply Forall_app. split; [exact Hacc|]. apply Forall_cons_2; [eauto | apply Forall_nil_2].
Qed.

Lemma param_keys_pairs keys :
  Forall (fun key => exists s n, key = [Some s; Some n]) keys ->
  exists hp, param_keys keys = Returned hp.
Proof.
  induction keys as [|key keys IH]; [cbn; eauto|].
  intros [(s & n & ->) Hrest]%Forall_cons. destruct (IH Hrest) as [hp E].
  cbn. rewrite E. eauto.
Qed.

(** The keys of a [delete_hyper_params] call are sent when every value has a
    section and a name, and otherwise building them raises. *)
Lemma delete_keys_outcome values :
  if forallb has_key values
  then exists keys hp, get_keys values [] = Returned keys /\ param_keys keys = Returned hp
  else (exists e, get_keys values [] = Raised e)
       \/ (exists keys e, get_keys values [] = Returned keys /\ param_keys keys = Raised e).
Proof.
  destruct (forallb has_key values) eqn:E.
  - destruct (get_keys_pairs values [] E) as (keys & Hk & Hp); [apply Forall_nil_2|].
    destruct (param_keys_pairs keys Hp) as [hp Hhp]. eauto.
  - destruct (get_keys values []) as [e|keys] eqn:Ek; [eauto|]. right.
    destruct (param_keys keys) as [e|hp] eqn:Ep; [eauto|]. exfalso.
    assert (exists v, In v values /\ has_key v = false) as (v & Hin & Hv).
    { clear Ek Ep. induction values as [|v values IH]; [discriminate|].
      cbn in E. destruct (has_key v) eqn:Hv.
      - destruct (IH E) as (v' & H1 & H2). exists v'. split; [now right | exact H2].
      - exists v. split; [now left | exact Hv]. }
    pose proof (get_key_outcome v) as Hk. rewrite Hv in Hk.
    destruct Hk as [(msg & Hk)|(key & Hk & Hlen)].
    + clear Ep E. revert Ek. generalize (@nil (list (option string))).
      induction values as [|v' values IH]; [destruct Hin|]. intros acc. cbn.
      destruct Hin as [->|Hin].
      * rewrite Hk. discriminate.
      * destruct (get_key v'); [discriminate|]. apply IH; exact Hin.
    + apply get_keys_keys in Ek as [_ Hiff]; [|constructor].
      apply param_keys_keys in Ep. subst keys.
      assert (In key (map (fun sn : string * string => [Some sn.1; Some sn.2]) hp)) as Hkey.
      { apply Hiff. right. eauto. }
      apply in_map_iff in Hkey as (sn & <- & _). cbn in Hlen. lia.
Qed.

Lemma dict_set_has {V : Type} k (v : V) d : In (k, v) (dict_set k v d).
Proof.
  induction d as [|[k' v'] d IH]; cbn; [now left|].
  destruct (bool_decide_reflect (k' = k)) as [->|Hne]; [now left | now right].
Qed.

Lemma dict_set_other {V : Type} k (v : V) d k' v' :
  k' <> k -> In (k', v') d -> In (k', v') (dict_set k v d).
Proof.
  intros Hne. induction d as [|[k0 v0] d IH]; cbn; [intros []|].
  destruct (bool_decide_reflect (k0 = k)) as [->|Hk]; cbn.
  - intros [[= <- <-]|Hin]; [congruence | now right].
  - intros [E|Hin]; [now left | right; auto].
Qed.

Lemma dict_set_key {V : Type} k (v : V) d k' :
  In k' (map fst d) -> In k' (map fst (dict_set k v d)).
Proof.
  induction d as [|[k0 v0] d IH]; cbn; [intros []|].
  destruct (bool_decide_reflect (k0 = k)) as [->|Hk]; cbn; [auto|].
  intros [E|Hin]; [now left | right; auto].
Qed.

Lemma dict_set_fresh {V : Type} k (v : V) d :
  ~ In k (map fst d) -> dict_set k v d = (d ++ [(k, v)])%list.
Proof.
  induction d as [|[k0 v0] d IH]; cbn; [reflexivity|]. intros Hn.
  destruct (bool_decide_reflect (k0 = k)) as [->|Hk]; [exfalso; auto|].
  rewrite IH; [reflexivity | auto].
Qed.

(** Given distinct keys, the props are the built items in the order given. *)
Lemma props_of_dict_fresh esc ds fs entries : forall props made,
  (props_of_dict esc ds fs entries props).1 = Returned made ->
  List.NoDup (map fst entries) ->
  (forall n, In n (map fst entries) -> ~ In (Some n) (map fst props)) ->
  exists items,
    map fst made = (map fst props ++ map (fun e => Some e.1) entries)%list
    /\ map snd made = (map snd props ++ items)%list
    /\ Forall2 (fun e item => (make_item esc ds fs e.2 (Some e.1)).1 = Returned item)
         entries items.
Proof.
  induction entries as [|[n v] entries IH]; intros props made; cbn [props_of_dict].
  - intros [= <-] _ _. exists []. cbn. rewrite !app_nil_r. auto using Forall2_nil_2.
  - destruct (make_item esc ds fs v (Some n)) as [[e|it] log] eqn:E; cbn [fst];
      [discriminate|].
    specialize (IH (dict_set (Some n) it props) made).
    destruct (props_of_dict esc ds fs entries _) as [r log']. cbn [fst] in *.
    intros Hr Hnd Hfresh. cbn [map fst] in Hnd, Hfresh.
    apply List.NoDup_cons_iff in Hnd as [Hn Hnd].
    rewrite dict_set_fresh in IH by (apply Hfresh; now left).
    destruct (IH Hr Hnd) as (items & Hk & Hs & Hf).
    { intros n' Hin. rewrite map_app, in_app_iff. cbn.
      intros [H|[[= ->]|[]]]; [|contradiction].
      revert H. apply Hfresh. now right. }
    exists (it :: items). rewrite map_app, <- app_assoc in Hk, Hs.
    split; [exact Hk|]. split; [exact Hs|].
    apply Forall2_cons_2; [cbn; now rewrite E | exact Hf].
Qed.

Lemma props_of_list_keeps esc ds fs values : forall props made,
  (props_of_list esc ds fs values props).1 = Returned made ->
  (forall k, In k (map fst props) -> In k (map fst made))
  /\ (forall k item, In (k, item) props ->
        (forall v' item', In v' values ->
           (make_item esc ds fs v' None).1 = Returned item' -> name item' <> k) ->
        In (k, item) made).
Proof.
  induction values as [|v values IH]; intros props made; cbn [props_of_list].
  - intros [= <-]. auto.
  - destruct (make_item esc ds fs v None) as [[e|it] log] eqn:E; cbn [fst];
      [discriminate|].
    specialize (IH (dict_set (name it) it props) made).
    destruct (props_of_list esc ds fs values _) as [r log']. cbn [fst] in *.
    intros Hr. destruct (IH Hr) as [Hkeys Hitems]. split.
    + intros k Hk. apply Hkeys. now apply dict_set_key.
    + intros k item Hin Hother. apply Hitems.
      * apply dict_set_other; [|exact Hin].
        intros ->. apply (Hother v it); [now left | now rewrite E | reflexivity].
      * intros v' item' Hv'. apply Hother. now right.
Qed.

(** Every value of an iterable is filed under its name, and what is filed
    there is its item unless a later value has the same name. *)
Lemma props_of_list_has esc ds fs before v after : forall props made,
  (props_of_list esc ds fs (before ++ v :: after) props).1 = Returned made ->
  exists item, (make_item esc ds fs v None).1 = Returned item
    /\ In (name item) (map fst made)
    /\ ((forall v' item', In v' after ->
           (make_item esc ds fs v' None).1 = Returned item' -> name item' <> name item) ->
        In (name item, item) made).
Proof.
  induction before as [|x before IH]; intros props made; cbn [app props_of_list].
  - destruct (make_item esc ds fs v None) as [[e|it] log] eqn:E; cbn [fst];
      [discriminate|].
    pose proof (props_of_list_keeps esc ds fs after (dict_set (name it) it props) made) as Hk.
    destruct (props_of_list esc ds fs after _) as [r log']. cbn [fst] in *.
    intros Hr. destruct (Hk Hr) as [Hkeys Hitems]. exists it. split; [reflexivity|]. split.
    + apply Hkeys. apply in_map_iff. exists (name it, it). split; [reflexivity|].
      apply dict_set_has.
    + intros Hother. apply Hitems; [apply dict_set_has | exact Hother].
  - destruct (make_item esc ds fs x None) as [[e|it] log] eqn:E; cbn [fst];
      [discriminate|].
    specialize (IH (dict_set (name it) it props) made).
    destruct (props_of_list esc ds fs (before ++ v :: after) _) as [r log']. exact IH.
Qed.

Lemma handed_functional api raw a b : handed api raw a -> handed api raw b -> a = b.
Proof.
  intros [Ha1 Ha2] [Hb1 Hb2].
  destruct (check_min_api_version api (2, 11)%Z) eqn:E.
  - assert (~ below api (2, 11)%Z) as Hn
      by (rewrite <- check_min_api_version_below; congruence).
    now rewrite (Ha2 Hn), (Hb2 Hn).
  - apply check_min_api_version_below in E. now rewrite (Ha1 E), (Hb1 E).
Qed.

(** Below API version 2.11 [make_item] builds the item it builds from 2.11
    on, rewritten. *)
Lemma make_item_handed api ds fs v n item :
  (make_item (negb (check_min_api_version api (2, 11)%Z)) ds fs v n).1 = Returned item ->
  exists raw, (make_item false ds fs v n).1 = Returned raw /\ handed api raw item.
Proof.
  destruct (check_min_api_version api (2, 11)%Z) eqn:E; cbn [negb]; intros Hm.
  - exists item. split; [exact Hm|]. split; [|reflexivity].
    intros Hb. apply check_min_api_version_below in Hb. congruence.
  - rewrite make_item_escaped in Hm.
    destruct (make_item false ds fs v n).1 as [e|raw]; [discriminate|].
    injection Hm as <-. exists raw. split; [reflexivity|]. split; [reflexivity|].
    intros Hn. apply check_min_api_version_below in E. contradiction.
Qed.

Section WithServerProofs.

Context {W : Type}.
Variable send : request -> W -> response * W.
Variable reload : W -> W.
Variable _save_data_to_offline_dir : list (option string * ParamsItem) -> W -> W.
Variable api_version : version.

Local Abbreviation reports_response := (HyperParams.reports_response send reload).

(** The props that [edit_hyper_params] built are all it hands over. *)
Lemma edit_hyper_params_items task its replace ds fs w item :
  In item (edited_items
             (edit_hyper_params send reload _save_data_to_offline_dir api_version
                task its replace ds fs w).1.2) ->
  exists v n, In (v, n) (make_item_calls its)
    /\ (make_item (negb (check_min_api_version api_version (2, 11)%Z)) ds fs v n).1
       = Returned item.
Proof.
  unfold edit_hyper_params.
  destruct (check_min_api_version api_version (2, 9)%Z); simpl; [|intros []].
  set (esc := negb (check_min_api_version api_version (2, 11)%Z)).
  set (made := match its with IDict _ => _ | IList _ => _ end).
  assert (forallb is_log made.2 = true) as Hlog.
  { subst made. destruct its; [apply props_of_dict_logs | apply props_of_list_logs]. }
  assert (forall props k it, made.1 = Returned props -> In (k, it) props ->
            exists v n, In (v, n) (make_item_calls its)
                        /\ (make_item esc ds fs v n).1 = Returned it) as Hitems.
  { subst made. destruct its as [entries|values]; intros props k it Hm Hin.
    - destruct (props_of_dict_items _ _ _ _ _ _ Hm k it Hin) as [[]|(n & v & H1 & H2)].
      exists v, (Some n). split; [|exact H2]. simpl.
      apply in_map_iff. exists (n, v). auto.
    - destruct (props_of_list_items _ _ _ _ _ _ Hm k it Hin) as [[]|(v & H1 & H2)].
      exists v, None. split; [|exact H2]. simpl.
      apply in_map_iff. exists v. auto. }
  destruct made as [[e|props] log]; simpl in *.
  - rewrite (edited_items_logs _ Hlog). intros [].
  - assert (In item (map snd props) -> exists v n, In (v, n) (make_item_calls its)
              /\ (make_item esc ds fs v n).1 = Returned item) as Hsnd.
    { intros Hin. apply in_map_iff in Hin as ([k it] & <- & Hin). eauto. }
    destruct (is_offline task); simpl.
    + rewrite edited_items_app, (edited_items_logs _ Hlog). cbn.
      rewrite app_nil_r. exact Hsnd.
    + destruct (send _ w) as [res w1]. destruct (ok res); simpl;
        rewrite edited_items_app, (edited_items_logs _ Hlog); cbn;
        rewrite app_nil_r; exact Hsnd.
Qed.

(** What [edit_hyper_params] hands over is what it built, whenever it
    returns. *)
Lemma edit_hyper_params_returned task its replace ds fs w b :
  let out := edit_hyper_params send reload _save_data_to_offline_dir api_version
               task its replace ds fs w in
  out.1.1 = Returned b ->
  exists props,
    (made_props (negb (check_min_api_version api_version (2, 11)%Z)) ds fs its).1
    = Returned props
    /\ edited_items out.1.2 = map snd props.
Proof.
  unfold edit_hyper_params, made_props, not_supported.
  destruct (check_min_api_version api_version (2, 9)%Z); cbn [negb]; [|discriminate].
  set (esc := negb (check_min_api_version api_version (2, 11)%Z)).
  set (made := match its with IDict _ => _ | IList _ => _ end).
  assert (forallb is_log made.2 = true) as Hlog.
  { subst made. destruct its; [apply props_of_dict_logs | apply props_of_list_logs]. }
  destruct made as [[e|props] log]; cbn [fst snd] in *; [discriminate|].
  intros _. exists props. split; [reflexivity|].
  destruct (is_offline task); cbn [fst snd].
  - rewrite edited_items_app, (edited_items_logs _ Hlog). cbn. now rewrite app_nil_r.
  - destruct (send _ w) as [res w1]. destruct (ok res); cbn [fst snd];
      rewrite edited_items_app, (edited_items_logs _ Hlog); cbn; now rewrite app_nil_r.
Qed.

(** The answer of [tasks.ParamsItem().get], for [get_hyper_params]. *)
Variable ParamsItem_get : string -> option (option string).

(** C8: below API version 2.9 each of the three calls raises [ValueError]
    and does nothing else.  From 2.9 on, for a task that is not offline:
    [edit_hyper_params] sends one request for the task when every given value
    has a name and a section, and [delete_hyper_params] sends one when every
    given value has a section and a name; the call then returns [True], after
    reloading the task, exactly when the response to that request is ok, and
    [False] without reloading otherwise.  When a value lacks a name, a section
    or a key the call raises, nothing is sent and the task is as it was. *)
Theorem hyper_params_gate_and_result {V : Type}
    (task : Task) (its : iterables) (replace ds fs : option string)
    (sections : option (list string)) (selector : option (ParamsItem -> option bool))
    (projector : option (ParamsItem -> option V)) (return_obj : bool)
    (keys : list (list key_value)) (w : W) :
  let edited := edit_hyper_params send reload _save_data_to_offline_dir api_version
                  task its replace ds fs w in
  let deleted := delete_hyper_params send reload api_version task keys w in
  (below api_version (2, 9)%Z ->
     get_hyper_params send api_version ParamsItem_get task sections selector projector
       return_obj w
       = (Raised (ValueError "Not supported by server"), [], w)
     /\ edited = (Raised (ValueError "Not supported by server"), [], w)
     /\ deleted = (Raised (ValueError "Not supported by server"), [], w))
  /\ (~ below api_version (2, 9)%Z -> is_offline task = false ->
      (forallb (has_name_and_section ds fs) (make_item_calls its) = true ->
         exists items log,
           forallb is_log log = true
           /\ reports_response w
                (EditHyperParamsRequest (task_id task) items
                   (if ReplaceHyperparamsEnum_has_value replace then replace else None))
                log edited)
      /\ (forallb (has_name_and_section ds fs) (make_item_calls its) = false ->
            raised_before_sending w edited)
      /\ (forallb has_key (concat keys) = true ->
            exists hyperparams,
              reports_response w (DeleteHyperParamsRequest (task_id task) hyperparams)
                [] deleted)
      /\ (forallb has_key (concat keys) = false ->
            raised_before_sending w deleted /\ deleted.1.2 = [])).
Proof.
  cbv zeta.
  unfold get_hyper_params, edit_hyper_params, delete_hyper_params, not_supported.
  split.
  - intros Hb. apply check_min_api_version_below in Hb. now rewrite Hb.
  - intros Hb Hoff. rewrite <- check_min_api_version_below in Hb.
    destruct (check_min_api_version api_version (2, 9)%Z); [cbn [negb]|congruence].
    rewrite Hoff.
    pose proof (made_props_outcome
                  (negb (check_min_api_version api_version (2, 11)%Z)) ds fs its) as Hm.
    pose proof (made_props_logs
                  (negb (check_min_api_version api_version (2, 11)%Z)) ds fs its) as Hlog.
    unfold made_props in Hm, Hlog.
    set (made := match its with IDict _ => _ | IList _ => _ end) in *.
    pose proof (delete_keys_outcome (concat keys)) as Hd.
    unfold reports_response, HyperParams.reports_response, raised_before_sending.
    split; [|split; [|split]].
    + intros Hall. rewrite Hall in Hm. destruct Hm as [props Hm].
      destruct made as [r log]. cbn [fst snd] in *. subst r.
      exists (map snd props), log. split; [exact Hlog|].
      replace (if negb (ReplaceHyperparamsEnum_has_value replace) then None else replace)
        with (if ReplaceHyperparamsEnum_has_value replace then replace else None)
        by now destruct (ReplaceHyperparamsEnum_has_value replace).
      destruct (send _ w) as [res w1]. cbn [fst snd].
      destruct (ok res); cbn [fst snd]; auto.
    + intros Hall. rewrite Hall in Hm. destruct Hm as [msg Hm].
      destruct made as [r log]. cbn [fst snd] in *. subst r. cbn [fst snd]. eauto.
    + intros Hall. rewrite Hall in Hd. destruct Hd as (ks & hp & -> & ->).
      exists hp. destruct (send _ w) as [res w1]. cbn [fst snd].
      destruct (ok res); cbn [fst snd]; auto.
    + intros Hall. rewrite Hall in Hd.
      destruct Hd as [(e & ->)|(ks & e & -> & ->)]; cbn [fst snd]; eauto 6.
Qed.


(** What [edit_hyper_params] hands over is what it built, if it hands over
    anything. *)
Lemma edit_hyper_params_handed task its replace ds fs w :
  let out := edit_hyper_params send reload _save_data_to_offline_dir api_version
               task its replace ds fs w in
  edited_items out.1.2 = []
  \/ exists props,
       (made_props (negb (check_min_api_version api_version (2, 11)%Z)) ds fs its).1
       = Returned props
       /\ edited_items out.1.2 = map snd props.
Proof.
  unfold edit_hyper_params, made_props.
  destruct (check_min_api_version api_version (2, 9)%Z); simpl; [|now left].
  set (esc := negb (check_min_api_version api_version (2, 11)%Z)).
  set (made := match its with IDict _ => _ | IList _ => _ end).
  assert (forallb is_log made.2 = true) as Hlog.
  { subst made. destruct its; [apply props_of_dict_logs | apply props_of_list_logs]. }
  destruct made as [[e|props] log]; simpl in *.
  - left. now apply edited_items_logs.
  - right. exists props. split; [reflexivity|].
    destruct (is_offline task); simpl.
    + rewrite edited_items_app, (edited_items_logs _ Hlog). cbn. now rewrite app_nil_r.
    + destruct (send _ w) as [res w1]. destruct (ok res); simpl;
        rewrite edited_items_app, (edited_items_logs _ Hlog); cbn; now rewrite app_nil_r.
Qed.

(** X12: every hyper-parameter that [edit_hyper_params] hands to the server
    or to the offline store has a section and a name that are not empty, and
    below API version 2.11 neither of the two is one of the reserved names. *)
Theorem edited_items_are_named
    (task : Task) (its : iterables) (replace ds fs : option string) (w : W)
    (item : ParamsItem) :
  In item (edited_items
             (edit_hyper_params send reload _save_data_to_offline_dir api_version
                task its replace ds fs w).1.2) ->
  truthy (section item) = true
  /\ truthy (name item) = true
  /\ (below api_version (2, 11)%Z ->
      reserved (section item) = false /\ reserved (name item) = false).
Proof.
  intros Hin. apply edit_hyper_params_items in Hin as (v & n & _ & Hm).
  apply make_item_named in Hm as (Hs & Hn & Hesc).
  split; [exact Hs|]. split; [exact Hn|].
  intros Hb. apply check_min_api_version_below in Hb. apply Hesc. now rewrite Hb.
Qed.

(** X13: given an iterable of values, [edit_hyper_params] hands over at most
    one hyper-parameter per name: the props are keyed by the name alone, so a
    later value replaces an earlier one of the same name, also when their
    sections differ. *)
Theorem edited_list_names_are_distinct
    (task : Task) (values : list param_value) (replace ds fs : option string) (w : W) :
  NoDup (map name
           (edited_items
              (edit_hyper_params send reload _save_data_to_offline_dir api_version
                 task (IList values) replace ds fs w).1.2)).
Proof.
  destruct (edit_hyper_params_handed task (IList values) replace ds fs w)
    as [E|(props & Hm & E)]; cbv zeta in E; rewrite E; [constructor|].
  simpl in Hm. apply props_of_list_keyed in Hm as [Hnd Hkey].
  - replace (map name (map snd props)) with (map fst props); [exact Hnd|].
    rewrite map_map. apply map_ext_in. intros [k item] Hin. simpl. eauto.
  - constructor.
  - intros k item [].
Qed.

(** X14: an item that [make_item] returned is returned unchanged when it is
    passed again under the same settings, so a reserved name is prefixed
    once, not once per call. *)
Theorem make_item_again (esc : bool) (ds fs : option string) (v : param_value)
    (n : option string) (item : ParamsItem) :
  (make_item esc ds fs v n).1 = Returned item ->
  (make_item esc ds fs (VItem item) None).1 = Returned item.
Proof.
  intros Hm. pose proof (make_item_named _ _ _ _ _ _ Hm) as (Hs & Hn & _).
  revert Hm. unfold make_item at 1.
  destruct (nonempty (name _)) as [nm|] eqn:En; [|discriminate].
  destruct (nonempty (py_or _ _)) as [sec|] eqn:Es; [|discriminate].
  set (a_item := if truthy n then _ else _) in *.
  intros Hitem.
  assert (exists sec' nm', section item = Some sec' /\ name item = Some nm'
            /\ (if esc then sec' = escaped sec /\ nm' = escaped nm
                else sec' = sec /\ nm' = nm)
            /\ item = set_name (set_section a_item (Some sec')) (Some nm')) as
    (sec' & nm' & Esec & Enm & Hesc & Eitem).
  { apply nonempty_truthy in En as [En _]. destruct esc.
    - pose proof (escape_value_escaped sec) as H1.
      pose proof (escape_value_escaped nm) as H2.
      destruct (_escape_unsafe_value sec), (_escape_unsafe_value nm). simpl in *. subst.
      injection Hitem as <-. eauto 10.
    - simpl in Hitem. injection Hitem as <-. exists sec, nm. simpl.
      repeat split; auto. unfold set_name, set_section. simpl.
      destruct a_item; simpl in *. now subst. }
  assert (py_or (py_or fs (section item)) ds
          = if truthy fs then fs else Some sec') as Hor.
  { unfold py_or. destruct (truthy fs) eqn:Ef.
    - now rewrite Ef.
    - now rewrite Hs, Esec. }
  assert (truthy fs = true -> fs = Some sec) as Hfs.
  { intros Ef. apply nonempty_truthy in Es as [Es _]. unfold py_or in Es.
    now rewrite Ef, Ef in Es. }
  unfold make_item. simpl.
  unfold nonempty at 1. rewrite Hn, Enm. rewrite Hor.
  assert (nonempty (if truthy fs then fs else Some sec')
          = Some (if truthy fs then sec else sec')) as ->.
  { destruct (truthy fs) eqn:Ef.
    - rewrite (Hfs eq_refl) in *. unfold nonempty. now rewrite Ef.
    - unfold nonempty. rewrite <- Esec, Hs. now rewrite Esec. }
  assert (forall x, (_escape_unsafe_value x).1 = escaped x) as Hev
    by apply escape_value_escaped.
  destruct esc.
  - destruct Hesc as [-> ->].
    pose proof (Hev (if truthy fs then sec else escaped sec)) as H1.
    pose proof (Hev (escaped nm)) as H2.
    destruct (_escape_unsafe_value (if truthy fs then sec else escaped sec)),
      (_escape_unsafe_value (escaped nm)). simpl in *. subst.
    rewrite escaped_idempotent.
    replace (escaped (if truthy fs then sec else escaped sec)) with (escaped sec)
      by (destruct (truthy fs); [reflexivity | now rewrite escaped_idempotent]).
    reflexivity.
  - destruct Hesc as [-> ->]. simpl.
    replace (if truthy fs then sec else sec) with sec by now destruct (truthy fs).
    rewrite Eitem. reflexivity.
Qed.

(** X15: the request that [delete_hyper_params] sends names the task and
    lists every given key once: its keys are pairwise distinct, both parts of
    each are not empty, and a pair of a section and a name is among them
    exactly when one of the given values stands for it.  The strings are
    handed over as they were given; no reserved name is prefixed here. *)
Theorem delete_request_keys
    (task : Task) (its : list (list key_value)) (w : W)
    (t : string) (hp : list (string * string)) :
  In (Sent (DeleteHyperParamsRequest t hp))
     (delete_hyper_params send reload api_version task its w).1.2 ->
  t = task_id task
  /\ NoDup hp
  /\ (forall s n, In (s, n) hp -> s <> "" /\ n <> "")
  /\ (forall s n, In (s, n) hp <->
        exists v, In v (concat its) /\ get_key v = Returned [Some s; Some n]).
Proof.
  unfold delete_hyper_params, not_supported.
  destruct (check_min_api_version api_version (2, 9)%Z); simpl; [|intros []].
  destruct (get_keys (concat its) []) as [e|keys] eqn:Ek; simpl; [intros []|].
  destruct (param_keys keys) as [e|hp'] eqn:Ep; simpl; [intros []|].
  intros Hin.
  assert (t = task_id task /\ hp = hp') as [-> ->].
  { destruct (send _ w) as [res w1]. destruct (ok res); simpl in Hin.
    - destruct Hin as [[= <- <-]|[|[]]]; [auto | discriminate].
    - destruct Hin as [[= <- <-]|[]]. auto. }
  clear Hin. apply get_keys_keys in Ek as [Hnd Hiff]; [|constructor].
  apply param_keys_keys in Ep. subst keys.
  assert (forall s n, In (s, n) hp' <->
            exists v, In v (concat its) /\ get_key v = Returned [Some s; Some n]) as Hkeys.
  { intros s n. split.
    - intros Hin. destruct (proj1 (Hiff [Some s; Some n])) as [[]|H]; [|exact H].
      apply in_map_iff. now exists (s, n).
    - intros H. assert (In [Some s; Some n]
                          (map (fun sn : string * string => [Some sn.1; Some sn.2]) hp'))
        as Hin by (apply Hiff; now right).
      apply in_map_iff in Hin as ([s' n'] & E & Hin). simpl in E. now simplify_eq. }
  split; [reflexivity|]. split; [|split; [|exact Hkeys]].
  - clear Hiff Hkeys. induction hp' as [|[s n] hp' IH]; [constructor|].
    simpl in Hnd. apply NoDup_cons in Hnd as [Hnin Hnd].
    apply NoDup_cons. split; [|auto].
    intros Hin. apply Hnin. apply list_elem_of_In, in_map_iff.
    exists (s, n). split; [reflexivity|]. now apply list_elem_of_In.
  - intros s n Hin. apply Hkeys in Hin as (v & _ & Hv). now apply get_key_truthy in Hv.
Qed.

(** X16: what [get_hyper_params] returns comes from the response: when the
    response is not ok the dictionary is empty, and otherwise every value in
    it stands for an item of an entry for this task that has passed both
    filters (its section is one of [sections] when these are given and not
    empty, and [selector] answered true for it when it is given).  Without
    [return_obj] the value is that item, or its projection, filed under the
    item's section and name.  With [return_obj] the value is the empty
    [tasks.ParamsItem()] of line 54, or its projection, filed under what that
    empty object answers for its section and name, and not the item of the
    response. *)
Theorem get_hyper_params_files_what_passes {V : Type}
    (task : Task) (sections : option (list string))
    (selector : option (ParamsItem -> option bool))
    (projector : option (ParamsItem -> option V)) (return_obj : bool) (w : W)
    (hyperparams : list (option string * list (option string * (ParamsItem + V))))
    (events : list event) (w' : W) :
  get_hyper_params send api_version ParamsItem_get task sections selector projector
    return_obj w
  = (Returned hyperparams, events, w') ->
  let res := (send (GetHyperParamsRequest [task_id task]) w).1 in
  (ok res = false -> hyperparams = [])
  /\ forall sec inner nm v, In (sec, inner) hyperparams -> In (nm, v) inner ->
       exists e item,
         ok res = true /\ In e (params res) /\ entry_task e = Some (task_id task)
         /\ In item (entry_hyperparams e)
         /\ (forall l, sections = Some l -> l <> [] ->
               exists s, section item = Some s /\ In s l)
         /\ (forall f, selector = Some f -> f item = Some true)
         /\ (return_obj = false ->
               section item = sec /\ name item = nm
               /\ match projector with
                  | Some p => exists x, p item = Some x /\ v = inr x
                  | None => v = inl item
                  end)
         /\ (return_obj = true ->
               ParamsItem_get "section" = Some sec /\ ParamsItem_get "name" = Some nm
               /\ match projector with
                  | Some p => exists x, p empty_item = Some x /\ v = inr x
                  | None => v = inl empty_item
                  end).
Proof.
  clear reload _save_data_to_offline_dir.
  unfold get_hyper_params, not_supported.
  destruct (check_min_api_version api_version (2, 9)%Z); cbn [negb]; [|discriminate].
  destruct (send (GetHyperParamsRequest [task_id task]) w) as [res w1]. cbn [fst].
  set (entries := if ok res then _ else []).
  set (good := fun (sec nm : option string) (v : ParamsItem + V) =>
    exists e item,
      ok res = true /\ In e (params res) /\ entry_task e = Some (task_id task)
      /\ In item (entry_hyperparams e)
      /\ (forall l, sections = Some l -> l <> [] ->
            exists s, section item = Some s /\ In s l)
      /\ (forall f, selector = Some f -> f item = Some true)
      /\ (return_obj = false ->
            section item = sec /\ name item = nm
            /\ match projector with
               | Some p => exists x, p item = Some x /\ v = inr x
               | None => v = inl item
               end)
      /\ (return_obj = true ->
            ParamsItem_get "section" = Some sec /\ ParamsItem_get "name" = Some nm
            /\ match projector with
               | Some p => exists x, p empty_item = Some x /\ v = inr x
               | None => v = inl empty_item
               end)).
  set (inv := fun acc : list (option string * list (option string * (ParamsItem + V)))
                        * list event =>
    forall sec inner nm v, In (sec, inner) acc.1 -> In (nm, v) inner -> good sec nm v).
  assert (forall e, In e entries ->
            ok res = true /\ In e (params res) /\ entry_task e = Some (task_id task))
    as Hentries.
  { subst entries. intros e. destruct (ok res); [|intros []].
    rewrite <- list_elem_of_In, list_elem_of_filter, list_elem_of_In. tauto. }
  assert (forall e items acc, ok res = true -> In e (params res) ->
            entry_task e = Some (task_id task) ->
            (forall item, In item items -> In item (entry_hyperparams e)) ->
            inv acc ->
            inv (file_items ParamsItem_get return_obj sections selector projector items acc))
    as Hitems.
  { intros e items. unfold file_items.
    induction items as [|item items IH]; intros acc Hok He Ht Hsub Hacc; [exact Hacc|].
    cbn [fold_left]. apply IH; auto; [intros; apply Hsub; now right|].
    assert (inv (file_item ParamsItem_get return_obj sections selector projector acc.1 item))
      as Hstep; [|destruct (file_item _ _ _ _ _ _ _); exact Hstep].
    unfold file_item.
    destruct (match sections with Some (_ :: _ as l) => _ | _ => false end) eqn:Esec;
      [exact Hacc|].
    destruct (match selector with Some f => f item | None => Some true end)
      as [[|]|] eqn:Esel; [|exact Hacc|exact Hacc].
    destruct (match projector with Some p => _ | None => _ end) as [v0|] eqn:Ev;
      [|exact Hacc].
    destruct (if return_obj then ParamsItem_get "section" else Some (section item))
      as [sec0|] eqn:Es; [|exact Hacc].
    assert (forall nm v,
              In (nm, v) (default [] (dict_get sec0 acc.1)) -> good sec0 nm v) as Hold.
    { intros nm v Hnv.
      destruct (dict_get sec0 acc.1) as [inner0|] eqn:Eg; cbn in Hnv; [|contradiction].
      apply dict_get_In in Eg. eapply Hacc; eauto. }
    destruct (if return_obj then ParamsItem_get "name" else Some (name item))
      as [nm0|] eqn:En.
    - intros sec inner nm v Hin Hnv. cbn [fst] in Hin.
      apply dict_set_In in Hin as [[= -> ->]|Hin]; [|eapply Hacc; eauto].
      apply dict_set_In in Hnv as [[= -> ->]|Hnv]; [|now apply Hold].
      exists e, item. split; [exact Hok|]. split; [exact He|]. split; [exact Ht|].
      split; [apply Hsub; now left|]. split; [|split; [|split]].
      + intros l -> Hl. destruct l as [|x l]; [contradiction|].
        apply negb_false_iff in Esec. destruct (section item) as [s|]; [|discriminate].
        exists s. split; [reflexivity|].
        apply existsb_exists in Esec as (y & Hy & E). apply String.eqb_eq in E. now subst.
      + intros f ->. exact Esel.
      + intros ->. injection Es as <-. injection En as <-.
        split; [reflexivity|]. split; [reflexivity|].
        destruct projector as [p|].
        * destruct (p item) as [x|]; [|discriminate]. injection Ev as <-. eauto.
        * now injection Ev as <-.
      + intros ->. split; [exact Es|]. split; [exact En|].
        destruct projector as [p|].
        * destruct (p empty_item) as [x|]; [|discriminate]. injection Ev as <-. eauto.
        * now injection Ev as <-.
    - intros sec inner nm v Hin Hnv. cbn [fst] in Hin.
      apply dict_set_In in Hin as [[= -> ->]|Hin]; [|eapply Hacc; eauto].
      now apply Hold. }
  assert (forall es acc, (forall e, In e es -> In e entries) -> inv acc ->
            inv (fold_left (fun acc e =>
                   file_items ParamsItem_get return_obj sections selector projector
                     (entry_hyperparams e) acc)
                 es acc)) as Hfold.
  { induction es as [|e es IH]; intros acc Hsub Hacc; [exact Hacc|].
    cbn [fold_left]. apply IH; [intros; apply Hsub; now right|].
    destruct (Hentries e (Hsub e (or_introl eq_refl))) as (Hok & He & Ht).
    eapply Hitems; eauto. }
  assert (inv (fold_left (fun acc e =>
                 file_items ParamsItem_get return_obj sections selector projector
                   (entry_hyperparams e) acc)
               entries ([], []))) as Hall.
  { apply Hfold; [auto|]. intros sec inner nm v []. }
  assert (ok res = false ->
          (fold_left (fun acc e =>
                 file_items ParamsItem_get return_obj sections selector projector
                   (entry_hyperparams e) acc)
               entries ([], [])).1 = []) as Hempty.
  { subst entries. now intros ->. }
  destruct (fold_left _ entries ([], [])) as [h log].
  intros [= <- _ _]. split; [exact Hempty | exact Hall].
Qed.

End WithServerProofs.

Example edit_at_2_10 :
  demo_edit (2, 10)%Z O
  = (Returned true,
     [ LogInfo "in"; LogInfo "type";
       Sent (EditHyperParamsRequest "t1"
               [ {| section := Some "_in"; name := Some "_type"; value := Some "5";
                    type := None; description := None |};
                 {| section := Some "Args"; name := Some "lr"; value := Some "0.1";
                    type := None; description := None |} ] None);
       Reload ],
     101%nat).
Proof. reflexivity. Qed.

Example edit_at_2_11_refused :
  demo_edit (2, 11)%Z 1%nat
  = (Returned false,
     [ Sent (EditHyperParamsRequest "t1"
               [ {| section := Some "in"; name := Some "type"; value := Some "5";
                    type := None; description := None |};
                 {| section := Some "Args"; name := Some "lr"; value := Some "0.1";
                    type := None; description := None |} ] None) ],
     2%nat).
Proof. reflexivity. Qed.

Example edit_at_2_8 :
  demo_edit (2, 8)%Z O = (Raised (ValueError "Not supported by server"), [], O).
Proof. reflexivity. Qed.

Example edit_without_section :
  edit_hyper_params demo_send (fun w => (100 + w)%nat) (fun _ w => w) (2, 13)%Z
    demo_task (IDict [("lr", VOther "0.1")]) None None None O
  = (Raised (ValueError "Missing hyper-param section"), [], O).
Proof. reflexivity. Qed.

Example delete_two_keys :
  delete_hyper_params demo_send (fun w => (100 + w)%nat) (3, 0)%Z demo_task
    [[KSequence ["Args"; "lr"; "ignored"]; KDict (Some "in") (Some "type")];
     [KObject (Some "Args") (Some "lr")]] O
  = (Returned true,
     [Sent (DeleteHyperParamsRequest "t1" [("Args", "lr"); ("in", "type")]); Reload],
     101%nat).
Proof. reflexivity. Qed.


Lemma hyper_params_gate_and_result_witness :
  demo_edit (2, 8)%Z O = (Raised (ValueError "Not supported by server"), [], O)
  /\ (demo_edit (2, 10)%Z O).1.1 = Returned true
  /\ (exists hyperparams,
        (delete_hyper_params demo_send (fun w => (100 + w)%nat) (2, 10)%Z demo_task
           [[KSequence ["Args"; "lr"]]] 1%nat).1
        = (Returned false, [Sent (DeleteHyperParamsRequest "t1" hyperparams)]))
  /\ raised_before_sending 1%nat
       (delete_hyper_params demo_send (fun w => (100 + w)%nat) (2, 10)%Z demo_task
          [[KSequence ["Args"]]] 1%nat).
Proof.
  split; [|split; [|split]].
  - destruct (hyper_params_gate_and_result demo_send (fun w => (100 + w)%nat)
                (fun _ w => w) (2, 8)%Z (fun _ => None) (V := unit) demo_task demo_values
                (Some "everything") (Some "Args") None None None None false [] O)
      as (H & _).
    apply H. right. simpl. lia.
  - destruct (hyper_params_gate_and_result demo_send (fun w => (100 + w)%nat)
                (fun _ w => w) (2, 10)%Z (fun _ => None) (V := unit) demo_task demo_values
                (Some "everything") (Some "Args") None None None None false [] O)
      as (_ & H).
    destruct H as ((items & log & _ & H & _) & _); [unfold below; simpl; lia | reflexivity..|].
    exact H.
  - destruct (hyper_params_gate_and_result demo_send (fun w => (100 + w)%nat)
                (fun _ w => w) (2, 10)%Z (fun _ => None) (V := unit) demo_task demo_values
                (Some "everything") (Some "Args") None None None None false
                [[KSequence ["Args"; "lr"]]] 1%nat)
      as (_ & H).
    destruct H as (_ & _ & H & _); [unfold below; simpl; lia | reflexivity|].
    destruct H as (hp & H1 & H2 & _); [reflexivity|]. exists hp.
    apply injective_projections; [exact H1 | exact H2].
  - destruct (hyper_params_gate_and_result demo_send (fun w => (100 + w)%nat)
                (fun _ w => w) (2, 10)%Z (fun _ => None) (V := unit) demo_task demo_values
                (Some "everything") (Some "Args") None None None None false
                [[KSequence ["Args"]]] 1%nat)
      as (_ & H).
    destruct H as (_ & _ & _ & H); [unfold below; simpl; lia | reflexivity|].
    apply H. reflexivity.
Defined.

(** Two values of the same name in different sections: one is sent. *)
Example edit_same_name_two_sections :
  (edit_hyper_params demo_send (fun w => (100 + w)%nat) (fun _ w => w) (2, 13)%Z
     demo_task (IList [VDict (demo_item "Args" "lr" "0.1"); VDict (demo_item "Model" "lr" "3")])
     None None None O).1.2
  = [Sent (EditHyperParamsRequest "t1" [demo_item "Model" "lr" "3"] None); Reload].
Proof. reflexivity. Qed.

(** Given a dictionary, a reserved name and its prefixed form meet. *)
Example edit_dict_names_meet :
  map name
    (edited_items
       (edit_hyper_params demo_send (fun w => (100 + w)%nat) (fun _ w => w) (2, 10)%Z
          demo_task (IDict [("in", VOther "1"); ("_in", VOther "2")])
          None (Some "Args") None O).1.2)
  = [Some "_in"; Some "_in"].
Proof. reflexivity. Qed.

Example get_two_sections :
  (get_hyper_params (V := string) demo_get_send (2, 13)%Z (fun _ => None) demo_task
     (Some ["Args"; "Model"]) None (Some (fun i => Some (default "" (value i)))) false O).1.1
  = Returned [ (Some "Args", [(Some "lr", inr "0.2")]);
               (Some "Model", [(Some "depth", inr "6")]) ]
  /\ (get_hyper_params (V := string) demo_get_send (2, 13)%Z (fun _ => None) demo_task
        (Some ["Args"])
        (Some (fun i => Some (negb (String.eqb (default "" (value i)) "0.2"))))
        None false O).1.1
     = Returned [ (Some "Args", [(Some "lr", inl (demo_item "Args" "lr" "0.1"))]) ].
Proof. split; reflexivity. Qed.

(** With [return_obj] the items of the response are not returned: an API
    object without [get] files nothing and logs each item, and one that
    answers [None] for every field files one empty object. *)
Example get_objects :
  (get_hyper_params (V := string) demo_get_send (2, 13)%Z (fun _ => None) demo_task
     None None None true O).1
  = (Returned [], [Sent (GetHyperParamsRequest ["t1"]); LogException; LogException;
                   LogException])
  /\ (get_hyper_params (V := string) demo_get_send (2, 13)%Z (fun _ => Some None) demo_task
        None None None true O).1
     = (Returned [(None, [(None, inl empty_item)])], [Sent (GetHyperParamsRequest ["t1"])]).
Proof. split; reflexivity. Qed.

(** A selector or a projector that raises is logged and the item is left
    out. *)
Example get_with_raising_selector :
  (get_hyper_params (V := string) demo_get_send (2, 13)%Z (fun _ => None) demo_task
     None (Some (fun i => if String.eqb (default "" (value i)) "6" then None else Some true))
     None false O).1
  = (Returned [(Some "Args", [(Some "lr", inl (demo_item "Args" "lr" "0.2"))])],
     [Sent (GetHyperParamsRequest ["t1"]); LogException]).
Proof. reflexivity. Qed.

Lemma edited_items_are_named_witness :
  reserved (section (demo_item "_in" "_type" "5")) = false
  /\ reserved (name (demo_item "_in" "_type" "5")) = false.
Proof.
  assert (In (demo_item "_in" "_type" "5") (edited_items (demo_edit (2, 10)%Z O).1.2)) as Hin
    by (vm_compute; auto).
  destruct (edited_items_are_named demo_send (fun w => (100 + w)%nat)
              (fun _ w => w) (2, 10)%Z demo_task demo_values (Some "everything")
              (Some "Args") None O _ Hin) as (_ & _ & H).
  apply H. right. simpl. lia.
Defined.

Lemma make_item_again_witness :
  (make_item true (Some "Args") None (VItem (demo_item "_in" "_type" "5")) None).1
  = Returned (demo_item "_in" "_type" "5").
Proof.
  apply (make_item_again true (Some "Args") None (VDict (demo_item "in" "type" "5")) None).
  reflexivity.
Defined.

Lemma delete_request_keys_witness :
  NoDup [("Args", "lr"); ("in", "type")]
  /\ exists v, In v [KSequence ["Args"; "lr"; "ignored"]; KDict (Some "in") (Some "type");
                     KObject (Some "Args") (Some "lr")]
               /\ get_key v = Returned [Some "in"; Some "type"].
Proof.
  destruct (delete_request_keys demo_send (fun w => (100 + w)%nat) (3, 0)%Z demo_task
              [[KSequence ["Args"; "lr"; "ignored"]; KDict (Some "in") (Some "type")];
               [KObject (Some "Args") (Some "lr")]] O
              "t1" [("Args", "lr"); ("in", "type")]) as (_ & Hnd & _ & Hiff).
  - vm_compute. auto.
  - split; [exact Hnd|]. apply Hiff. simpl. auto.
Defined.

Lemma get_hyper_params_files_what_passes_witness :
  exists e item,
    In e (params (demo_get_send (GetHyperParamsRequest ["t1"]) O).1)
    /\ In item (entry_hyperparams e)
    /\ section item = Some "Args" /\ name item = Some "lr"
    /\ Some "0.2" = Some (default "" (value item)).
Proof.
  destruct (get_hyper_params_files_what_passes (V := string) demo_get_send (2, 13)%Z
              (fun _ => None) demo_task (Some ["Args"; "Model"]) None
              (Some (fun i => Some (default "" (value i)))) false O
              [ (Some "Args", [(Some "lr", inr "0.2")]);
                (Some "Model", [(Some "depth", inr "6")]) ]
              [Sent (GetHyperParamsRequest ["t1"])] 1%nat eq_refl) as [_ H].
  destruct (H (Some "Args") [(Some "lr", inr "0.2")] (Some "lr") (inr "0.2"))
    as (e & item & _ & He & _ & Hitem & _ & _ & Hfalse & _); simpl; auto.
  destruct (Hfalse eq_refl) as (Hs & Hn & x & Hx & Hv).
  exists e, item. repeat split; auto. injection Hv as ->. now symmetry.
Defined.

End HyperParams.

(** ** clearml/binding/frameworks/__init__.py : [WeightsFileHandler]
       and clearml/binding/frameworks/catboost_bind.py : [_save] *)

Module Handler.

Local Open Scope string_scope.
Local Open Scope list_scope.

(** The Python values that reach the handlers: [None], strings, booleans,
    non-empty dictionaries and any other object that is true (a model, a
    task, an open file, a path-like object, non-empty bytes), the last two
    named by numbers. *)
Inductive pyval :=
| PNone
| PStr (s : string)
| PBool (b : bool)
| PDict (d : Z)
| PObj (o : Z).

#[global] Instance pyval_eq_dec : EqDecision pyval.
Proof. solve_decision. Defined.

#[global] Instance pyval_countable : Countable pyval.
Proof.
  refine (inj_countable'
            (fun v => match v with
                      | PNone => inl (inl tt)
                      | PStr s => inl (inr s)
                      | PBool b => inr (inl b)
                      | PDict d => inr (inr (inl d))
                      | PObj o => inr (inr (inr o))
                      end)
            (fun c => match c with
                      | inl (inl _) => PNone
                      | inl (inr s) => PStr s
                      | inr (inl b) => PBool b
                      | inr (inr (inl d)) => PDict d
                      | inr (inr (inr o)) => PObj o
                      end) _).
  now intros [].
Defined.

(** [bool(v)] *)
Definition truthy (v : pyval) : bool :=
  match v with
  | PNone => false
  | PStr s => negb (String.eqb s "")
  | PBool b => b
  | PDict _ => true
  | PObj _ => true
  end.

(** [a or b] *)
Definition py_or (a b : pyval) : pyval := if truthy a then a else b.

Definition is_none (v : pyval) : bool :=
  match v with PNone => true | _ => false end.

(** Exceptions, all of them subclasses of [Exception]: the ones Python itself
    raises in these functions, and whatever a call into other code raises. *)
Inductive exn :=
| TypeError
| AttributeError
| IndexError
| RuntimeError
| Failure (code : Z).

(** [WeightsFileHandler.ModelInfo] *)
Record ModelInfo := {
  model : pyval;
  upload_filename : pyval;
  local_model_path : pyval;
  local_model_id : pyval;
  framework : pyval;
  task : pyval;
  weights_object : pyval
}.

Definition set_model (i : ModelInfo) (v : pyval) : ModelInfo :=
  {| model := v; upload_filename := upload_filename i;
     local_model_path := local_model_path i; local_model_id := local_model_id i;
     framework := framework i; task := task i; weights_object := weights_object i |}.

Definition set_upload_filename (i : ModelInfo) (v : pyval) : ModelInfo :=
  {| model := model i; upload_filename := v;
     local_model_path := local_model_path i; local_model_id := local_model_id i;
     framework := framework i; task := task i; weights_object := weights_object i |}.

Definition set_weights_object (i : ModelInfo) (v : pyval) : ModelInfo :=
  {| model := model i; upload_filename := upload_filename i;
     local_model_path := local_model_path i; local_model_id := local_model_id i;
     framework := framework i; task := task i; weights_object := v |}.

(** The attributes of a [ModelInfo] that the handlers read or assign after
    the object was built. *)
Inductive field :=
| f_model
| f_upload_filename
| f_local_model_path
| f_local_model_id
| f_weights_object.

Definition field_name (f : field) : string :=
  match f with
  | f_model => "model"
  | f_upload_filename => "upload_filename"
  | f_local_model_path => "local_model_path"
  | f_local_model_id => "local_model_id"
  | f_weights_object => "weights_object"
  end.

Definition get_field (f : field) (i : ModelInfo) : pyval :=
  match f with
  | f_model => model i
  | f_upload_filename => upload_filename i
  | f_local_model_path => local_model_path i
  | f_local_model_id => local_model_id i
  | f_weights_object => weights_object i
  end.

Definition set_field (f : field) (i : ModelInfo) (v : pyval) : ModelInfo :=
  match f with
  | f_model => set_model i v
  | f_upload_filename => set_upload_filename i v
  | f_local_model_path =>
      {| model := model i; upload_filename := upload_filename i;
         local_model_path := v; local_model_id := local_model_id i;
         framework := framework i; task := task i; weights_object := weights_object i |}
  | f_local_model_id =>
      {| model := model i; upload_filename := upload_filename i;
         local_model_path := local_model_path i; local_model_id := v;
         framework := framework i; task := task i; weights_object := weights_object i |}
  | f_weights_object => set_weights_object i v
  end.

(** What the variable [model_info] holds: the [ModelInfo] that the handler
    built or that a callback returned, or whatever else a callback returned
    in its place, [None] ([Object PNone]) or an object of another class. *)
Inductive info :=
| Info (i : ModelInfo)
| Object (o : pyval).

(** [model_info is None] *)
Definition info_is_none (x : info) : bool :=
  match x with
  | Object PNone => true
  | _ => false
  end.

(** [WeightsFileHandler.CallbackType] *)
Inductive CallbackType := save | load.

(** What one round of a callback loop (lines 221-226) finds: the callback
    returned something, or it raised, and then a [ModelInfo] it was given is
    as the callback left it. *)
Inductive cb_outcome :=
| CbReturned (r : info)
| CbRaised (e : exn) (left_as : ModelInfo).

(** What [model_info] holds after a round that was entered with [given]. *)
Definition round_result (given : info) (outcome : cb_outcome) : info :=
  match outcome with
  | CbReturned r => r
  | CbRaised _ left_as =>
      match given with
      | Info _ => Info left_as
      | Object _ => given
      end
  end.

(** The calls into code outside these two files, with the type of what they
    return. *)
Inductive ext : Type -> Type :=
| Getattr_name (model : pyval) : ext pyval
    (* getattr(model, "name", "") *)
| Attr (obj : pyval) (attribute : string) : ext pyval
    (* obj.attribute, obj not None *)
| Add (a b : pyval) : ext pyval
    (* a + b, not both strings *)
| Format_dash (a b : pyval) : ext pyval
    (* "{} - {}".format(a, b), not both strings *)
| Endswith_part (v : pyval) : ext bool
    (* v.lower().endswith(".part"), v an object *)
| Drop_part (v : pyval) : ext pyval
    (* v[: -len(".part")], v an object *)
| InputModel (model_id : pyval) : ext pyval
| InputModel_import_model
    (weights_url config_dict config_text name label_enumeration framework : pyval)
    : ext pyval
| InputModel_load_model (weights_url : pyval) : ext pyval
| OutputModel
    (task config_dict config_text name label_enumeration framework base_model_id : pyval)
    : ext pyval
| Task_get_labels_enumeration (task : pyval) : ext pyval
| Task_connect (task model : pyval) : ext pyval
| Update_weights_package (m : pyval) (weights_filenames : list string)
    (target_filename : pyval) : ext pyval
| Update_weights_upload (m : pyval) (weights_filename : string)
    (target_filename : pyval) : ext pyval
| Update_weights_register (m : pyval) (register_uri : pyval) (is_package : bool)
    : ext pyval
| Is_dir (path : string) : ext bool
| Rglob (path : string) : ext (list string)
| Glob_siblings (path : string) : ext (list string)
    (* Path(path).parent.glob(Path(path).name + ".*") *)
| Pytorch_lightning_loaded : ext bool
    (* sys.modules.get("pytorch_lightning") *)
| Mkstemp : ext (Z * string)
| Os_close (fd : Z) : ext unit
| Shutil_copy (src dst : string) : ext unit
| Info_found_existing (in_model_id local_model_path : pyval) : ext unit
    (* get_logger(...).info("Found existing registered model ...") *)
| Original_fn (obj f : pyval) : ext pyval
    (* the save_model that _patched_call replaced *)
| Abspath (path : pyval) : ext pyval
    (* os.path.abspath(path), path true *)
| Path_stem_of (v : pyval) : ext string
    (* Path(v).stem, v an object *)
| Setattr (obj : pyval) (attribute : string) (v : pyval) : ext unit
    (* obj.attribute = v, obj neither a ModelInfo nor None *)
| Hash (key : pyval) : ext unit.
    (* hash(key), key an object *)

Inductive event :=
| Acquire
| Release
| CacheGet (key : pyval)
| CacheSet (key : pyval) (entry : pyval * pyval)
| Called {A : Type} (call : ext A) (answer : exn + A)
| CallbackRan (kind : CallbackType) (given : info) (outcome : cb_outcome)
| Debug (e : exn).

(** How a block of statements ends: it falls through with a value, it raises,
    or it executes [return v]. *)
Inductive res (A : Type) :=
| Normal (a : A)
| Raising (e : exn)
| Returning (v : pyval).
Arguments Normal {A} a.
Arguments Raising {A} e.
Arguments Returning {A} v.

Section WithWorld.

(** Everything outside the two files, and the callback functions. *)
Context {W F : Type}.

(** What a call into other code answers, and what it does to the world. *)
Variable oracle : forall A : Type, ext A -> W -> (exn + A) * W.

(** [cb(kind, model_info)] *)
Variable run_callback : F -> CallbackType -> info -> W -> cb_outcome * W.

(** [Path(p).stem], [Path(p).name], [str(Path(p).absolute())] on strings. *)
Variable path_stem path_name path_absolute : string -> string.

(** The values of [_model_pre_callbacks] and [_model_post_callbacks], in
    insertion order. *)
Variable pre_callbacks post_callbacks : list F.

(** [Framework.catboost] *)
Variable Framework_catboost : pyval.

(** The interpreter state the handlers work on: the world, the lock
    [_model_store_lookup_lock], the dictionary [Model._local_model_to_id_uri],
    and what has happened so far. *)
Record state := State {
  world : W;
  lock_held : bool;
  cache : gmap pyval (pyval * pyval);
  trace : list event
}.

Definition M (A : Type) : Type := state -> res A * state.

Definition ret {A : Type} (a : A) : M A := fun s => (Normal a, s).
Definition raise {A : Type} (e : exn) : M A := fun s => (Raising e, s).
Definition return_ {A : Type} (v : pyval) : M A := fun s => (Returning v, s).

Definition bind {A B : Type} (m : M A) (k : A -> M B) : M B :=
  fun s =>
    match m s with
    | (Normal a, s1) => k a s1
    | (Raising e, s1) => (Raising e, s1)
    | (Returning v, s1) => (Returning v, s1)
    end.

Notation "'let!' x ':=' m 'in' k" := (bind m (fun x => k))
  (at level 10, x pattern, m at level 100, k at level 200).

(** [try: m  except Exception as e: handler(e)] *)
Definition try_except {A : Type} (m : M A) (handler : exn -> M A) : M A :=
  fun s =>
    match m s with
    | (Raising e, s1) => handler e s1
    | other => other
    end.

(** [try: m  finally: final]; the way [m] ended stands unless [final] raises
    or returns itself. *)
Definition try_finally {A : Type} (m : M A) (final : M unit) : M A :=
  fun s =>
    let '(r, s1) := m s in
    match final s1 with
    | (Normal _, s2) => (r, s2)
    | (Raising e, s2) => (Raising e, s2)
    | (Returning v, s2) => (Returning v, s2)
    end.

(** A call of a function whose body is [m]: [return v] yields [v]. *)
Definition function_call (m : M pyval) : M pyval :=
  fun s =>
    match m s with
    | (Returning v, s1) => (Normal v, s1)
    | other => other
    end.

Definition log (ev : event) (s : state) : state :=
  State (world s) (lock_held s) (cache s) (trace s ++ [ev]).

Definition call {A : Type} (c : ext A) : M A :=
  fun s =>
    let '(answer, w) := oracle A c (world s) in
    let s1 := log (Called c answer) (State w (lock_held s) (cache s) (trace s)) in
    match answer with
    | inl e => (Raising e, s1)
    | inr a => (Normal a, s1)
    end.

(** [lock.acquire()] returns once the calling thread holds the lock. *)
Definition acquire : M unit :=
  fun s => (Normal tt, log Acquire (State (world s) true (cache s) (trace s))).

(** [lock.release()]; releasing a lock that is not held is a [RuntimeError]. *)
Definition release : M unit :=
  fun s =>
    if lock_held s
    then (Normal tt, log Release (State (world s) false (cache s) (trace s)))
    else (Raising RuntimeError, s).

(** [hash(key)], which a dictionary takes of a key before anything else: a
    [dict] is not hashable, another object answers for itself. *)
Definition hash_key (key : pyval) : M unit :=
  match key with
  | PDict _ => raise TypeError
  | PObj _ => call (Hash key)
  | _ => ret tt
  end.

(** [Model._local_model_to_id_uri.get(key, (None, None))] *)
Definition cache_get (key : pyval) : M (pyval * pyval) :=
  let! _ := hash_key key in
  fun s => (Normal (default (PNone, PNone) (cache s !! key)), log (CacheGet key) s).

(** [Model._local_model_to_id_uri[key] = entry] *)
Definition cache_set (key : pyval) (entry : pyval * pyval) : M unit :=
  let! _ := hash_key key in
  fun s =>
    (Normal tt,
     log (CacheSet key entry)
       (State (world s) (lock_held s) (<[key := entry]> (cache s)) (trace s))).

(** [get_logger(TrainsFrameworkAdapter).debug(str(ex))] *)
Definition debug (e : exn) : M unit := fun s => (Normal tt, log (Debug e) s).

(** [obj.attribute]; [None] has none of the attributes read here. *)
Definition getattr (obj : pyval) (attribute : string) : M pyval :=
  if is_none obj then raise AttributeError else call (Attr obj attribute).

(** [obj.attribute = v]; [None] takes no attribute. *)
Definition setattr (obj : pyval) (attribute : string) (v : pyval) : M unit :=
  if is_none obj then raise AttributeError else call (Setattr obj attribute v).

(** [model_info.f]: a [ModelInfo] has the attribute, any other object answers
    for itself. *)
Definition read (model_info : info) (f : field) : M pyval :=
  match model_info with
  | Info i => ret (get_field f i)
  | Object o => getattr o (field_name f)
  end.

(** [model_info.f = v]; the variable holds the same object afterwards. *)
Definition write (model_info : info) (f : field) (v : pyval) : M info :=
  match model_info with
  | Info i => ret (Info (set_field f i v))
  | Object o => let! _ := setattr o (field_name f) v in ret model_info
  end.

(** [a + b] *)
Definition add (a b : pyval) : M pyval :=
  match a, b with
  | PStr x, PStr y => ret (PStr (x ++ y)%string)
  | _, _ => call (Add a b)
  end.

(** [Path(v)] for what [os.path.abspath] returned or [_save] passes on, as
    the string it holds; [Path] refuses [None] and bytes with [TypeError]. *)
Definition as_path (v : pyval) : M string :=
  match v with
  | PStr p => ret p
  | _ => raise TypeError
  end.

(** [Path(v).stem] for what a callback may have left in [local_model_path]:
    a path-like object answers for itself. *)
Definition stem_of (v : pyval) : M pyval :=
  match v with
  | PStr p => ret (PStr (path_stem p))
  | PObj _ => let! stem := call (Path_stem_of v) in ret (PStr stem)
  | _ => raise TypeError
  end.

(** One round of a callback loop:
    [try: model_info = cb(kind, model_info)  except Exception: pass]. *)
Definition callback_round (kind : CallbackType) (cb : F) (model_info : info) : M info :=
  fun s =>
    let '(outcome, w) := run_callback cb kind model_info (world s) in
    (Normal (round_result model_info outcome),
     log (CallbackRan kind model_info outcome)
       (State w (lock_held s) (cache s) (trace s))).

(** [for cb in list(callbacks.values()): ...] *)
Fixpoint run_callbacks (kind : CallbackType) (cbs : list F) (model_info : info) : M info :=
  match cbs with
  | [] => ret model_info
  | cb :: rest =>
      bind (callback_round kind cb model_info) (run_callbacks kind rest)
  end.

(** Lines 206-210 and 377-381:
    [try: os.path.abspath(v) if v else v  except TypeError: return v];
    any other exception of [os.path.abspath] goes on. *)
Definition abspath_or_return (v : pyval) : M pyval :=
  try_except (if truthy v then call (Abspath v) else ret v)
    (fun e => match e with TypeError => return_ v | _ => raise e end).

(** [a or b] on two attributes of [model_info], lines 272 and 445. *)
Definition read_id_or_path (model_info : info) : M pyval :=
  let! id := read model_info f_local_model_id in
  if truthy id then ret id else read model_info f_local_model_path.

(** Lines 237-337 of [restore_weights_file]: the body of its [try]. *)
Definition restore_locked (model framework task : pyval) (model_info : info) : M unit :=
  let! _ := acquire in
  let! has_model := read model_info f_model in
  let! trains_in_model :=
    (if truthy has_model then read model_info f_model else ret PNone) in
  let! model_name_id :=
    (if truthy model then call (Getattr_name model) else ret (PStr "")) in
  let! (config_dict, config_text) :=
    try_except
      (let! config_dict :=
         (if truthy trains_in_model then getattr trains_in_model "config_dict"
          else ret PNone) in
       ret (config_dict, PNone))
      (fun _ =>
         let! config_text :=
           try_except
             (if truthy trains_in_model then getattr trains_in_model "config_text"
              else ret PNone)
             (fun _ => ret PNone) in
         ret (PNone, config_text)) in
  let! trains_in_model :=
    (if negb (truthy trains_in_model) then
       let! key := read_id_or_path model_info in
       let! (model_id, model_uri) := cache_get key in
       let! (trains_in_model, model_id) :=
         (if truthy model_id then
            try_except
              (let! m := call (InputModel model_id) in ret (m, model_id))
              (fun _ => ret (trains_in_model, PNone))
          else ret (trains_in_model, model_id)) in
       if negb (truthy model_id) then
         let! weights_url := read model_info f_local_model_path in
         let! name :=
           (if truthy model_name_id then
              let! task_name := getattr task "name" in
              let! suffix := add (PStr " ") model_name_id in
              add task_name suffix
            else ret (PStr "")) in
         let! label_enumeration := call (Task_get_labels_enumeration task) in
         call (InputModel_import_model weights_url config_dict
                 config_text name label_enumeration framework)
       else ret trains_in_model
     else ret trains_in_model) in
  let! model_info := write model_info f_model trains_in_model in
  let! model_info := run_callbacks load post_callbacks model_info in
  let! trains_in_model := read model_info f_model in
  let! _ := call (Task_connect task trains_in_model) in
  (* lines 317-330 are under [if False and ...] *)
  let! id := getattr trains_in_model "id" in
  let! url := getattr trains_in_model "url" in
  let! key := read model_info f_local_model_id in
  cache_set key (id, url).

(** Lines 196-344. *)
Definition restore_weights_file (model filepath framework task : pyval) : M pyval :=
  if is_none task then return_ filepath
  else
    let! local_model_path := abspath_or_return filepath in
    let model_info :=
      Info {| Handler.model := PNone; upload_filename := PNone;
              local_model_path := local_model_path; local_model_id := filepath;
              Handler.framework := framework; Handler.task := task;
              weights_object := PNone |} in
    let! model_info := run_callbacks load pre_callbacks model_info in
    if info_is_none model_info then return_ filepath
    else
      let! path := read model_info f_local_model_path in
      if negb (truthy path) then return_ filepath
      else
        let! _ :=
          try_finally
            (try_except (restore_locked model framework task model_info) debug)
            release in
        return_ filepath.

Definition ascii_lower (c : ascii) : ascii :=
  let n := nat_of_ascii c in
  if (65 <=? n)%nat && (n <=? 90)%nat then ascii_of_nat (n + 32) else c.

(** [s.lower()], on the ASCII letters. *)
Fixpoint lower (s : string) : string :=
  match s with
  | EmptyString => EmptyString
  | String c rest => String (ascii_lower c) (lower rest)
  end.

(** [v.lower().endswith(".part")] *)
Definition endswith_part (v : pyval) : M bool :=
  match v with
  | PStr t => ret (Unpack.endswith (lower t) ".part")
  | PObj _ => call (Endswith_part v)
  | _ => raise AttributeError
  end.

(** [v[: -len(".part")]] *)
Definition drop_part (v : pyval) : M pyval :=
  match v with
  | PStr t => ret (PStr (substring 0 (String.length t - 5) t))
  | PObj _ => call (Drop_part v)
  | _ => raise TypeError
  end.

(** ["{} - {}".format(a, b)] *)
Definition format_dash (a b : pyval) : M pyval :=
  match a, b with
  | PStr x, PStr y => ret (PStr (x ++ " - " ++ y)%string)
  | _, _ => call (Format_dash a b)
  end.

(** [files[0]] *)
Definition first_file (files : list string) : M string :=
  match files with
  | f :: _ => ret f
  | [] => raise IndexError
  end.

(** Lines 397-541 of [create_output_model], for the [ModelInfo] of line 383. *)
Definition create_tracked (model framework task : pyval) (singlefile : bool)
    (model_name config_obj saved_path : pyval) (model_info : ModelInfo) : M unit :=
  let! path := as_path (Handler.local_model_path model_info) in
  let! is_dir := call (Is_dir path) in
  let! files :=
    (if is_dir then call (Rglob path)
     else if singlefile then ret [path_absolute path]
     else call (Glob_siblings path)) in
  let! target_filename :=
    (if (1 <? length files)%nat then ret (PStr (path_stem path))
     else let! f := first_file files in ret (PStr (path_name f))) in
  let model_info := set_weights_object model_info model in
  let model_info := set_upload_filename model_info target_filename in
  let! model_info := run_callbacks save pre_callbacks (Info model_info) in
  let! model_info := write model_info f_weights_object PNone in
  if info_is_none model_info then return_ saved_path
  else
  let! trains_out_model := read model_info f_model in
  let! trains_out_model :=
    (if is_none trains_out_model then
       let! key := read_id_or_path model_info in
       let! (in_model_id, model_uri) := cache_get key in
       let! in_model_id :=
         (if negb (truthy in_model_id) then
            let! output_uri := getattr task "output_uri" in
            if negb (truthy output_uri) then
              try_except
                (let! weights_url := read model_info f_local_model_path in
                 let! in_model_id := call (InputModel_load_model weights_url) in
                 if truthy in_model_id then
                   let! in_model_id := getattr in_model_id "id" in
                   let! found_path := read model_info f_local_model_path in
                   let! _ := call (Info_found_existing in_model_id found_path) in
                   ret in_model_id
                 else ret in_model_id)
                (fun _ => ret PNone)
            else ret PNone
          else ret in_model_id) in
       let config_dict := match config_obj with PDict _ => config_obj | _ => PNone end in
       let config_text := match config_obj with PStr _ => config_obj | _ => PNone end in
       let! name :=
         (if truthy in_model_id then ret PNone
          else
            let! task_name := getattr task "name" in
            let! second :=
              (if truthy model_name then ret model_name
               else let! local_path := read model_info f_local_model_path in
                    stem_of local_path) in
            format_dash task_name second) in
       let! label_enumeration := call (Task_get_labels_enumeration task) in
       call (OutputModel task config_dict config_text name label_enumeration framework
               in_model_id)
     else ret trains_out_model) in
  let! model_info := write model_info f_model trains_out_model in
  let! model_info := write model_info f_weights_object model in
  let! model_info := run_callbacks save post_callbacks model_info in
  let! model_info := write model_info f_weights_object PNone in
  let! trains_out_model := read model_info f_model in
  let! target_filename := read model_info f_upload_filename in
  let! upload_storage_uri := getattr trains_out_model "upload_storage_uri" in
  let! _ :=
    (if truthy upload_storage_uri then
       if (1 <? length files)%nat then
         call (Update_weights_package trains_out_model files target_filename)
       else
         let! lightning := call Pytorch_lightning_loaded in
         let! target_filename :=
           (if lightning then
              let! part := endswith_part target_filename in
              if part then drop_part target_filename else ret target_filename
            else ret target_filename) in
         let! (fd, temp_file) := call Mkstemp in
         let! _ := call (Os_close fd) in
         let! src := first_file files in
         let! _ := call (Shutil_copy src temp_file) in
         call (Update_weights_upload trains_out_model temp_file target_filename)
     else
       let! register_uri := read model_info f_local_model_path in
       call (Update_weights_register trains_out_model register_uri
               (1 <? length files)%nat)) in
  let! id := getattr trains_out_model "id" in
  let! url := getattr trains_out_model "url" in
  let! key := read model_info f_local_model_id in
  cache_set key (id, url).

(** Lines 362-541 of [create_output_model]: the body of its [try]. *)
Definition create_locked (model saved_path framework task : pyval) (singlefile : bool)
    (model_name config_obj : pyval) : M unit :=
  let! _ := acquire in
  let trains_out_model := PNone in
  let! local_model_path := abspath_or_return saved_path in
  let model_info :=
    {| Handler.model := trains_out_model; upload_filename := PNone;
       local_model_path := local_model_path; local_model_id := saved_path;
       Handler.framework := framework; Handler.task := task;
       weights_object := PNone |} in
  if negb (truthy (Handler.local_model_path model_info)) then return_ saved_path
  else
    create_tracked model framework task singlefile model_name config_obj saved_path
      model_info.

(** Lines 346-548.  Line 360 reads [task.id] before the [try]. *)
Definition create_output_model (model saved_path framework task : pyval)
    (singlefile : bool) (model_name config_obj : pyval) : M pyval :=
  if is_none task then return_ saved_path
  else
    let! _ := getattr task "id" in
    let! _ :=
      try_finally
        (try_except
           (create_locked model saved_path framework task singlefile model_name config_obj)
           debug)
        release in
    return_ saved_path.

(** [PatchCatBoostModelIO._save], lines 53-83 of catboost_bind.py;
    [current_task] is [PatchCatBoostModelIO._current_task]. *)
Definition _save (current_task : pyval) (obj f : pyval) : M pyval :=
  let! ret_ := call (Original_fn obj f) in
  if negb (truthy current_task) then return_ ret_
  else
    let filename := match f with PStr _ => f | _ => PNone end in
    let! model_name :=
      try_except (let! p := as_path filename in ret (PStr (path_stem p)))
                 (fun _ => ret PNone) in
    let! _ :=
      function_call
        (create_output_model obj filename Framework_catboost current_task true
           model_name PNone) in
    return_ ret_.

(** [PatchCatBoostModelIO._load], lines 86-108 of catboost_bind.py.  [args]
    are the positional arguments after [f]; the original is named by [f] and
    the first of them, as the original of [_save] is by its two arguments.
    [empty] is the [_Empty()] of line 99: nothing assigns its
    [trains_in_model], so the branch of lines 102-107 is never taken. *)
Definition _load (current_task empty f : pyval) (args : list pyval) : M pyval :=
  if negb (truthy current_task) then
    let! model := call (Original_fn f (hd PNone args)) in
    return_ model
  else
    let filename :=
      match f with
      | PStr _ => f
      | _ => match args with
             | PStr a :: _ => PStr a
             | _ => PNone
             end
      end in
    let! model := call (Original_fn f (hd PNone args)) in
    let! _ :=
      function_call (restore_weights_file empty filename Framework_catboost current_task) in
    return_ model.

(** *** What a call may do to the lock and to the dictionary *)

(** Events that touch neither the lock nor the dictionary. *)
Definition quiet_event (ev : event) : bool :=
  match ev with
  | Acquire | Release | CacheGet _ | CacheSet _ _ => false
  | _ => true
  end.

(** Events that neither touch the lock nor write the dictionary. *)
Definition read_event (ev : event) : bool :=
  match ev with
  | Acquire | Release | CacheSet _ _ => false
  | _ => true
  end.

(** Events that do not touch the lock. *)
Definition inner_event (ev : event) : bool :=
  match ev with
  | Acquire | Release => false
  | _ => true
  end.

(** The lock discipline of a trace that starts with the lock not held by the
    caller: the dictionary is used only between an [Acquire] and the next
    [Release], and the two alternate.  [Some held]: the discipline is kept,
    and the caller holds the lock at the end or not. *)
Fixpoint lock_discipline_from (held : bool) (tr : list event) : option bool :=
  match tr with
  | [] => Some held
  | Acquire :: rest => if held then None else lock_discipline_from true rest
  | Release :: rest => if held then lock_discipline_from false rest else None
  | CacheGet _ :: rest | CacheSet _ _ :: rest =>
      if held then lock_discipline_from held rest else None
  | _ :: rest => lock_discipline_from held rest
  end.

Definition lock_discipline (tr : list event) : bool :=
  match lock_discipline_from false tr with
  | Some false => true
  | _ => false
  end.

Definition count_event (P : event -> bool) (tr : list event) : nat :=
  length (List.filter P tr).

Definition is_acquire (ev : event) : bool :=
  match ev with Acquire => true | _ => false end.

Definition is_release (ev : event) : bool :=
  match ev with Release => true | _ => false end.

(** The dictionary writes of a trace, in order. *)
Fixpoint writes (tr : list event) : list (pyval * (pyval * pyval)) :=
  match tr with
  | [] => []
  | CacheSet k v :: rest => (k, v) :: writes rest
  | _ :: rest => writes rest
  end.

(** The events between [s] and a later state [s']. *)
Definition new_events (s s' : state) : list event :=
  drop (length (trace s)) (trace s').

(** The state [s'] comes after [s] with events of the kind [P] in between,
    and with the lock, or the dictionary, as it was where that is asked. *)
Definition rel (keep_lock keep_cache : bool) (P : event -> bool) (s s' : state) : Prop :=
  (keep_lock = true -> lock_held s' = lock_held s)
  /\ (keep_cache = true -> cache s' = cache s)
  /\ exists tr, trace s' = trace s ++ tr /\ forallb P tr = true.

(** From [s], [m] goes to a state that [R] allows; what it falls through with
    satisfies [Q], and a value it returns satisfies [Rt]. *)
Definition sat_at {A : Type} (R : state -> state -> Prop) (Q : A -> Prop)
    (Rt : pyval -> Prop) (m : M A) (s : state) : Prop :=
  R s (m s).2
  /\ match (m s).1 with
     | Normal a => Q a
     | Raising _ => True
     | Returning v => Rt v
     end.

Definition sat {A : Type} (R : state -> state -> Prop) (Q : A -> Prop)
    (Rt : pyval -> Prop) (m : M A) : Prop :=
  forall s, sat_at R Q Rt m s.

(** The event [last] hands the model [mo] over: it is connected to the task
    (line 313), or weights are given to it (lines 508-534), and the call
    returned. *)
Definition registers (mo : pyval) (last : event) : bool :=
  match last with
  | Called c (inr _) =>
      match c with
      | Task_connect _ m | Update_weights_package m _ _ | Update_weights_upload m _ _
      | Update_weights_register m _ _ => bool_decide (m = mo)
      | _ => false
      end
  | _ => false
  end.

(** What taking the hash of a key adds to the trace. *)
Definition hashing (key : pyval) : list event :=
  match key with
  | PObj _ => [Called (Hash key) (inr tt)]
  | _ => []
  end.

(** The events [body] end with the one write of a handler: after the model
    [mo] was handed over, its [.id] and [.url] were read and stored under a
    key that satisfies [K]; between [s] and [s'] that key has changed and no
    other. *)
Definition stored (K : pyval -> Prop) (s s' : state) (body : list event) : Prop :=
  exists k mo id url tr last,
    K k
    /\ registers mo last = true
    /\ body = tr ++ [last; Called (Attr mo "id") (inr id); Called (Attr mo "url") (inr url)]
              ++ hashing k ++ [CacheSet k (id, url)]
    /\ forallb read_event tr = true
    /\ cache s' = <[k := (id, url)]> (cache s).

(** The events [body] end with the debug message of line 340 or 544. *)
Definition logged (body : list event) : Prop :=
  exists tr e, body = tr ++ [Debug e].

(** The events under the lock of a [create_output_model] that returned for
    want of a path (lines 381 and 395). *)
Definition no_path (path : pyval) (body : list event) : Prop :=
  (truthy path = false /\ body = [])
  \/ body = [Called (Abspath path) (inl TypeError)]
  \/ exists p, truthy p = false /\ body = [Called (Abspath path) (inr p)].

(** A block that ends by handing the model [mo] over. *)
Definition hands_over (mo : pyval) {A : Type} (m : M A) : Prop :=
  forall s,
    lock_held (m s).2 = lock_held s
    /\ cache (m s).2 = cache s
    /\ match (m s).1 with
       | Normal _ =>
           exists tr last,
             trace (m s).2 = trace s ++ tr ++ [last]
             /\ forallb read_event tr = true
             /\ registers mo last = true
       | Raising _ => rel true true read_event s (m s).2
       | Returning _ => False
       end.

(** The body of a [try] under the lock that does not return: it falls through
    only after the one write; before that it leaves the lock and the
    dictionary alone. *)
Definition tail_ok (K : pyval -> Prop) (m : M unit) : Prop :=
  forall s,
    lock_held (m s).2 = lock_held s
    /\ match (m s).1 with
       | Normal _ =>
           exists body, trace (m s).2 = trace s ++ body /\ stored K s (m s).2 body
       | Raising _ => rel true true read_event s (m s).2
       | Returning _ => False
       end.

(** The body of a [try] under the lock that may return [sp] early: then the
    lock and the dictionary are as they were, and [early] holds of the events
    so far. *)
Definition body_ok (sp : pyval) (K : pyval -> Prop) (early : list event -> Prop)
    (m : M unit) : Prop :=
  forall s,
    lock_held (m s).2 = lock_held s
    /\ match (m s).1 with
       | Normal _ =>
           exists body, trace (m s).2 = trace s ++ body /\ stored K s (m s).2 body
       | Raising _ => rel true true read_event s (m s).2
       | Returning v =>
           v = sp /\ rel true true read_event s (m s).2 /\ early (new_events s (m s).2)
       end.

(** A [ModelInfo] whose [local_model_id] satisfies [K], or [None]. *)
Definition info_ok (K : pyval -> Prop) (model_info : info) : Prop :=
  match model_info with
  | Info i => K (local_model_id i)
  | Object o => o = PNone
  end.

(** The callbacks [cbs] keep [K]: given a [ModelInfo] whose [local_model_id]
    satisfies it (or [None]), they return or leave behind one of which the
    same holds (or [None]); in particular they return what their declared
    type allows, a [ModelInfo] or [None]. *)
Definition callbacks_keep (K : pyval -> Prop) (cbs : list F) : Prop :=
  forall cb kind model_info w,
    In cb cbs -> info_ok K model_info ->
    info_ok K (round_result model_info (run_callback cb kind model_info w).1).

(** What the [try ... finally] of a handler has done between [s] and [s']
    whatever the callbacks do: it took the lock and released it, around events
    that do not touch the lock. *)
Definition locked (s s' : state) : Prop :=
  lock_held s' = false
  /\ exists body,
       trace s' = trace s ++ Acquire :: body ++ [Release]
       /\ forallb inner_event body = true.

(** What the [try ... finally] of a handler has done between [s] and [s']
    when the callbacks keep [K]: under the lock it stored the model, or it
    left the dictionary alone and ended with the debug message or as [early]
    says. *)
Definition tracked (K : pyval -> Prop) (early : list event -> Prop) (s s' : state) : Prop :=
  lock_held s' = false
  /\ exists body,
       trace s' = trace s ++ Acquire :: body ++ [Release]
       /\ ((cache s' = cache s /\ forallb read_event body = true
            /\ (early body \/ logged body))
           \/ stored K s s' body).

(** The body of a handler: before it touches the lock it returns [sp] or
    raises an exception of which [Ev] holds in the world it was called in;
    after its [try ... finally], of which [L] holds, it returns [sp]. *)
Definition ends (sp : pyval) (Ev : W -> exn -> Prop) (L : state -> state -> Prop)
    (m : M pyval) : Prop :=
  forall s,
    (rel true true quiet_event s (m s).2
     /\ ((m s).1 = Returning sp \/ exists e, (m s).1 = Raising e /\ Ev (world s) e))
    \/ ((m s).1 = Returning sp
        /\ exists s1, rel true true quiet_event s s1 /\ L s1 (m s).2).

(** What a call of a handler has done to the dictionary between [s] and [s'].
    Either the dictionary is as it was, and then the lock was never taken, or
    the events under it end with the debug message of the [except] clause or
    are as [early] says; or the events under the lock end with the one write
    of the handler. *)
Definition outcome (K : pyval -> Prop) (early : list event -> Prop) (s s' : state) : Prop :=
  (cache s' = cache s
   /\ writes (new_events s s') = []
   /\ (forallb quiet_event (new_events s s') = true
       \/ exists q body,
            new_events s s' = q ++ Acquire :: body ++ [Release]
            /\ forallb quiet_event q = true
            /\ (early body \/ logged body)))
  \/ exists q body,
       new_events s s' = q ++ Acquire :: body ++ [Release]
       /\ forallb quiet_event q = true
       /\ stored K s s' body.

(** What the handlers let through, each before it takes the lock:
    [os.path.abspath] raised something other than [TypeError] (line 207),
    reading [local_model_path] of what a pre callback returned in place of a
    [ModelInfo] raised (line 233), reading [task.id] raised (line 360). *)
Definition abspath_raises (path : pyval) (w : W) (e : exn) : Prop :=
  truthy path = true /\ (oracle pyval (Abspath path) w).1 = inl e /\ e <> TypeError.

Definition callback_result_raises (e : exn) : Prop :=
  exists cb kind given w o w',
    In cb pre_callbacks
    /\ (run_callback cb kind given w).1 = CbReturned (Object o)
    /\ is_none o = false
    /\ (oracle pyval (Attr o "local_model_path") w').1 = inl e.

Definition task_id_raises (task : pyval) (w : W) (e : exn) : Prop :=
  is_none task = false /\ (oracle pyval (Attr task "id") w).1 = inl e.

(** What [model_info] holds after the pre callbacks of [restore_weights_file]:
    a [ModelInfo], [None], or an object that one of them returned. *)
Definition from_pre (x : info) : Prop :=
  match x with
  | Info _ => True
  | Object o =>
      is_none o = true
      \/ exists cb kind given w,
           In cb pre_callbacks /\ (run_callback cb kind given w).1 = CbReturned (Object o)
  end.

(** *** What a call may emit *)

(** A call of the function that [_patched_call] replaced. *)
Definition is_original (ev : event) : bool :=
  match ev with
  | Called c _ => match c with Original_fn _ _ => true | _ => false end
  | _ => false
  end.

(** Creating an output model, handing weights to it, and looking for a
    registered model to base it on. *)
Definition saves (ev : event) : bool :=
  match ev with
  | Called c _ =>
      match c with
      | OutputModel _ _ _ _ _ _ _ | Update_weights_package _ _ _
      | Update_weights_upload _ _ _ | Update_weights_register _ _ _
      | Mkstemp | Os_close _ | Shutil_copy _ _
      | InputModel_load_model _ | Info_found_existing _ _
      | Is_dir _ | Rglob _ | Glob_siblings _ | Pytorch_lightning_loaded => true
      | _ => false
      end
  | _ => false
  end.

(** Building an input model from an id, importing one, and connecting a model
    to the task. *)
Definition loads (ev : event) : bool :=
  match ev with
  | Called c _ =>
      match c with
      | InputModel _ | InputModel_import_model _ _ _ _ _ _ | Task_connect _ _
      | Getattr_name _ => true
      | _ => false
      end
  | _ => false
  end.

(** Importing a model anew. *)
Definition imports (ev : event) : bool :=
  match ev with
  | Called c _ => match c with InputModel_import_model _ _ _ _ _ _ => true | _ => false end
  | _ => false
  end.

(** What happens before a handler starts to track a model: reading
    [task.id], the lock, [os.path.abspath], the look at the file system, the
    callbacks, and the debug message. *)
Definition untracked (task : pyval) (ev : event) : bool :=
  match ev with
  | Acquire | Release | Debug _ | CallbackRan _ _ _ => true
  | Called c _ =>
      match c with
      | Is_dir _ | Rglob _ | Glob_siblings _ | Abspath _ => true
      | Attr obj attribute => bool_decide (obj = task /\ attribute = "id")
      | _ => false
      end
  | _ => false
  end.

End WithWorld.

(** *** A concrete world

    The world counts the calls made into it.  A model's [.id] and [.url] are
    ["id-1"] and ["file:///srv/a.cbm"], reading [.config_dict] fails, no
    output storage is configured, and no sibling files are found.  A string
    has none of the attributes read, and the object 8 is a task whose
    deferred initialisation fails when [.id] is read.  [os.path.abspath]
    answers an absolute path with itself; for a relative one it fails as it
    does when the working directory is gone, for the open file 5 it raises
    [TypeError], and for any other object, taken as path-like, it answers a
    path. *)
Definition demo_attr (attribute : string) : exn + pyval :=
  if String.eqb attribute "id" then inr (PStr "id-1")
  else if String.eqb attribute "url" then inr (PStr "file:///srv/a.cbm")
  else if String.eqb attribute "name" then inr (PStr "train")
  else if String.eqb attribute "config_dict" then inl (Failure 1)
  else inr PNone.

Definition demo_abspath (path : pyval) : exn + pyval :=
  match path with
  | PStr (String "/" _) => inr path
  | PStr _ => inl (Failure 2)
  | PObj 5 => inl TypeError
  | PObj _ => inr (PStr "/srv/pathlike.cbm")
  | _ => inl TypeError
  end.

Definition demo_oracle (A : Type) (c : ext A) (w : nat) : (exn + A) * nat :=
  (match c in ext T return exn + T with
   | Getattr_name _ => inr (PStr "net")
   | Attr (PStr _) _ => inl AttributeError
   | Attr (PObj 8) _ => inl (Failure 3)
   | Attr _ attribute => demo_attr attribute
   | Add _ _ => inl TypeError
   | Format_dash _ _ => inr (PStr "train - a")
   | Endswith_part _ => inr false
   | Drop_part v => inr v
   | InputModel _ => inr (PObj 10)
   | InputModel_import_model _ _ _ _ _ _ => inr (PObj 11)
   | InputModel_load_model _ => inr PNone
   | OutputModel _ _ _ _ _ _ _ => inr (PObj 12)
   | Task_get_labels_enumeration _ => inr PNone
   | Task_connect _ _ => inr PNone
   | Update_weights_package _ _ _ => inr PNone
   | Update_weights_upload _ _ _ => inr PNone
   | Update_weights_register _ _ _ => inr PNone
   | Is_dir _ => inr false
   | Rglob _ => inr []
   | Glob_siblings _ => inr []
   | Pytorch_lightning_loaded => inr false
   | Mkstemp => inr (3, "/tmp/.clearml.upload_model_x.tmp")
   | Os_close _ => inr tt
   | Shutil_copy _ _ => inr tt
   | Info_found_existing _ _ => inr tt
   | Original_fn _ _ => inr (PObj 99)
   | Abspath path => demo_abspath path
   | Path_stem_of _ => inr "pathlike"
   | Setattr (PStr _) _ _ => inl AttributeError
   | Setattr _ _ _ => inr tt
   | Hash _ => inr tt
   end, S w).

(** Callback 0 returns what it was given, callback 1 files the model under
    another [local_model_id], callback 2 raises, callback 3 returns [None],
    callback 4 returns a string. *)
Definition demo_callback (cb : nat) (kind : CallbackType) (model_info : info)
    (w : nat) : cb_outcome * nat :=
  match cb, model_info with
  | 1%nat, Info i =>
      (CbReturned
         (Info {| model := model i; upload_filename := upload_filename i;
                  local_model_path := local_model_path i;
                  local_model_id := PStr "alias";
                  framework := framework i; task := task i;
                  weights_object := weights_object i |}), w)
  | 2%nat, Info i => (CbRaised (Failure 2) i, w)
  | 3%nat, _ => (CbReturned (Object PNone), w)
  | 4%nat, _ => (CbReturned (Object (PStr "model.cbm")), w)
  | _, _ => (CbReturned model_info, w)
  end.

Definition demo_start : @state nat := State O false ∅ [].

Definition demo_restore (pre post : list nat) (filepath task : pyval)
  : res pyval * @state nat :=
  function_call
    (restore_weights_file demo_oracle demo_callback pre post
       (PObj 1) filepath (PStr "CatBoost") task)
    demo_start.

Definition demo_create (pre post : list nat) (saved_path task : pyval)
  : res pyval * @state nat :=
  function_call
    (create_output_model demo_oracle demo_callback (fun p => p) (fun p => p) (fun p => p)
       pre post (PObj 1) saved_path (PStr "CatBoost") task true PNone PNone)
    demo_start.

Definition demo_save (pre post : list nat) (current_task f : pyval)
  : res pyval * @state nat :=
  function_call
    (_save demo_oracle demo_callback (fun p => p) (fun p => p) (fun p => p) pre post
       (PStr "CatBoost") current_task (PObj 1) f)
    demo_start.

Definition demo_load (pre post : list nat) (f : pyval) (args : list pyval)
  : res pyval * @state nat :=
  function_call
    (_load demo_oracle demo_callback pre post (PStr "CatBoost")
       (PObj 7) (PObj 2) f args)
    demo_start.

Section WithWorldFacts.

Context {W F : Type}.
Variable oracle : forall A : Type, ext A -> W -> (exn + A) * W.
Variable run_callback : F -> CallbackType -> info -> W -> cb_outcome * W.
Variable path_stem path_name path_absolute : string -> string.
Variable pre_callbacks post_callbacks : list F.
Variable Framework_catboost : pyval.

Local Abbreviation state := (@Handler.state W).
Local Abbreviation M := (@Handler.M W).
Local Abbreviation ret := (Handler.ret (W:=W)).
Local Abbreviation raise := (Handler.raise (W:=W)).
Local Abbreviation return_ := (Handler.return_ (W:=W)).
Local Abbreviation bind := (Handler.bind (W:=W)).
Local Abbreviation try_except := (Handler.try_except (W:=W)).
Local Abbreviation try_finally := (Handler.try_finally (W:=W)).
Local Abbreviation function_call := (Handler.function_call (W:=W)).
Local Abbreviation log := (Handler.log (W:=W)).
Local Abbreviation acquire := (Handler.acquire (W:=W)).
Local Abbreviation release := (Handler.release (W:=W)).
Local Abbreviation debug := (Handler.debug (W:=W)).
Local Abbreviation as_path := (Handler.as_path (W:=W)).
Local Abbreviation first_file := (Handler.first_file (W:=W)).
Local Abbreviation rel := (Handler.rel (W:=W)).
Local Abbreviation sat_at := (Handler.sat_at (W:=W)).
Local Abbreviation sat := (Handler.sat (W:=W)).
Local Abbreviation stored := (Handler.stored (W:=W)).
Local Abbreviation tail_ok := (Handler.tail_ok (W:=W)).
Local Abbreviation locked := (Handler.locked (W:=W)).
Local Abbreviation tracked := (Handler.tracked (W:=W)).
Local Abbreviation ends := (Handler.ends (W:=W)).
Local Abbreviation outcome := (Handler.outcome (W:=W)).
Local Abbreviation new_events := (Handler.new_events (W:=W)).
Local Abbreviation call := (Handler.call oracle).
Local Abbreviation hash_key := (Handler.hash_key oracle).
Local Abbreviation cache_get := (Handler.cache_get oracle).
Local Abbreviation cache_set := (Handler.cache_set oracle).
Local Abbreviation getattr := (Handler.getattr oracle).
Local Abbreviation setattr := (Handler.setattr oracle).
Local Abbreviation read := (Handler.read oracle).
Local Abbreviation write := (Handler.write oracle).
Local Abbreviation read_id_or_path := (Handler.read_id_or_path oracle).
Local Abbreviation add := (Handler.add oracle).
Local Abbreviation format_dash := (Handler.format_dash oracle).
Local Abbreviation endswith_part := (Handler.endswith_part oracle).
Local Abbreviation drop_part := (Handler.drop_part oracle).
Local Abbreviation abspath_or_return := (Handler.abspath_or_return oracle).
Local Abbreviation callback_round := (Handler.callback_round run_callback).
Local Abbreviation run_callbacks := (Handler.run_callbacks run_callback).
Local Abbreviation callbacks_keep := (Handler.callbacks_keep run_callback).
Local Abbreviation restore_locked :=
  (Handler.restore_locked oracle run_callback post_callbacks).
Local Abbreviation restore_weights_file :=
  (Handler.restore_weights_file oracle run_callback pre_callbacks post_callbacks).
Local Abbreviation create_tracked :=
  (Handler.create_tracked oracle run_callback path_stem path_name path_absolute
     pre_callbacks post_callbacks).
Local Abbreviation create_locked :=
  (Handler.create_locked oracle run_callback path_stem path_name path_absolute
     pre_callbacks post_callbacks).
Local Abbreviation create_output_model :=
  (Handler.create_output_model oracle run_callback path_stem path_name
     path_absolute pre_callbacks post_callbacks).
Local Abbreviation _save :=
  (Handler._save oracle run_callback path_stem path_name path_absolute
     pre_callbacks post_callbacks Framework_catboost).
Local Abbreviation _load :=
  (Handler._load oracle run_callback pre_callbacks post_callbacks Framework_catboost).

(** *** The relation between the states of a run *)

Lemma rel_refl kl kc P s : rel kl kc P s s.
Proof. repeat split. exists []. now rewrite app_nil_r. Qed.

Lemma rel_trans kl kc P s1 s2 s3 :
  rel kl kc P s1 s2 -> rel kl kc P s2 s3 -> rel kl kc P s1 s3.
Proof.
  intros (Hl1 & Hc1 & tr1 & Ht1 & Hp1) (Hl2 & Hc2 & tr2 & Ht2 & Hp2).
  split; [|split].
  - intros H. rewrite (Hl2 H). auto.
  - intros H. rewrite (Hc2 H). auto.
  - exists (tr1 ++ tr2). split.
    + now rewrite Ht2, Ht1, app_assoc.
    + now rewrite forallb_app, Hp1, Hp2.
Qed.

Lemma rel_weaken kl kc kl' kc' (P P' : event -> bool) s s' :
  (kl' = true -> kl = true) -> (kc' = true -> kc = true) ->
  (forall ev, P ev = true -> P' ev = true) ->
  rel kl kc P s s' -> rel kl' kc' P' s s'.
Proof.
  intros Hkl Hkc HP (Hl & Hc & tr & Ht & Hp). repeat split; auto.
  exists tr. split; auto. rewrite forallb_forall in *. auto.
Qed.

Lemma rel_log kl kc P ev w s :
  P ev = true -> rel kl kc P s (log ev (State w (lock_held s) (cache s) (trace s))).
Proof. intros H. repeat split. exists [ev]. simpl. now rewrite H. Qed.

Lemma rel_events kl kc P s s' : rel kl kc P s s' -> forallb P (new_events s s') = true.
Proof.
  intros (_ & _ & tr & Ht & Hp). unfold new_events. rewrite Ht.
  now rewrite drop_app_length.
Qed.

Lemma new_events_app s s' tr : trace s' = trace s ++ tr -> new_events s s' = tr.
Proof. unfold new_events. intros ->. apply drop_app_length. Qed.

Lemma quiet_read ev : quiet_event ev = true -> read_event ev = true.
Proof. now destruct ev. Qed.

Lemma read_inner ev : read_event ev = true -> inner_event ev = true.
Proof. now destruct ev. Qed.

(** *** Rules for [sat] *)

Section Rules.

Variable kl kc : bool.
Variable P : event -> bool.

Local Abbreviation R := (rel kl kc P).

Lemma sat_weaken {A} kl' kc' (P' : event -> bool) (Q Q' : A -> Prop) (Rt Rt' : pyval -> Prop)
    (m : M A) :
  (kl' = true -> kl = true) -> (kc' = true -> kc = true) ->
  (forall ev, P ev = true -> P' ev = true) ->
  (forall a, Q a -> Q' a) -> (forall v, Rt v -> Rt' v) ->
  sat R Q Rt m -> sat (rel kl' kc' P') Q' Rt' m.
Proof.
  intros Hkl Hkc HP HQ HRt H s. destruct (H s) as [Hs Hr]. split.
  - eapply rel_weaken; eauto.
  - destruct (m s).1; auto.
Qed.

Lemma sat_ret {A} (Q : A -> Prop) Rt a : Q a -> sat R Q Rt (ret a).
Proof. intros H s. split; [apply rel_refl | exact H]. Qed.

Lemma sat_raise {A} (Q : A -> Prop) Rt e : sat R Q Rt (raise e).
Proof. intros s. split; [apply rel_refl | exact I]. Qed.

Lemma sat_return {A} (Q : A -> Prop) (Rt : pyval -> Prop) v : Rt v -> sat R Q Rt (return_ v).
Proof. intros H s. split; [apply rel_refl | exact H]. Qed.

Lemma sat_at_bind {A B} (Q : B -> Prop) Rt (m : M A) (k : A -> M B) s :
  sat_at R (fun _ => True) Rt m s ->
  (forall a s1, m s = (Normal a, s1) -> sat_at R Q Rt (k a) s1) ->
  sat_at R Q Rt (bind m k) s.
Proof.
  intros [Hs Hr] Hk. unfold Handler.sat_at, Handler.bind in *.
  destruct (m s) as [[a|e|v] s1]; simpl in *; auto.
  destruct (Hk a s1 eq_refl) as [Hs' Hr']. split; [|exact Hr'].
  eapply rel_trans; eauto.
Qed.

Lemma sat_bind {A B} (Q1 : A -> Prop) (Q : B -> Prop) Rt (m : M A) (k : A -> M B) :
  sat R Q1 Rt m -> (forall a, Q1 a -> sat R Q Rt (k a)) -> sat R Q Rt (bind m k).
Proof.
  intros Hm Hk s. unfold Handler.bind. destruct (Hm s) as [Hs Hr].
  unfold Handler.sat_at in *.
  destruct (m s) as [[a|e|v] s1]; simpl in *; auto.
  destruct (Hk a Hr s1) as [Hs' Hr']. split; [|exact Hr'].
  eapply rel_trans; eauto.
Qed.

Lemma sat_bind_any {A B} (Q : B -> Prop) Rt (m : M A) (k : A -> M B) :
  sat R (fun _ => True) Rt m -> (forall a, sat R Q Rt (k a)) -> sat R Q Rt (bind m k).
Proof. intros Hm Hk. eapply sat_bind; eauto. Qed.

Lemma sat_at_try_except {A} (Q : A -> Prop) Rt (m : M A) (h : exn -> M A) s :
  sat_at R Q Rt m s ->
  (forall e s1, m s = (Raising e, s1) -> sat_at R Q Rt (h e) s1) ->
  sat_at R Q Rt (try_except m h) s.
Proof.
  intros [Hs Hr] Hh. unfold Handler.sat_at, Handler.try_except in *.
  destruct (m s) as [[a|e|v] s1]; simpl in *; auto.
  destruct (Hh e s1 eq_refl) as [Hs' Hr']. split; [|exact Hr'].
  eapply rel_trans; eauto.
Qed.

Lemma sat_try_except {A} (Q : A -> Prop) Rt (m : M A) (h : exn -> M A) :
  sat R Q Rt m -> (forall e, sat R Q Rt (h e)) -> sat R Q Rt (try_except m h).
Proof.
  intros Hm Hh s. apply sat_at_try_except; [apply Hm|]. intros e s1 _. apply Hh.
Qed.

Lemma sat_at_try_finally {A} Rt (m : M A) (final : M unit) s :
  sat_at R (fun _ => True) Rt m s ->
  (forall s1, sat_at R (fun _ => True) Rt final s1) ->
  sat_at R (fun _ => True) Rt (try_finally m final) s.
Proof.
  intros [Hs Hr] Hf. unfold Handler.sat_at, Handler.try_finally in *.
  destruct (m s) as [r s1]; simpl in *.
  destruct (Hf s1) as [Hs' Hr'].
  destruct (final s1) as [[[]|e|v] s2]; simpl in *;
    (split; [eapply rel_trans; eauto|]); auto.
Qed.

Lemma sat_try_finally {A} Rt (m : M A) (final : M unit) :
  sat R (fun _ => True) Rt m -> sat R (fun _ => True) Rt final ->
  sat R (fun _ => True) Rt (try_finally m final).
Proof.
  intros Hm Hf s. apply sat_at_try_finally; [apply Hm|]. intros; apply Hf.
Qed.

Lemma sat_at_function_call (m : M pyval) s :
  sat_at R (fun _ => True) (fun _ => True) m s ->
  sat_at R (fun _ => True) (fun _ => True) (function_call m) s.
Proof.
  intros [Hs _]. unfold Handler.sat_at, Handler.function_call.
  destruct (m s) as [[a|e|v] s1]; simpl in *; auto.
Qed.

Lemma sat_function_call (Rt : pyval -> Prop) (m : M pyval) :
  sat R (fun _ => True) (fun _ => True) m ->
  sat R (fun _ => True) Rt (function_call m).
Proof.
  intros Hm s. destruct (Hm s) as [Hs _]. unfold Handler.sat_at, Handler.function_call.
  destruct (m s) as [[a|e|v] s1]; simpl in *; auto.
Qed.

Lemma sat_call {A} (Q : A -> Prop) Rt (c : ext A) :
  (forall answer, P (Called c answer) = true) -> (forall a, Q a) -> sat R Q Rt (call c).
Proof.
  intros HP HQ s. unfold Handler.sat_at, Handler.call.
  destruct (oracle A c (world s)) as [[e|a] w]; simpl;
    (split; [apply rel_log, HP | auto]).
Qed.

Lemma sat_getattr (Q : pyval -> Prop) Rt obj attribute :
  (forall answer, P (Called (Attr obj attribute) answer) = true) -> (forall a, Q a) ->
  sat R Q Rt (getattr obj attribute).
Proof.
  intros HP HQ. unfold Handler.getattr. destruct (is_none obj); [apply sat_raise|].
  now apply sat_call.
Qed.

Lemma sat_setattr (Q : unit -> Prop) Rt obj attribute v :
  (forall answer, P (Called (Setattr obj attribute v) answer) = true) -> (forall a, Q a) ->
  sat R Q Rt (setattr obj attribute v).
Proof.
  intros HP HQ. unfold Handler.setattr. destruct (is_none obj); [apply sat_raise|].
  now apply sat_call.
Qed.

Lemma sat_read (Q : pyval -> Prop) Rt model_info f :
  (forall obj answer, P (Called (Attr obj (field_name f)) answer) = true) ->
  (forall a, Q a) ->
  sat R Q Rt (read model_info f).
Proof.
  intros HP HQ. destruct model_info as [i|o]; simpl.
  - now apply sat_ret.
  - now apply sat_getattr.
Qed.

(** An assignment goes through only on an object that is not [None], and
    leaves a [ModelInfo] with its other attributes as they were. *)
Lemma sat_write (Q : info -> Prop) Rt model_info f v :
  (forall obj answer, P (Called (Setattr obj (field_name f) v) answer) = true) ->
  (forall i, model_info = Info i -> Q (Info (set_field f i v))) ->
  (forall o, model_info = Object o -> is_none o = false -> Q (Object o)) ->
  sat R Q Rt (write model_info f v).
Proof.
  intros HP Hi Ho. destruct model_info as [i|o]; simpl.
  - apply sat_ret. now apply Hi.
  - unfold Handler.setattr. destruct (is_none o) eqn:E.
    + intros s. split; [apply rel_refl | exact I].
    + eapply sat_bind.
      * apply sat_call with (Q := fun _ => True); auto.
      * intros _ _. apply sat_ret. now apply Ho.
Qed.

Lemma sat_hash_key Rt key :
  (forall answer, P (Called (Hash key) answer) = true) ->
  sat R (fun _ => True) Rt (hash_key key).
Proof.
  intros HP. destruct key; simpl;
    first [now apply sat_ret | apply sat_raise | now apply sat_call].
Qed.

Lemma sat_debug Rt e : P (Debug e) = true -> sat R (fun _ => True) Rt (debug e).
Proof.
  intros HP s. unfold Handler.sat_at, Handler.debug. simpl. split; [|exact I].
  destruct s as [w l c t]. now apply (rel_log kl kc P (Debug e) w (State w l c t)).
Qed.

Lemma sat_cache_get (Q : pyval * pyval -> Prop) Rt key :
  (forall answer, P (Called (Hash key) answer) = true) ->
  P (CacheGet key) = true -> (forall a, Q a) -> sat R Q Rt (cache_get key).
Proof.
  intros HH HP HQ. unfold Handler.cache_get. eapply sat_bind_any.
  - now apply sat_hash_key.
  - intros _ s. unfold Handler.sat_at. simpl. split; [|auto].
    destruct s as [w l c t]. now apply (rel_log kl kc P (CacheGet key) w (State w l c t)).
Qed.

Lemma sat_callback_round (Q : info -> Prop) Rt kind cb model_info :
  (forall outcome, P (CallbackRan kind model_info outcome) = true) ->
  (forall w, Q (round_result model_info (run_callback cb kind model_info w).1)) ->
  sat R Q Rt (callback_round kind cb model_info).
Proof.
  intros HP HQ s. unfold Handler.sat_at, Handler.callback_round. specialize (HQ (world s)).
  destruct (run_callback cb kind model_info (world s)) as [outcome w]; simpl in *.
  split; [apply rel_log, HP | exact HQ].
Qed.

(** A callback loop keeps what every round keeps. *)
Lemma sat_run_callbacks (Q : info -> Prop) Rt kind cbs : forall model_info,
  (forall given outcome, P (CallbackRan kind given outcome) = true) ->
  (forall cb given w, In cb cbs -> Q given ->
     Q (round_result given (run_callback cb kind given w).1)) ->
  Q model_info ->
  sat R Q Rt (run_callbacks kind cbs model_info).
Proof.
  induction cbs as [|cb cbs IH]; intros model_info HP Hk Hi; simpl.
  - now apply sat_ret.
  - eapply sat_bind.
    + apply sat_callback_round; [apply HP|]. intros w. apply Hk; [now left | exact Hi].
    + intros r Hr. apply IH; auto. intros cb' given w' Hin. apply Hk. now right.
Qed.

End Rules.

Lemma sat_acquire kc P Rt :
  P Acquire = true -> sat (rel false kc P) (fun _ => True) Rt acquire.
Proof.
  intros HP s. split; [|exact I]. repeat split; try discriminate.
  exists [Acquire]. simpl. now rewrite HP.
Qed.

Lemma sat_release kc P Rt :
  P Release = true -> sat (rel false kc P) (fun _ => True) Rt release.
Proof.
  intros HP s. unfold Handler.sat_at, Handler.release. destruct (lock_held s); simpl.
  - split; [|exact I]. repeat split; try discriminate. exists [Release]. simpl. now rewrite HP.
  - split; [apply rel_refl | exact I].
Qed.

Lemma sat_cache_set kl P Rt key entry :
  (forall answer, P (Called (Hash key) answer) = true) ->
  P (CacheSet key entry) = true ->
  sat (rel kl false P) (fun _ => True) Rt (cache_set key entry).
Proof.
  intros HH HP. unfold Handler.cache_set. eapply sat_bind_any.
  - now apply sat_hash_key.
  - intros _ s. split; [|exact I]. repeat split; try discriminate.
    exists [CacheSet key entry]. simpl. now rewrite HP.
Qed.

Lemma run_callbacks_falls_through kind cbs : forall model_info s e,
  (run_callbacks kind cbs model_info s).1 <> Raising e.
Proof.
  induction cbs as [|cb cbs IH]; intros model_info s e; simpl; [discriminate|].
  unfold Handler.bind, Handler.callback_round.
  destruct (run_callback cb kind model_info (world s)) as [outcome w]. apply IH.
Qed.

Ltac sat_side := intros; first [exact I | reflexivity | assumption].

(** The rules, applied along the syntax of a block. *)
Ltac sat_step :=
  match goal with
  | |- Handler.sat _ _ _ (Handler.ret _) => apply sat_ret; exact I
  | |- Handler.sat _ _ _ (Handler.raise _) => apply sat_raise
  | |- Handler.sat _ _ _ (Handler.return_ _) => apply sat_return; sat_side
  | |- Handler.sat _ _ _ (Handler.call _ _) => apply sat_call; sat_side
  | |- Handler.sat _ _ _ (Handler.getattr _ _ _) => apply sat_getattr; sat_side
  | |- Handler.sat _ _ _ (Handler.setattr _ _ _ _) => apply sat_setattr; sat_side
  | |- Handler.sat _ _ _ (Handler.read _ _ _) => apply sat_read; sat_side
  | |- Handler.sat _ _ _ (Handler.write _ _ _ _) => apply sat_write; sat_side
  | |- Handler.sat _ _ _ (Handler.hash_key _ _) => apply sat_hash_key; sat_side
  | |- Handler.sat _ _ _ (Handler.cache_get _ _) => apply sat_cache_get; sat_side
  | |- Handler.sat _ _ _ (Handler.cache_set _ _ _) => apply sat_cache_set; sat_side
  | |- Handler.sat _ _ _ Handler.acquire => apply sat_acquire; sat_side
  | |- Handler.sat _ _ _ Handler.release => apply sat_release; sat_side
  | |- Handler.sat _ _ _ (Handler.debug _) => apply sat_debug; sat_side
  | |- Handler.sat _ _ _ (Handler.run_callbacks _ _ _ _) =>
      apply sat_run_callbacks; sat_side
  | |- Handler.sat _ _ _ (Handler.try_except _ _) =>
      apply sat_try_except; [ | intros; cbv beta ]
  | |- Handler.sat _ _ _ (Handler.try_finally _ _) => apply sat_try_finally
  | |- Handler.sat _ _ _ (Handler.function_call _) => apply sat_function_call
  | |- Handler.sat _ _ _ (Handler.bind _ _) => apply sat_bind_any; [ | intros; cbv beta ]
  | |- Handler.sat _ _ _ (Handler.read_id_or_path _ _) => unfold Handler.read_id_or_path
  | |- Handler.sat _ _ _ (Handler.abspath_or_return _ _) =>
      unfold Handler.abspath_or_return
  | |- Handler.sat _ _ _ (Handler.add _ _ _) => unfold Handler.add
  | |- Handler.sat _ _ _ (Handler.as_path _) => unfold Handler.as_path
  | |- Handler.sat _ _ _ (Handler.stem_of _ _ _) => unfold Handler.stem_of
  | |- Handler.sat _ _ _ (Handler.format_dash _ _ _) => unfold Handler.format_dash
  | |- Handler.sat _ _ _ (Handler.first_file _) => unfold Handler.first_file
  | |- Handler.sat _ _ _ (Handler.endswith_part _ _) => unfold Handler.endswith_part
  | |- Handler.sat _ _ _ (Handler.drop_part _ _) => unfold Handler.drop_part
  | |- Handler.sat _ _ _ (if ?b then _ else _) => destruct b
  | |- Handler.sat _ _ _ (match ?x with _ => _ end) => destruct x
  end.

Ltac sat_auto := repeat sat_step.

(** *** The last statements under the lock *)

Local Abbreviation hands_over := (Handler.hands_over (W:=W)).
Local Abbreviation body_ok := (Handler.body_ok (W:=W)).

Lemma hands_over_call mo (c : ext pyval) :
  (forall a, registers mo (Called c (inr a)) = true) -> hands_over mo (call c).
Proof.
  intros Hreg s. unfold Handler.call.
  destruct (oracle pyval c (world s)) as [[e|a] w]; simpl.
  - split; [reflexivity|]. split; [reflexivity|]. now apply rel_log.
  - split; [reflexivity|]. split; [reflexivity|].
    exists [], (Called c (inr a)). auto.
Qed.

Lemma hands_over_bind mo {A B} (m : M A) (k : A -> M B) :
  sat (rel true true read_event) (fun _ => True) (fun _ => False) m ->
  (forall a, hands_over mo (k a)) ->
  hands_over mo (bind m k).
Proof.
  intros Hm Hk s. unfold Handler.bind. destruct (Hm s) as [Hs Hr].
  unfold Handler.sat_at in *.
  destruct (m s) as [[a|e|v] s1]; simpl in *; [| |contradiction].
  - destruct (Hk a s1) as (Hl & Hc & Ht). destruct Hs as (Hl1 & Hc1 & tr1 & Ht1 & Hp1).
    split; [rewrite Hl; auto|]. split; [rewrite Hc; auto|].
    destruct (k a s1) as [[b|e|v] s2]; simpl in *; [| |contradiction].
    + destruct Ht as (tr & last & Htr & Hp & Hreg).
      exists (tr1 ++ tr), last. split; [|split; [|exact Hreg]].
      * rewrite Htr, Ht1. now rewrite !app_assoc.
      * now rewrite forallb_app, Hp1, Hp.
    + eapply rel_trans; [|exact Ht]. repeat split; eauto.
  - destruct Hs as (Hl1 & Hc1 & Ht1). repeat split; auto.
Qed.

(** Lines 334-337 and 538-541, for a [ModelInfo]:
    [Model._local_model_to_id_uri[model_info.local_model_id] = (m.id, m.url)]. *)
Lemma write_tail mo i s :
  let m := bind (getattr mo "id") (fun id =>
           bind (getattr mo "url") (fun url =>
           bind (read (Info i) f_local_model_id) (fun key => cache_set key (id, url)))) in
  lock_held (m s).2 = lock_held s
  /\ match (m s).1 with
     | Normal _ =>
         exists id url,
           trace (m s).2
           = trace s ++ [Called (Attr mo "id") (inr id); Called (Attr mo "url") (inr url)]
                     ++ hashing (local_model_id i) ++ [CacheSet (local_model_id i) (id, url)]
           /\ cache (m s).2 = <[local_model_id i := (id, url)]> (cache s)
     | Raising _ => rel true true read_event s (m s).2
     | Returning _ => False
     end.
Proof.
  cbv zeta. unfold Handler.bind, Handler.getattr, Handler.read, Handler.ret.
  destruct (is_none mo); [split; [reflexivity | apply rel_refl]|].
  unfold Handler.call. destruct (oracle pyval (Attr mo "id") (world s)) as [[e|id] w1]; simpl.
  { split; [reflexivity|]. now apply rel_log. }
  destruct (oracle pyval (Attr mo "url") w1) as [[e|url] w2]; simpl.
  { split; [reflexivity|]. repeat split. eexists [_; _].
    split; [simpl; now rewrite <- app_assoc | reflexivity]. }
  unfold Handler.cache_set, Handler.bind, Handler.hash_key, Handler.call, Handler.ret,
    Handler.raise.
  destruct (local_model_id i) as [|k|b|d|o] eqn:Ek; simpl.
  1-3: split; [reflexivity|]; exists id, url;
    (split; [now rewrite <- !app_assoc | reflexivity]).
  - split; [reflexivity|]. repeat split. eexists [_; _].
    split; [simpl; now rewrite <- app_assoc | reflexivity].
  - destruct (oracle unit (Hash (PObj o)) w2) as [[e|[]] w3]; simpl.
    + split; [reflexivity|]. repeat split. eexists [_; _; _].
      split; [simpl; now rewrite <- !app_assoc | reflexivity].
    + split; [reflexivity|]. exists id, url.
      split; [now rewrite <- !app_assoc | reflexivity].
Qed.

Lemma tail_write K mo i {A} (m : M A) :
  K (local_model_id i) -> hands_over mo m ->
  tail_ok K
    (bind m (fun _ =>
     bind (getattr mo "id") (fun id =>
     bind (getattr mo "url") (fun url =>
     bind (read (Info i) f_local_model_id) (fun key => cache_set key (id, url)))))).
Proof.
  intros HK Hm s.
  match goal with |- context [Handler.bind m ?k0 s] => set (k := k0) end.
  assert (bind m k s
          = match m s with
            | (Normal a, s1) => k a s1
            | (Raising e, s1) => (Raising e, s1)
            | (Returning v, s1) => (Returning v, s1)
            end) as -> by reflexivity.
  destruct (Hm s) as (Hl & Hc & Ht).
  destruct (m s) as [[a|e|v] s1]; cbn [fst snd] in *; [| |contradiction].
  - subst k. cbv beta.
    pose proof (write_tail mo i s1) as Hw. cbv zeta in Hw. destruct Hw as [Hl' Hw].
    split; [rewrite Hl'; exact Hl|].
    destruct Ht as (tr & last & Htr & Hp & Hreg).
    match type of Hw with match (?t).1 with _ => _ end => destruct t as [[[]|e|v] s2] end;
      cbn [fst snd] in *; [| |contradiction].
    + destruct Hw as (id & url & Htr2 & Hc2).
      eexists. split.
      * rewrite Htr2, Htr. rewrite <- !app_assoc. reflexivity.
      * exists (local_model_id i), mo, id, url, tr, last.
        split; [exact HK|]. split; [exact Hreg|]. split; [reflexivity|].
        split; [exact Hp|]. now rewrite Hc2, Hc.
    + eapply rel_trans; [|exact Hw]. repeat split; auto.
      exists (tr ++ [last]). split; [now rewrite Htr|].
      rewrite forallb_app, Hp. simpl. rewrite andb_true_r.
      destruct last as [| | | |T c [e'|a']| |]; try discriminate. reflexivity.
  - split; [exact Hl | exact Ht].
Qed.

Lemma tail_bind {A} K (Q : A -> Prop) (m : M A) (k : A -> M unit) :
  sat (rel true true read_event) Q (fun _ => False) m ->
  (forall a, Q a -> tail_ok K (k a)) ->
  tail_ok K (bind m k).
Proof.
  intros Hm Hk s. unfold Handler.bind. destruct (Hm s) as [Hs Hr].
  unfold Handler.sat_at in *.
  destruct (m s) as [[a|e|v] s1]; simpl in *; [| |contradiction].
  - destruct (Hk a Hr s1) as [Hl Ht]. destruct Hs as (Hl1 & Hc1 & tr1 & Ht1 & Hp1).
    split; [rewrite Hl; auto|].
    destruct (k a s1) as [[[]|e|v] s2]; simpl in *; [| |contradiction].
    + destruct Ht as (body & Hbody & key & mo & id & url & tr & last & HK & Hreg & -> & Hp & Hc).
      eexists. split; [rewrite Hbody, Ht1; now rewrite <- app_assoc|].
      exists key, mo, id, url, (tr1 ++ tr), last.
      split; [exact HK|]. split; [exact Hreg|]. split; [now rewrite <- app_assoc|].
      split; [now rewrite forallb_app, Hp1, Hp|]. rewrite Hc. now rewrite Hc1.
    + eapply rel_trans; [|exact Ht]. repeat split; eauto.
  - destruct Hs as (Hl1 & Hc1 & Ht1). split; [auto|]. repeat split; auto.
Qed.

Lemma tail_bind_any {A} K (m : M A) (k : A -> M unit) :
  sat (rel true true read_event) (fun _ => True) (fun _ => False) m ->
  (forall a, tail_ok K (k a)) ->
  tail_ok K (bind m k).
Proof. intros Hm Hk. eapply tail_bind; eauto. Qed.

Lemma tail_raise K e : tail_ok K (raise e).
Proof. intros s. split; [reflexivity | apply rel_refl]. Qed.

(** Reading an attribute of [None] raises. *)
Lemma tail_read_none K f (k : pyval -> M unit) :
  tail_ok K (bind (read (Object PNone) f) k).
Proof. intros s. split; [reflexivity | apply rel_refl]. Qed.

Lemma tail_write_none K f v (k : info -> M unit) :
  tail_ok K (bind (write (Object PNone) f v) k).
Proof. intros s. split; [reflexivity | apply rel_refl]. Qed.

(** *** The body of a handler *)

Lemma ends_return sp Ev L : ends sp Ev L (return_ sp).
Proof. intros s. left. split; [apply rel_refl | now left]. Qed.

Lemma ends_bind {A} sp (Ev : W -> exn -> Prop) (Ev0 : exn -> Prop) L (Q : A -> Prop)
    (m : M A) (k : A -> M pyval) :
  sat (rel true true quiet_event) Q (fun v => v = sp) m ->
  (forall s e, (m s).1 = Raising e -> Ev (world s) e) ->
  (forall a, Q a -> ends sp (fun _ => Ev0) L (k a)) ->
  (forall w e, Ev0 e -> Ev w e) ->
  ends sp Ev L (bind m k).
Proof.
  intros Hm Hraise Hk Hev s. unfold Handler.bind. destruct (Hm s) as [Hs Hr].
  specialize (Hraise s). unfold Handler.sat_at in *.
  destruct (m s) as [[a|e|v] s1]; simpl in *.
  - destruct (Hk a Hr s1) as [[Hq He]|(Hret & s2 & Hq & HL)].
    + left. split; [eapply rel_trans; eauto|].
      destruct He as [He|(e & He & Hev0)]; [now left|]. right. exists e. auto.
    + right. split; [exact Hret|]. exists s2. split; [eapply rel_trans; eauto | exact HL].
  - left. split; [exact Hs|]. right. exists e. auto.
  - subst v. left. split; [exact Hs | now left].
Qed.

(** The [try ... except ... finally] of a handler around a body that keeps
    its hands off the lock. *)
Lemma ends_locked sp Ev (body : M unit) :
  sat (rel true false inner_event) (fun _ => True) (fun v => v = sp) body ->
  ends sp Ev locked
    (bind (try_finally (try_except (bind acquire (fun _ => body)) debug) release)
          (fun _ => return_ sp)).
Proof.
  intros Hb s.
  unfold Handler.bind, Handler.try_finally, Handler.try_except, Handler.acquire,
    Handler.release, Handler.debug, Handler.return_.
  set (s0 := log Acquire (State (world s) true (cache s) (trace s))).
  destruct (Hb s0) as [(Hl & _ & tr & Htr & Hp) Hr]. specialize (Hl eq_refl).
  simpl in Hl. unfold Handler.sat_at in Hr.
  right.
  destruct (body s0) as [[[]|e|v] s1]; simpl in *; rewrite ?Hl; simpl.
  - split; [reflexivity|]. exists s. split; [apply rel_refl|].
    split; [reflexivity|]. exists tr. split; [|exact Hp].
    rewrite Htr. simpl. now rewrite <- !app_assoc.
  - split; [reflexivity|]. exists s. split; [apply rel_refl|].
    split; [reflexivity|]. exists (tr ++ [Debug e]). split.
    + rewrite Htr. simpl. now rewrite <- !app_assoc.
    + rewrite forallb_app, Hp. reflexivity.
  - subst v. split; [reflexivity|]. exists s. split; [apply rel_refl|].
    split; [reflexivity|]. exists tr. split; [|exact Hp].
    rewrite Htr. simpl. now rewrite <- !app_assoc.
Qed.

(** The same around a body that stores the model when it falls through. *)
Lemma ends_tracked sp Ev K early (body : M unit) :
  body_ok sp K early body ->
  ends sp Ev (tracked K early)
    (bind (try_finally (try_except (bind acquire (fun _ => body)) debug) release)
          (fun _ => return_ sp)).
Proof.
  intros Hb s.
  unfold Handler.bind, Handler.try_finally, Handler.try_except, Handler.acquire,
    Handler.release, Handler.debug, Handler.return_.
  set (s0 := log Acquire (State (world s) true (cache s) (trace s))).
  destruct (Hb s0) as [Hl Ht]. simpl in Hl.
  right.
  destruct (body s0) as [[[]|e|v] s1]; simpl in *; rewrite ?Hl; simpl.
  - split; [reflexivity|]. exists s. split; [apply rel_refl|].
    split; [reflexivity|]. destruct Ht as (tr & Htr & Hst). exists tr. split.
    + rewrite Htr. simpl. now rewrite <- !app_assoc.
    + right. exact Hst.
  - split; [reflexivity|]. exists s. split; [apply rel_refl|].
    split; [reflexivity|]. destruct Ht as (_ & Hc & tr & Htr & Hp).
    exists (tr ++ [Debug e]). split.
    + rewrite Htr. simpl. now rewrite <- !app_assoc.
    + left. split; [now apply Hc|]. split; [now rewrite forallb_app, Hp|].
      right. now exists tr, e.
  - destruct Ht as (-> & (_ & Hc & tr & Htr & Hp) & Hearly).
    split; [reflexivity|]. exists s. split; [apply rel_refl|].
    split; [reflexivity|]. exists tr. split.
    + rewrite Htr. simpl. now rewrite <- !app_assoc.
    + left. split; [now apply Hc|]. split; [exact Hp|]. left.
      rewrite (new_events_app _ _ _ Htr) in Hearly. exact Hearly.
Qed.

Lemma tail_body sp K early (m : M unit) : tail_ok K m -> body_ok sp K early m.
Proof.
  intros H s. destruct (H s) as [Hl Ht]. split; [exact Hl|].
  destruct (m s).1; [exact Ht | exact Ht | contradiction].
Qed.

Ltac tail_step :=
  match goal with
  | |- Handler.tail_ok _ (Handler.raise _) => apply tail_raise
  | |- Handler.tail_ok _ (Handler.bind (Handler.run_callbacks _ _ _ _) _) => fail 1
  | |- Handler.tail_ok _ (Handler.bind (Handler.write _ _ _ _) _) => fail 1
  | |- Handler.tail_ok _
         (Handler.bind _ (fun _ => Handler.bind (Handler.getattr _ _ "id") _)) => fail 1
  | |- Handler.tail_ok _ (Handler.bind _ _) =>
      apply tail_bind_any; [ solve [sat_auto] | intros; cbv beta ]
  | |- Handler.tail_ok _ (if ?b then _ else _) => destruct b
  | |- Handler.tail_ok _ (match ?x with _ => _ end) => destruct x
  end.

Ltac tail_auto := repeat tail_step.

Ltac hands_step :=
  match goal with
  | |- Handler.hands_over _ (Handler.call _ _) => apply hands_over_call; intros; simpl;
                                          apply bool_decide_eq_true_2; reflexivity
  | |- Handler.hands_over _ (Handler.bind _ _) =>
      apply hands_over_bind; [ solve [sat_auto] | intros; cbv beta ]
  | |- Handler.hands_over _ (if ?b then _ else _) => destruct b
  | |- Handler.hands_over _ (match ?x with _ => _ end) => destruct x
  end.

Ltac hands_auto := repeat hands_step.

(** What the callbacks keep is kept by a loop over them. *)
Lemma sat_callbacks_keep kl kc (P : event -> bool) Rt K kind cbs model_info :
  (forall given outcome, P (CallbackRan kind given outcome) = true) ->
  callbacks_keep K cbs -> info_ok K model_info ->
  sat (rel kl kc P) (info_ok K) Rt (run_callbacks kind cbs model_info).
Proof.
  intros HP Hk Hi. apply sat_run_callbacks; auto.
Qed.

Lemma sat_write_keep kl kc (P : event -> bool) Rt K model_info f v :
  f = f_model \/ f = f_weights_object ->
  info_ok K model_info ->
  sat (rel kl kc P) (fun x => info_ok K x /\ exists i, x = Info i) Rt
    (write model_info f v).
Proof.
  intros Hf Hi. destruct model_info as [i|o]; simpl in *.
  - apply sat_ret. split; [|eauto]. now destruct Hf as [-> | ->].
  - subst o. intros s. split; [apply rel_refl | exact I].
Qed.

Lemma tail_bind_ret {A} K (a : A) (k : A -> M unit) :
  tail_ok K (k a) -> tail_ok K (bind (ret a) k).
Proof. intros H s. exact (H s). Qed.

Local Abbreviation from_pre := (Handler.from_pre run_callback pre_callbacks).

Lemma abspath_or_return_raises v s e :
  (abspath_or_return v s).1 = Raising e -> abspath_raises oracle v (world s) e.
Proof.
  unfold Handler.abspath_or_return, Handler.try_except, Handler.call, Handler.abspath_raises.
  destruct (truthy v); [|discriminate].
  destruct (oracle pyval (Abspath v) (world s)) as [[e'|p] w]; simpl; [|discriminate].
  destruct e'; simpl; intros [= <-]; repeat split; discriminate.
Qed.

(** *** The two handlers, whatever the callbacks do *)

Lemma restore_block_locked sp Ev model framework task model_info :
  ends sp Ev locked
    (bind (try_finally
             (try_except (restore_locked model framework task model_info) debug)
             release)
          (fun _ => return_ sp)).
Proof. unfold Handler.restore_locked. apply ends_locked. sat_auto. Qed.

Lemma create_block_locked sp Ev model framework task singlefile model_name config_obj :
  ends sp Ev locked
    (bind (try_finally
             (try_except
                (create_locked model sp framework task singlefile model_name config_obj)
                debug)
             release)
          (fun _ => return_ sp)).
Proof.
  unfold Handler.create_locked, Handler.create_tracked. apply ends_locked. cbv zeta.
  sat_auto.
Qed.

Lemma restore_weights_file_ends model filepath framework task :
  ends filepath
    (fun w e => abspath_raises oracle filepath w e
                \/ callback_result_raises oracle run_callback pre_callbacks e)
    locked
    (restore_weights_file model filepath framework task).
Proof.
  unfold Handler.restore_weights_file.
  destruct (is_none task); [apply ends_return|].
  eapply ends_bind with (Q := fun _ => True)
                        (Ev0 := callback_result_raises oracle run_callback pre_callbacks).
  - sat_auto.
  - intros s e H. left. now apply abspath_or_return_raises.
  - intros local_model_path _. cbv zeta.
    eapply ends_bind with (Q := from_pre)
                          (Ev0 := callback_result_raises oracle run_callback pre_callbacks).
    + apply sat_run_callbacks; [reflexivity | | exact I].
      intros cb given w Hin Hg. unfold round_result.
      destruct (run_callback cb load given w) as [[[i|o]|e left_as] w'] eqn:E; simpl.
      * exact I.
      * right. exists cb, load, given, w. rewrite E. auto.
      * destruct given; [exact I | exact Hg].
    + intros s e H. now apply run_callbacks_falls_through in H.
    + intros model_info Hfrom.
      destruct (info_is_none model_info) eqn:Enone; [apply ends_return|].
      eapply ends_bind with (Q := fun _ => True)
                            (Ev0 := callback_result_raises oracle run_callback pre_callbacks).
      * sat_auto.
      * intros s e. destruct model_info as [i|o]; simpl; [discriminate|].
        unfold Handler.getattr, Handler.call.
        destruct (is_none o) eqn:Eo; [now destruct o|].
        destruct Hfrom as [Hn|(cb & kind & given & w & Hin & Hcb)]; [congruence|].
        destruct (oracle pyval (Attr o "local_model_path") (world s)) as [[e'|a] w'] eqn:Eor;
          simpl; [|discriminate].
        intros [= <-]. exists cb, kind, given, w, o, (world s). rewrite Eor. auto.
      * intros path _. destruct (negb (truthy path)); [apply ends_return|].
        apply restore_block_locked.
      * auto.
    + auto.
  - intros w e H. now right.
Qed.

Lemma create_output_model_ends model saved_path framework task singlefile model_name
    config_obj :
  ends saved_path (task_id_raises oracle task) locked
    (create_output_model model saved_path framework task singlefile model_name config_obj).
Proof.
  unfold Handler.create_output_model.
  destruct (is_none task) eqn:Etask; [apply ends_return|].
  eapply ends_bind with (Q := fun _ => True) (Ev0 := fun _ => False).
  - sat_auto.
  - intros s e. unfold Handler.getattr, Handler.call, Handler.task_id_raises.
    rewrite Etask.
    destruct (oracle pyval (Attr task "id") (world s)) as [[e'|a] w'] eqn:Eor;
      simpl; [|discriminate].
    intros [= <-]. auto.
  - intros _ _. apply create_block_locked.
  - intros w e [].
Qed.

(** *** The two handlers, when the callbacks keep [K] *)

Lemma restore_block_tracked K sp Ev early model framework task i :
  callbacks_keep K post_callbacks -> K (local_model_id i) ->
  ends sp Ev (tracked K early)
    (bind (try_finally
             (try_except (restore_locked model framework task (Info i)) debug)
             release)
          (fun _ => return_ sp)).
Proof.
  intros Hk Hi. unfold Handler.restore_locked. apply ends_tracked, tail_body.
  tail_auto.
  all: (eapply tail_bind;
        [ apply sat_write_keep with (K := K); [now left | exact Hi]
        | intros x [Hx [i1 ->]]; cbv beta ]).
  all: (eapply tail_bind;
        [ apply sat_callbacks_keep with (K := K); [reflexivity | exact Hk | exact Hx]
        | intros [i2|o] Hx2; cbv beta;
          [| simpl in Hx2; subst o; apply tail_read_none] ]).
  all: simpl Handler.read at 1; apply tail_bind_ret.
  all: apply tail_write; [exact Hx2|]; hands_auto.
Qed.

Lemma restore_weights_file_tracked K model filepath framework task :
  callbacks_keep K (pre_callbacks ++ post_callbacks) -> K filepath ->
  ends filepath (abspath_raises oracle filepath) (tracked K (fun _ => False))
    (restore_weights_file model filepath framework task).
Proof.
  intros Hk Hi. unfold Handler.restore_weights_file.
  destruct (is_none task); [apply ends_return|].
  eapply ends_bind with (Q := fun _ => True) (Ev0 := fun _ => False).
  - sat_auto.
  - intros s e H. now apply abspath_or_return_raises.
  - intros local_model_path _. cbv zeta.
    eapply ends_bind with (Q := info_ok K) (Ev0 := fun _ => False).
    + apply sat_callbacks_keep; [reflexivity | | exact Hi].
      intros cb kind mi w Hin. apply Hk, in_or_app. now left.
    + intros s e H. now apply run_callbacks_falls_through in H.
    + intros [i|o] Hinfo; simpl in Hinfo; [|subst o; apply ends_return].
      simpl info_is_none. cbv iota.
      eapply ends_bind with (Q := fun _ => True) (Ev0 := fun _ => False).
      * sat_auto.
      * intros s e. discriminate.
      * intros path _. destruct (negb (truthy path)); [apply ends_return|].
        apply restore_block_tracked; [|exact Hinfo].
        intros cb kind mi w Hin. apply Hk, in_or_app. now right.
      * auto.
    + auto.
  - intros w e [].
Qed.

Lemma create_tracked_tail K model framework task singlefile model_name config_obj
    saved_path i :
  callbacks_keep K (pre_callbacks ++ post_callbacks) -> K (local_model_id i) ->
  tail_ok K
    (create_tracked model framework task singlefile model_name config_obj saved_path i).
Proof.
  intros Hk Hi. unfold Handler.create_tracked. cbv zeta.
  assert (callbacks_keep K pre_callbacks) as Hpre
    by (intros cb kind mi w Hin; apply Hk, in_or_app; now left).
  assert (callbacks_keep K post_callbacks) as Hpost
    by (intros cb kind mi w Hin; apply Hk, in_or_app; now right).
  tail_auto.
  all: (eapply tail_bind;
        [ apply sat_callbacks_keep with (K := K); [reflexivity | exact Hpre | exact Hi]
        | intros x Hx; cbv beta ]).
  all: (eapply tail_bind;
        [ apply sat_write_keep with (K := K); [now right | exact Hx]
        | intros x1 [Hx1 [i1 ->]]; cbv beta ]).
  all: simpl info_is_none; cbv iota.
  all: tail_auto.
  all: (eapply tail_bind;
        [ apply sat_write_keep with (K := K); [now left | exact Hx1]
        | intros x2 [Hx2 [i2 ->]]; cbv beta ]).
  all: (eapply tail_bind;
        [ apply sat_write_keep with (K := K); [now right | exact Hx2]
        | intros x3 [Hx3 [i3 ->]]; cbv beta ]).
  all: (eapply tail_bind;
        [ apply sat_callbacks_keep with (K := K); [reflexivity | exact Hpost | exact Hx3]
        | intros x4 Hx4; cbv beta ]).
  all: (eapply tail_bind;
        [ apply sat_write_keep with (K := K); [now right | exact Hx4]
        | intros x5 [Hx5 [i5 ->]]; cbv beta ]).
  all: tail_auto.
  all: apply tail_write; [exact Hx5|]; hands_auto.
Qed.

(** How lines 377-381 go on from a state. *)
Lemma abspath_or_return_cases v s :
  (truthy v = false /\ abspath_or_return v s = (Normal v, s))
  \/ (exists w,
        abspath_or_return v s
        = (Returning v,
           log (Called (Abspath v) (inl TypeError))
             (State w (lock_held s) (cache s) (trace s))))
  \/ (exists e w,
        abspath_or_return v s
        = (Raising e,
           log (Called (Abspath v) (inl e)) (State w (lock_held s) (cache s) (trace s))))
  \/ (exists p w,
        abspath_or_return v s
        = (Normal p,
           log (Called (Abspath v) (inr p)) (State w (lock_held s) (cache s) (trace s)))).
Proof.
  unfold Handler.abspath_or_return, Handler.try_except, Handler.call, Handler.ret.
  destruct (truthy v); [|now left].
  destruct (oracle pyval (Abspath v) (world s)) as [[e|p] w]; cbn [fst snd].
  - destruct e; [right; left; now exists w | right; right; left; eauto ..].
  - right. right. right. eauto.
Qed.

Lemma create_body_ok K model saved_path framework task singlefile model_name config_obj :
  callbacks_keep K (pre_callbacks ++ post_callbacks) -> K saved_path ->
  body_ok saved_path K (no_path saved_path)
    (bind (abspath_or_return saved_path) (fun local_model_path =>
       if negb (truthy local_model_path) then return_ saved_path
       else create_tracked model framework task singlefile model_name config_obj saved_path
              {| Handler.model := PNone; upload_filename := PNone;
                 local_model_path := local_model_path; local_model_id := saved_path;
                 Handler.framework := framework; Handler.task := task;
                 weights_object := PNone |})).
Proof.
  intros Hk Hi s. unfold Handler.bind.
  destruct (abspath_or_return_cases saved_path s)
    as [[Hf E]|[(w & E)|[(e & w & E)|(p & w & E)]]]; rewrite E; clear E.
  - rewrite Hf. cbn [negb fst snd Handler.return_]. split; [reflexivity|].
    split; [reflexivity|]. split; [apply rel_refl|].
    unfold Handler.new_events. rewrite drop_all. left. auto.
  - cbn [fst snd]. split; [reflexivity|]. split; [reflexivity|].
    split; [now apply rel_log|].
    rewrite (new_events_app s _ [Called (Abspath saved_path) (inl TypeError)])
      by reflexivity.
    right. now left.
  - cbn [fst snd]. split; [reflexivity|]. now apply rel_log.
  - set (s1 := log _ _).
    destruct (truthy p) eqn:Etruthy; cbn [negb].
    + pose proof (create_tracked_tail K model framework task singlefile model_name
                    config_obj saved_path
                    {| Handler.model := PNone; upload_filename := PNone;
                       local_model_path := p; local_model_id := saved_path;
                       Handler.framework := framework; Handler.task := task;
                       weights_object := PNone |} Hk Hi s1) as [Hl' Ht].
      split; [rewrite Hl'; reflexivity|].
      match type of Ht with match (?t).1 with _ => _ end =>
        destruct t as [[[]|e|v] s2] end; cbn [fst snd] in *; [| |contradiction].
      * destruct Ht as (body & Hbody & key & mo & id & url & tr & last & HK & Hreg & -> & Hp'
                        & Hc').
        eexists. split; [rewrite Hbody; unfold s1; cbn; now rewrite <- app_assoc|].
        exists key, mo, id, url, (Called (Abspath saved_path) (inr p) :: tr), last.
        split; [exact HK|]. split; [exact Hreg|]. split; [reflexivity|].
        split; [cbn; exact Hp'|]. exact Hc'.
      * eapply rel_trans; [|exact Ht]. now apply rel_log.
    + cbn [fst snd Handler.return_]. split; [reflexivity|]. split; [reflexivity|].
      split; [now apply rel_log|].
      rewrite (new_events_app s _ [Called (Abspath saved_path) (inr p)]) by reflexivity.
      right. right. now exists p.
Qed.

Lemma create_block_tracked K Ev model saved_path framework task singlefile model_name
    config_obj :
  callbacks_keep K (pre_callbacks ++ post_callbacks) -> K saved_path ->
  ends saved_path Ev (tracked K (no_path saved_path))
    (bind (try_finally
             (try_except
                (create_locked model saved_path framework task singlefile model_name
                   config_obj)
                debug)
             release)
          (fun _ => return_ saved_path)).
Proof.
  intros Hk Hi. unfold Handler.create_locked. cbv zeta.
  apply ends_tracked. now apply create_body_ok.
Qed.

Lemma create_output_model_tracked K model saved_path framework task singlefile model_name
    config_obj :
  callbacks_keep K (pre_callbacks ++ post_callbacks) -> K saved_path ->
  ends saved_path (task_id_raises oracle task) (tracked K (no_path saved_path))
    (create_output_model model saved_path framework task singlefile model_name config_obj).
Proof.
  intros Hk Hi. unfold Handler.create_output_model.
  destruct (is_none task) eqn:Etask; [apply ends_return|].
  eapply ends_bind with (Q := fun _ => True) (Ev0 := fun _ => False).
  - sat_auto.
  - intros s e. unfold Handler.getattr, Handler.call, Handler.task_id_raises.
    rewrite Etask.
    destruct (oracle pyval (Attr task "id") (world s)) as [[e'|a] w'] eqn:Eor;
      simpl; [|discriminate].
    intros [= <-]. auto.
  - intros _ _. now apply create_block_tracked.
  - intros w e [].
Qed.

(** *** From the body of a handler to its events *)

Lemma discipline_quiet tr held :
  forallb quiet_event tr = true -> lock_discipline_from held tr = Some held.
Proof.
  induction tr as [|ev tr IH]; simpl; [reflexivity|].
  intros H. apply andb_true_iff in H as [He Ht]. destruct ev; try discriminate; auto.
Qed.

Lemma discipline_inner tr :
  forallb inner_event tr = true -> lock_discipline_from true tr = Some true.
Proof.
  induction tr as [|ev tr IH]; simpl; [reflexivity|].
  intros H. apply andb_true_iff in H as [He Ht]. destruct ev; try discriminate; auto.
Qed.

Lemma discipline_app tr1 tr2 held held' :
  lock_discipline_from held tr1 = Some held' ->
  lock_discipline_from held (tr1 ++ tr2) = lock_discipline_from held' tr2.
Proof.
  revert held. induction tr1 as [|ev tr1 IH]; simpl; intros held H.
  - congruence.
  - destruct ev, held; try discriminate; auto.
Qed.

Lemma count_app P tr1 tr2 :
  count_event P (tr1 ++ tr2) = (count_event P tr1 + count_event P tr2)%nat.
Proof. unfold count_event. now rewrite List.filter_app, length_app. Qed.

Lemma count_none (P Q : event -> bool) tr :
  (forall ev, Q ev = true -> P ev = false) -> forallb Q tr = true ->
  count_event P tr = O.
Proof.
  intros HPQ. unfold count_event. induction tr as [|ev tr IH]; simpl; [reflexivity|].
  intros H. apply andb_true_iff in H as [He Ht]. rewrite (HPQ ev He). auto.
Qed.

Lemma writes_app tr1 tr2 : writes (tr1 ++ tr2) = writes tr1 ++ writes tr2.
Proof.
  induction tr1 as [|ev tr1 IH]; simpl; [reflexivity|].
  destruct ev; simpl; now rewrite ?IH.
Qed.

Lemma writes_read tr : forallb read_event tr = true -> writes tr = [].
Proof.
  induction tr as [|ev tr IH]; simpl; [reflexivity|].
  intros H. apply andb_true_iff in H as [He Ht]. destruct ev; try discriminate; auto.
Qed.

Lemma forallb_quiet_read tr : forallb quiet_event tr = true -> forallb read_event tr = true.
Proof.
  rewrite !forallb_forall. intros H ev Hin. apply quiet_read. auto.
Qed.

(** How a handler ends, as its caller sees it. *)
Lemma ends_result sp Ev L (m : M pyval) s :
  ends sp Ev L m ->
  (function_call m s).2 = (m s).2
  /\ ((function_call m s).1 = Normal sp
      \/ exists e, (function_call m s).1 = Raising e /\ Ev (world s) e).
Proof.
  intros H. unfold Handler.function_call.
  destruct (H s) as [[_ [Hr|(e & Hr & He)]]|[Hr _]];
    destruct (m s) as [[a|e'|v] s']; simpl in *; try discriminate.
  - injection Hr as ->. auto.
  - injection Hr as ->. eauto.
  - injection Hr as ->. auto.
Qed.

(** The lock discipline of a handler. *)
Lemma ends_discipline sp Ev (m : M pyval) s :
  ends sp Ev locked m ->
  lock_discipline (new_events s (m s).2) = true
  /\ count_event is_acquire (new_events s (m s).2)
     = count_event is_release (new_events s (m s).2)
  /\ (lock_held s = false -> lock_held (m s).2 = false).
Proof.
  intros H.
  destruct (H s) as [[(Hl & _ & q & Ht & Hq) _]
                    |[_ (s1 & (Hl & _ & q & Ht & Hq) & Hlock & body & Hbody & Hin)]].
  - rewrite (new_events_app _ _ _ Ht). unfold lock_discipline.
    rewrite (discipline_quiet _ _ Hq).
    rewrite (count_none is_acquire quiet_event) by (auto; now intros []).
    rewrite (count_none is_release quiet_event) by (auto; now intros []).
    repeat split. intros E. rewrite Hl; auto.
  - assert (trace (m s).2 = trace s ++ q ++ Acquire :: body ++ [Release]) as Hall
      by (rewrite Hbody, Ht; now rewrite <- app_assoc).
    rewrite (new_events_app _ _ _ Hall). unfold lock_discipline.
    rewrite (discipline_app _ _ _ _ (discipline_quiet _ false Hq)). simpl.
    rewrite (discipline_app _ _ _ _ (discipline_inner _ Hin)). simpl.
    change (Acquire :: body ++ [Release]) with ([Acquire] ++ body ++ [Release]).
    rewrite !count_app.
    rewrite (count_none is_acquire quiet_event q) by (auto; now intros []).
    rewrite (count_none is_release quiet_event q) by (auto; now intros []).
    rewrite (count_none is_acquire inner_event body) by (auto; now intros []).
    rewrite (count_none is_release inner_event body) by (auto; now intros []).
    repeat split. auto.
Qed.

Lemma stored_read K (s s' : state) body : stored K s s' body -> exists k v, writes body = [(k, v)].
Proof.
  intros (k & mo & id & url & tr & last & _ & Hreg & -> & Hp & _).
  exists k, (id, url). rewrite writes_app, (writes_read _ Hp). simpl.
  destruct last as [| | | |T c [e'|a']| |]; try discriminate. cbn [writes].
  destruct k; reflexivity.
Qed.

(** What a handler does to the dictionary. *)
Lemma ends_outcome sp Ev K early (m : M pyval) s :
  ends sp Ev (tracked K early) m -> outcome K early s (m s).2.
Proof.
  intros H.
  destruct (H s) as [[(Hl & Hc & q & Ht & Hq) _]
                    |[_ (s1 & (Hl & Hc & q & Ht & Hq) & Hlock & body & Hbody & Hcase)]].
  - left. rewrite (new_events_app _ _ _ Ht). split; [now apply Hc|].
    split; [apply writes_read; now apply forallb_quiet_read|]. now left.
  - assert (trace (m s).2 = trace s ++ q ++ Acquire :: body ++ [Release]) as Hall
      by (rewrite Hbody, Ht; now rewrite <- app_assoc).
    specialize (Hc eq_refl).
    destruct Hcase as [(Hc' & Hp & Hwhy)|Hst].
    + left. rewrite (new_events_app _ _ _ Hall). split; [congruence|]. split.
      * rewrite writes_app, (writes_read _ (forallb_quiet_read _ Hq)). simpl.
        rewrite writes_app, (writes_read _ Hp). reflexivity.
      * right. exists q, body. auto.
    + right. exists q, body. rewrite (new_events_app _ _ _ Hall).
      split; [reflexivity|]. split; [exact Hq|].
      destruct Hst as (k & mo & id & url & tr & last & HK & Hreg & E & Hp & Hcache).
      exists k, mo, id, url, tr, last. rewrite <- Hc. auto.
Qed.

(** [_save] and [_load], seen from their caller. *)
Lemma _save_eq current_task obj f s :
  function_call (_save current_task obj f) s
  = match oracle pyval (Original_fn obj f) (world s) with
    | (inl e, w) =>
        (Raising e,
         log (Called (Original_fn obj f) (inl e)) (State w (lock_held s) (cache s) (trace s)))
    | (inr ret_, w) =>
        let s1 := log (Called (Original_fn obj f) (inr ret_))
                      (State w (lock_held s) (cache s) (trace s)) in
        if truthy current_task then
          match function_call
                  (create_output_model obj
                     match f with PStr _ => f | _ => PNone end
                     Framework_catboost current_task true
                     match f with PStr p => PStr (path_stem p) | _ => PNone end
                     PNone) s1
          with
          | (Raising e, s2) => (Raising e, s2)
          | (_, s2) => (Normal ret_, s2)
          end
        else (Normal ret_, s1)
    end.
Proof.
  cbv beta delta [Handler._save Handler.function_call Handler.bind Handler.call
                  Handler.try_except Handler.as_path Handler.ret Handler.return_
                  Handler.raise].
  destruct (oracle pyval (Original_fn obj f) (world s)) as [[e|ret_] w]; [reflexivity|].
  cbv zeta. destruct (truthy current_task); cbn [negb]; [|reflexivity].
  destruct f; cbv beta iota zeta;
    match goal with
    | |- context [Handler.create_output_model ?a1 ?a2 ?a3 ?a4 ?a5 ?a6 ?a7 ?a8 ?a9 ?a10 ?a11
                    ?a12 ?a13 ?a14 ?a15] =>
        destruct (Handler.create_output_model a1 a2 a3 a4 a5 a6 a7 a8 a9 a10 a11 a12 a13
                    a14 a15) as [[a|e|v] s2]; reflexivity
    end.
Qed.

Lemma _load_eq current_task empty f args s :
  function_call (_load current_task empty f args) s
  = match oracle pyval (Original_fn f (hd PNone args)) (world s) with
    | (inl e, w) =>
        (Raising e,
         log (Called (Original_fn f (hd PNone args)) (inl e))
           (State w (lock_held s) (cache s) (trace s)))
    | (inr model, w) =>
        let s1 := log (Called (Original_fn f (hd PNone args)) (inr model))
                      (State w (lock_held s) (cache s) (trace s)) in
        if truthy current_task then
          match function_call
                  (restore_weights_file empty
                     match f with
                     | PStr _ => f
                     | _ => match args with PStr a :: _ => PStr a | _ => PNone end
                     end
                     Framework_catboost current_task) s1
          with
          | (Raising e, s2) => (Raising e, s2)
          | (_, s2) => (Normal model, s2)
          end
        else (Normal model, s1)
    end.
Proof.
  cbv beta delta [Handler._load Handler.function_call Handler.bind Handler.call
                  Handler.ret Handler.return_].
  destruct (truthy current_task); cbn [negb]; cbv beta iota zeta;
    destruct (oracle pyval (Original_fn f (hd PNone args)) (world s)) as [[e|model] w];
    try reflexivity.
  cbv beta iota zeta.
  match goal with
  | |- context [Handler.restore_weights_file ?a1 ?a2 ?a3 ?a4 ?a5 ?a6 ?a7 ?a8 ?a9] =>
      destruct (Handler.restore_weights_file a1 a2 a3 a4 a5 a6 a7 a8 a9)
        as [[a|e|v] s2]; reflexivity
  end.
Qed.

(** Whatever a handler does, it only adds to the trace. *)
Lemma restore_weights_file_extends model filepath framework task s :
  exists tr,
    trace (function_call (restore_weights_file model filepath framework task) s).2
    = trace s ++ tr.
Proof.
  assert (sat (rel false false (fun _ => true)) (fun _ => True) (fun _ => True)
            (function_call (restore_weights_file model filepath framework task))) as Hsat.
  { unfold Handler.restore_weights_file, Handler.restore_locked. cbv zeta. sat_auto. }
  destruct (Hsat s) as [(_ & _ & tr & Htr & _) _]. eauto.
Qed.

Lemma create_output_model_extends model saved_path framework task singlefile model_name
    config_obj s :
  exists tr,
    trace (function_call
             (create_output_model model saved_path framework task singlefile model_name
                config_obj) s).2
    = trace s ++ tr.
Proof.
  assert (sat (rel false false (fun _ => true)) (fun _ => True) (fun _ => True)
            (function_call
               (create_output_model model saved_path framework task singlefile model_name
                  config_obj))) as Hsat.
  { unfold Handler.create_output_model, Handler.create_locked, Handler.create_tracked.
    cbv zeta. sat_auto. }
  destruct (Hsat s) as [(_ & _ & tr & Htr & _) _]. eauto.
Qed.

(** C2, as the code has it: the handlers and the CatBoost wrapper are
    transparent except for three places that lie before the [try].
    [restore_weights_file] returns its [filepath], unless [os.path.abspath]
    raises something other than [TypeError] (line 207) or reading
    [local_model_path] of an object that a pre callback returned in place of a
    [ModelInfo] raises (line 233); [create_output_model] returns its
    [saved_path], unless reading [task.id] raises (line 360); in those cases
    the exception leaves the handler.  [_save] first calls the original
    [save_model] and ends as that call ended (it returns the value the
    original returned, or raises what the original raised), unless the
    original returned and reading [task.id] raises: then [_save] raises that
    exception and the value the original returned is lost. *)
Theorem interception_is_transparent
    (model path framework task : pyval) (singlefile : bool)
    (model_name config_obj current_task obj f : pyval) (s : state) :
  let restored := function_call (restore_weights_file model path framework task) s in
  let created :=
    function_call
      (create_output_model model path framework task singlefile model_name config_obj) s in
  let answer := (oracle pyval (Original_fn obj f) (world s)).1 in
  let after := (oracle pyval (Original_fn obj f) (world s)).2 in
  let saved := function_call (_save current_task obj f) s in
  (restored.1 = Normal path
   \/ exists e, restored.1 = Raising e
                /\ (abspath_raises oracle path (world s) e
                    \/ callback_result_raises oracle run_callback pre_callbacks e))
  /\ (created.1 = Normal path
      \/ exists e, created.1 = Raising e /\ task_id_raises oracle task (world s) e)
  /\ (exists rest, new_events s saved.2 = Called (Original_fn obj f) answer :: rest)
  /\ (saved.1 = match answer with inr ret_ => Normal ret_ | inl e => Raising e end
      \/ exists ret_ e,
           answer = inr ret_ /\ truthy current_task = true
           /\ saved.1 = Raising e /\ task_id_raises oracle current_task after e).
Proof.
  cbv zeta. split; [|split].
  - apply (ends_result _ _ _ _ s (restore_weights_file_ends model path framework task)).
  - apply (ends_result _ _ _ _ s
             (create_output_model_ends model path framework task singlefile model_name
                config_obj)).
  - rewrite _save_eq.
    destruct (oracle pyval (Original_fn obj f) (world s)) as [[e|ret_] w]; cbn [fst snd].
    { split; [|now left]. eexists. now apply new_events_app. }
    cbv zeta. destruct (truthy current_task) eqn:Etask.
    2: { split; [|now left]. eexists. now apply new_events_app. }
    set (filename := match f with PStr _ => f | _ => PNone end).
    set (mn := match f with PStr p => PStr (path_stem p) | _ => PNone end).
    set (s1 := log _ _).
    pose proof (ends_result _ _ _ _ s1
                  (create_output_model_ends obj filename Framework_catboost current_task
                     true mn PNone)) as [_ Hr].
    destruct (create_output_model_extends obj filename Framework_catboost current_task
                true mn PNone s1) as [tr Htr].
    destruct (function_call _ s1) as [r s2]. cbn [fst snd] in *.
    assert (trace s2 = trace s ++ Called (Original_fn obj f) (inr ret_) :: tr) as Hall
      by (rewrite Htr; unfold s1; cbn; now rewrite <- app_assoc).
    destruct Hr as [->|(e & -> & He)]; cbn [fst snd].
    + split; [|now left]. exists tr. now apply new_events_app.
    + split; [exists tr; now apply new_events_app|].
      right. exists ret_, e. auto.
Qed.

(** C4: in both handlers every use of the dictionary lies between an
    acquisition of the lock and its release, acquisitions and releases
    alternate and are equal in number on every path, and a call that starts
    with the lock free ends with the lock free. *)
Theorem dictionary_used_under_lock
    (model path framework task : pyval) (singlefile : bool)
    (model_name config_obj : pyval) (s : state) :
  let s1 := (restore_weights_file model path framework task s).2 in
  let s2 := (create_output_model model path framework task singlefile model_name
               config_obj s).2 in
  (lock_discipline (new_events s s1) = true
   /\ count_event is_acquire (new_events s s1) = count_event is_release (new_events s s1)
   /\ (lock_held s = false -> lock_held s1 = false))
  /\ (lock_discipline (new_events s s2) = true
      /\ count_event is_acquire (new_events s s2)
         = count_event is_release (new_events s s2)
      /\ (lock_held s = false -> lock_held s2 = false)).
Proof.
  cbv zeta. split.
  - eapply ends_discipline, restore_weights_file_ends.
  - eapply ends_discipline, create_output_model_ends.
Qed.


(** X17: a callback loop (lines 221-226, 296-301, 423-428 and 492-497) runs
    every registered callback once, whatever the earlier ones did: it never
    raises, it leaves the lock and the dictionary alone, and what it adds to
    the trace is one callback event per callback. *)
Theorem run_callbacks_runs_every_callback
    (kind : CallbackType) (cbs : list F) (model_info : info) (s : state) :
  let out := run_callbacks kind cbs model_info s in
  (exists r, out.1 = Normal r)
  /\ lock_held out.2 = lock_held s
  /\ cache out.2 = cache s
  /\ length (new_events s out.2) = length cbs
  /\ Forall (fun ev => exists given outcome, ev = CallbackRan kind given outcome)
            (new_events s out.2).
Proof.
  cbv zeta.
  assert (exists r tr,
            (run_callbacks kind cbs model_info s).1 = Normal r
            /\ lock_held (run_callbacks kind cbs model_info s).2 = lock_held s
            /\ cache (run_callbacks kind cbs model_info s).2 = cache s
            /\ trace (run_callbacks kind cbs model_info s).2 = trace s ++ tr
            /\ length tr = length cbs
            /\ Forall (fun ev => exists given outcome, ev = CallbackRan kind given outcome) tr)
    as (r & tr & Hr & Hl & Hc & Ht & Hn & Hall).
  { revert model_info s. induction cbs as [|cb cbs IH]; intros model_info s; simpl.
    - exists model_info, []. rewrite app_nil_r. repeat split; auto.
    - unfold Handler.bind, Handler.callback_round.
      destruct (run_callback cb kind model_info (world s)) as [outcome w] eqn:E.
      set (s1 := log (CallbackRan kind model_info outcome)
                     (State w (lock_held s) (cache s) (trace s))).
      destruct (IH (round_result model_info outcome) s1)
        as (r & tr & Hr & Hl & Hc & Ht & Hn & Hall).
      exists r, (CallbackRan kind model_info outcome :: tr).
      split; [exact Hr|]. split; [exact Hl|]. split; [exact Hc|].
      split; [rewrite Ht; simpl; now rewrite <- app_assoc|].
      split; [simpl; now rewrite Hn|]. constructor; eauto. }
  rewrite (new_events_app _ _ _ Ht). eauto 10.
Qed.

(** X18: each handler keeps to its side.  [restore_weights_file] never
    creates an output model, never looks for a registered model with
    [InputModel.load_model], never looks at the file system and never
    packages, uploads, registers or copies weights.  [create_output_model]
    never builds an input model from an id, never imports one, never asks the
    model object for its name and never connects a model to the task; the one
    call it makes on [InputModel] is the look-up [InputModel.load_model] of
    line 455.  Neither calls a function that [_patched_call] replaced. *)
Theorem handlers_keep_to_their_side
    (model path framework task : pyval) (singlefile : bool)
    (model_name config_obj : pyval) (s : state) :
  forallb (fun ev => negb (saves ev) && negb (is_original ev))
          (new_events s (restore_weights_file model path framework task s).2) = true
  /\ forallb (fun ev => negb (loads ev) && negb (is_original ev))
             (new_events s
                (create_output_model model path framework task singlefile model_name
                   config_obj s).2) = true.
Proof.
  split.
  - assert (sat (rel false false (fun ev => negb (saves ev) && negb (is_original ev)))
              (fun _ => True) (fun _ => True)
              (restore_weights_file model path framework task)) as Hsat.
    { unfold Handler.restore_weights_file, Handler.restore_locked. cbv zeta. sat_auto. }
    destruct (Hsat s) as [Hrel _]. now apply rel_events in Hrel.
  - assert (sat (rel false false (fun ev => negb (loads ev) && negb (is_original ev)))
              (fun _ => True) (fun _ => True)
              (create_output_model model path framework task singlefile model_name
                 config_obj)) as Hsat.
    { unfold Handler.create_output_model, Handler.create_locked, Handler.create_tracked.
      cbv zeta. sat_auto. }
    destruct (Hsat s) as [Hrel _]. now apply rel_events in Hrel.
Qed.

Lemma count_original_once (s s' : state) (c : ext pyval) answer tr :
  trace s' = trace s ++ Called c answer :: tr ->
  is_original (Called c answer) = true ->
  forallb (fun ev => negb (is_original ev)) tr = true ->
  count_event is_original (new_events s s') = 1%nat.
Proof.
  intros Ht Hc Hp. rewrite (new_events_app _ _ _ Ht).
  change (Called c answer :: tr) with ([Called c answer] ++ tr).
  rewrite count_app. unfold count_event at 1. cbn [List.filter]. rewrite Hc.
  cbn [length]. rewrite (count_none is_original (fun ev => negb (is_original ev))); auto.
  intros ev. now destruct (is_original ev).
Qed.

Lemma restore_weights_file_not_original model filepath framework task s :
  exists tr,
    trace (function_call (restore_weights_file model filepath framework task) s).2
    = trace s ++ tr
    /\ forallb (fun ev => negb (is_original ev)) tr = true.
Proof.
  assert (sat (rel false false (fun ev => negb (is_original ev)))
            (fun _ => True) (fun _ => True)
            (function_call (restore_weights_file model filepath framework task))) as Hsat.
  { unfold Handler.restore_weights_file, Handler.restore_locked. cbv zeta. sat_auto. }
  destruct (Hsat s) as [(_ & _ & tr & Htr & Hp) _]. eauto.
Qed.

Lemma create_output_model_not_original model saved_path framework task singlefile
    model_name config_obj s :
  exists tr,
    trace (function_call
             (create_output_model model saved_path framework task singlefile model_name
                config_obj) s).2
    = trace s ++ tr
    /\ forallb (fun ev => negb (is_original ev)) tr = true.
Proof.
  assert (sat (rel false false (fun ev => negb (is_original ev)))
            (fun _ => True) (fun _ => True)
            (function_call
               (create_output_model model saved_path framework task singlefile model_name
                  config_obj))) as Hsat.
  { unfold Handler.create_output_model, Handler.create_locked, Handler.create_tracked.
    cbv zeta. sat_auto. }
  destruct (Hsat s) as [(_ & _ & tr & Htr & Hp) _]. eauto.
Qed.


(** A loop whose last callback returns [None] leaves [None]. *)
Lemma sat_run_callbacks_None kl kc (P : event -> bool) Rt kind cb cbs :
  (forall given w, (run_callback cb kind given w).1 = CbReturned (Object PNone)) ->
  (forall given outcome, P (CallbackRan kind given outcome) = true) ->
  forall model_info,
    sat (rel kl kc P) (fun r => r = Object PNone) Rt
      (run_callbacks kind (cbs ++ [cb]) model_info).
Proof.
  intros Hcb HP. induction cbs as [|cb' cbs IH]; intros model_info; simpl.
  - eapply sat_bind with (Q1 := fun r => r = Object PNone).
    + apply sat_callback_round; [apply HP|]. intros w. now rewrite Hcb.
    + intros r ->. now apply sat_ret.
  - eapply sat_bind_any.
    + apply sat_callback_round; [apply HP | auto].
    + intros r. apply IH.
Qed.

Lemma sat_write_None_bind {B} kl kc P (Q : B -> Prop) Rt f v (k : info -> M B) :
  sat (rel kl kc P) Q Rt (bind (write (Object PNone) f v) k).
Proof. intros s. split; [apply rel_refl | exact I]. Qed.

(** X20: a pre callback that returns [None] disables the tracking of the
    call, as the docstring of [add_pre_callback] promises.  When the callback
    registered last always returns [None], nothing happens in
    [restore_weights_file] and [create_output_model] apart from reading
    [task.id], the lock, [os.path.abspath], the look at the file system, the
    callbacks and the debug message: no model is resolved, imported or
    created, nothing is uploaded or registered, and the dictionary is neither
    read nor written.  Each handler returns the path, unless the exception
    of line 207 or of line 360 leaves it. *)
Theorem pre_callback_returning_None_disables_tracking
    (cbs : list F) (cb : F) (model path framework task : pyval) (singlefile : bool)
    (model_name config_obj : pyval) (s : state) :
  pre_callbacks = cbs ++ [cb] ->
  (forall kind given w, (run_callback cb kind given w).1 = CbReturned (Object PNone)) ->
  let restored := function_call (restore_weights_file model path framework task) s in
  let created :=
    function_call
      (create_output_model model path framework task singlefile model_name config_obj) s in
  (restored.1 = Normal path
   \/ exists e, restored.1 = Raising e /\ abspath_raises oracle path (world s) e)
  /\ forallb (untracked task) (new_events s restored.2) = true
  /\ cache restored.2 = cache s
  /\ (created.1 = Normal path
      \/ exists e, created.1 = Raising e /\ task_id_raises oracle task (world s) e)
  /\ forallb (untracked task) (new_events s created.2) = true
  /\ cache created.2 = cache s.
Proof.
  intros Hpre Hnone. cbv zeta.
  assert (ends path (abspath_raises oracle path) (fun _ _ => False)
            (restore_weights_file model path framework task)) as Hends.
  { unfold Handler.restore_weights_file. rewrite Hpre.
    destruct (is_none task); [apply ends_return|].
    eapply ends_bind with (Q := fun _ => True) (Ev0 := fun _ => False).
    - sat_auto.
    - intros s0 e H. now apply abspath_or_return_raises.
    - intros local_model_path _. cbv zeta.
      eapply ends_bind with (Q := fun r => r = Object PNone) (Ev0 := fun _ => False).
      + apply sat_run_callbacks_None; [apply Hnone | reflexivity].
      + intros s0 e H. now apply run_callbacks_falls_through in H.
      + intros r ->. apply ends_return.
      + auto.
    - intros w e []. }
  assert (sat (rel false true (untracked task)) (fun _ => True) (fun _ => True)
            (restore_weights_file model path framework task)) as Hrestore.
  { unfold Handler.restore_weights_file. rewrite Hpre.
    destruct (is_none task); [now apply sat_return|].
    eapply sat_bind_any; [sat_auto|]. intros local_model_path. cbv zeta.
    eapply sat_bind with (Q1 := fun r => r = Object PNone).
    - apply sat_run_callbacks_None; [apply Hnone | reflexivity].
    - intros r ->. now apply sat_return. }
  assert (sat (rel false true (untracked task)) (fun _ => True) (fun _ => True)
            (create_output_model model path framework task singlefile model_name config_obj))
    as Hcreate.
  { unfold Handler.create_output_model, Handler.create_locked, Handler.create_tracked.
    rewrite Hpre. cbv zeta.
    destruct (is_none task) eqn:Etask; [now apply sat_return|].
    eapply sat_bind_any.
    { unfold Handler.getattr. rewrite Etask. apply sat_call; [|auto].
      intros answer. simpl. apply bool_decide_eq_true_2. auto. }
    intros _.
    repeat match goal with
      | |- Handler.sat _ _ _
             (Handler.bind (Handler.run_callbacks _ _ (cbs ++ [cb]) _) _) =>
          eapply sat_bind with (Q1 := fun r => r = Object PNone);
          [ apply sat_run_callbacks_None; [apply Hnone | reflexivity]
          | intros ? ->; apply sat_write_None_bind ]
      | _ => sat_step
      end. }
  pose proof (ends_result _ _ _ _ s Hends) as [E1 R1].
  pose proof (ends_result _ _ _ _ s
                (create_output_model_ends model path framework task singlefile model_name
                   config_obj)) as [E2 R2].
  destruct (Hrestore s) as [(_ & Hc1 & tr1 & Ht1 & Hp1) _].
  destruct (Hcreate s) as [(_ & Hc2 & tr2 & Ht2 & Hp2) _].
  rewrite E1, E2. rewrite (new_events_app _ _ _ Ht1), (new_events_app _ _ _ Ht2).
  auto 10.
Qed.

(** X21: without a usable path nothing is tracked.  When the path is false,
    or [os.path.abspath] raises [TypeError] for it, [create_output_model]
    for a task whose [.id] can be read does nothing but read it, take the
    lock, ask [os.path.abspath] if the path is true, and release the lock; it
    returns what it was given and leaves the dictionary alone.  When
    [os.path.abspath] raises [TypeError], [restore_weights_file] returns at
    once, before any callback has run. *)
Theorem unusable_path_is_not_tracked
    (model path framework task tid : pyval) (singlefile : bool)
    (model_name config_obj : pyval) (s : state) :
  is_none task = false ->
  (oracle pyval (Attr task "id") (world s)).1 = inr tid ->
  truthy path = false
  \/ (forall w, (oracle pyval (Abspath path) w).1 = inl TypeError) ->
  let created :=
    function_call
      (create_output_model model path framework task singlefile model_name config_obj) s in
  let restored := function_call (restore_weights_file model path framework task) s in
  created.1 = Normal path
  /\ (exists body,
        new_events s created.2
        = Called (Attr task "id") (inr tid) :: Acquire :: body ++ [Release]
        /\ no_path path body)
  /\ cache created.2 = cache s
  /\ (truthy path = true ->
      restored.1 = Normal path
      /\ new_events s restored.2 = [Called (Abspath path) (inl TypeError)]
      /\ cache restored.2 = cache s).
Proof.
  intros Htask Hid Hpath. cbv zeta.
  unfold Handler.create_output_model, Handler.restore_weights_file, Handler.create_locked,
    Handler.abspath_or_return, Handler.getattr.
  rewrite Htask. cbv zeta.
  unfold Handler.function_call, Handler.bind, Handler.try_finally, Handler.try_except,
    Handler.call, Handler.acquire, Handler.release, Handler.return_, Handler.ret,
    Handler.raise.
  destruct (oracle pyval (Attr task "id") (world s)) as [answer w1]. cbn [fst] in Hid.
  subst answer. cbn [fst snd].
  assert (forall (s1 s2 : state) tr, trace s2 = trace s1 ++ tr -> new_events s1 s2 = tr)
    as Hnew by (intros; now apply new_events_app).
  destruct Hpath as [Hf|Hraise].
  - rewrite Hf. cbn [negb fst snd Handler.log lock_held Handler.local_model_path].
    rewrite ?Hf. cbn [negb fst snd Handler.log lock_held].
    split; [reflexivity|]. split; [|split; [reflexivity|]; intros; discriminate].
    exists []. split; [|left; auto].
    apply Hnew. cbn. now rewrite <- !app_assoc.
  - destruct (truthy path) eqn:Etruthy.
    + pose proof (Hraise w1) as H1. pose proof (Hraise (world s)) as H2.
      cbn [Handler.world Handler.log fst snd].
      destruct (oracle pyval (Abspath path) w1) as [a1 w2]. cbn [fst] in H1. subst a1.
      destruct (oracle pyval (Abspath path) (world s)) as [a2 w3]. cbn [fst] in H2. subst a2.
      cbn [negb fst snd Handler.log lock_held].
      split; [reflexivity|]. split.
      * exists [Called (Abspath path) (inl TypeError)]. split; [|right; now left].
        apply Hnew. cbn. now rewrite <- !app_assoc.
      * split; [reflexivity|]. intros _. split; [reflexivity|].
        split; [|reflexivity]. now apply Hnew.
    + cbn [negb fst snd Handler.log lock_held Handler.local_model_path].
      rewrite ?Etruthy. cbn [negb fst snd Handler.log lock_held].
      split; [reflexivity|]. split; [|split; [reflexivity|]; intros; discriminate].
      exists []. split; [|left; auto].
      apply Hnew. cbn. now rewrite <- !app_assoc.
Qed.

Lemma sat_at_bind_ret {A B} R (Q : B -> Prop) Rt (a : A) (k : A -> M B) s :
  sat_at R Q Rt (k a) s -> sat_at R Q Rt (bind (ret a) k) s.
Proof. intros H. exact H. Qed.

(** Under the lock, with no model in the [ModelInfo] and an entry in the
    dictionary whose id [InputModel] accepts, nothing is imported. *)
Lemma restore_locked_reuses model framework task i mid uri filepath s :
  truthy (Handler.model i) = false ->
  local_model_id i = PStr filepath ->
  filepath <> "" ->
  cache s !! PStr filepath = Some (mid, uri) ->
  truthy mid = true ->
  (forall w, exists m, (oracle pyval (InputModel mid) w).1 = inr m) ->
  sat_at (rel false false (fun ev => negb (imports ev))) (fun _ => True) (fun _ => True)
         (restore_locked model framework task (Info i)) s.
Proof.
  intros Hmodel Hid Hp Hhit Hmid Hnever.
  apply String.eqb_neq in Hp.
  set (P := fun ev => negb (imports ev)).
  unfold Handler.restore_locked. cbv zeta.
  apply sat_at_bind.
  { apply sat_acquire. reflexivity. }
  intros [] s1 E1. injection E1 as <-.
  set (s1 := log Acquire _).
  assert (cache s1 = cache s) as Hc1 by reflexivity.
  cbn [Handler.read Handler.get_field].
  apply sat_at_bind_ret. cbv beta. rewrite Hmodel.
  apply sat_at_bind_ret. cbv beta.
  set (NAME := if truthy model then call (Getattr_name model) else ret (PStr "")).
  assert (sat (rel false true P) (fun _ => True) (fun _ => True) NAME) as Hname
    by (subst NAME; sat_auto).
  apply sat_at_bind.
  { destruct (Hname s1) as [Hrel _]. split; [|now destruct (NAME s1).1].
    eapply rel_weaken; [| | |exact Hrel]; auto. }
  intros model_name_id s2 E2.
  assert (cache s2 = cache s) as Hc2.
  { rewrite <- Hc1. destruct (Hname s1) as [(_ & Hc & _) _]. rewrite E2 in Hc. now apply Hc. }
  clearbody s1. clear Hname E2 Hc1. clear NAME.
  match goal with |- Handler.sat_at _ _ _ (Handler.bind ?m _) _ => set (CONFIG := m) end.
  assert (CONFIG s2 = (Normal (PNone, PNone), s2)) as E3 by reflexivity.
  apply sat_at_bind.
  { split; [rewrite E3; apply rel_refl | now rewrite E3]. }
  intros [config_dict config_text] s3 E3'. rewrite E3 in E3'.
  injection E3' as <- <- <-. clear CONFIG E3. cbv beta iota.
  apply sat_at_bind.
  2: { intros trains_in_model s4 _.
       match goal with |- Handler.sat_at _ _ _ ?m _ =>
         assert (sat (rel false false P) (fun _ => True) (fun _ => True) m) as Htail
       end.
       { sat_auto. }
       apply Htail. }
  change (negb (truthy PNone)) with true. cbv iota.
  assert (forall s0, read_id_or_path (Info i) s0 = (Normal (PStr filepath), s0)) as Ekey.
  { intros s0. unfold Handler.read_id_or_path, Handler.bind. cbn [Handler.read Handler.get_field].
    unfold Handler.ret. rewrite Hid.
    assert (truthy (PStr filepath) = true) as -> by (unfold Handler.truthy; now rewrite Hp).
    reflexivity. }
  apply sat_at_bind.
  { split; [rewrite Ekey; apply rel_refl | now rewrite Ekey]. }
  intros key s3 E3. rewrite Ekey in E3. injection E3 as <- <-.
  apply sat_at_bind.
  { apply (sat_cache_get false false P (fun _ => True) (fun _ => True) (PStr filepath));
      [reflexivity | reflexivity | auto]. }
  intros [model_id model_uri] s4 E4.
  unfold Handler.cache_get, Handler.hash_key, Handler.bind, Handler.ret in E4.
  rewrite Hc2, Hhit in E4. simpl in E4. injection E4 as <- <- <-.
  rewrite Hmid. cbv beta iota.
  set (s4 := log (CacheGet (PStr filepath)) s2).
  match goal with |- Handler.sat_at _ _ _ (Handler.bind ?m _) _ => set (RESOLVE := m) end.
  assert (sat (rel false false P) (fun _ => True) (fun _ => True) RESOLVE) as Hresolve
    by (subst RESOLVE; sat_auto).
  apply sat_at_bind; [apply Hresolve|].
  intros [trains_in_model model_id] s5 E5.
  assert (model_id = mid) as ->.
  { revert E5. subst RESOLVE. unfold Handler.try_except, Handler.bind, Handler.call, Handler.ret.
    destruct (Hnever (world s4)) as [m Hm].
    destruct (oracle pyval (InputModel mid) (world s4)) as [answer w]. simpl in Hm.
    subst answer. now intros [= _ <- _]. }
  rewrite Hmid. simpl negb. cbv iota. split; [apply rel_refl | exact I].
Qed.

(** X22: a model that the dictionary knows is resolved, not imported again.
    When no pre callback is registered and the dictionary holds a model id
    for the path that [InputModel] accepts, [restore_weights_file] makes no
    call of [InputModel.import_model]. *)
Theorem stored_model_is_not_imported_again
    (model framework task mid uri : pyval) (filepath : string) (s : state) :
  pre_callbacks = [] ->
  is_none task = false ->
  filepath <> "" ->
  cache s !! PStr filepath = Some (mid, uri) ->
  truthy mid = true ->
  (forall w, exists m, (oracle pyval (InputModel mid) w).1 = inr m) ->
  forallb (fun ev => negb (imports ev))
          (new_events s
             (restore_weights_file model (PStr filepath) framework task s).2) = true.
Proof.
  intros Hpre Htask Hp Hhit Hmid Hnever.
  set (P := fun ev => negb (imports ev)).
  assert (sat_at (rel false false P) (fun _ => True) (fun _ => True)
            (restore_weights_file model (PStr filepath) framework task) s)
    as [Hrel _]; [|now apply rel_events in Hrel].
  unfold Handler.restore_weights_file. rewrite Hpre, Htask. cbv zeta.
  assert (sat (rel false true P) (fun _ => True) (fun _ => True)
            (abspath_or_return (PStr filepath))) as Habs
    by (unfold Handler.abspath_or_return; sat_auto).
  apply sat_at_bind.
  { destruct (Habs s) as [Hrel _].
    split; [|now destruct (abspath_or_return (PStr filepath) s).1].
    eapply rel_weaken; [| | |exact Hrel]; auto. }
  intros local_model_path s1 E1.
  assert (cache s1 = cache s) as Hc1.
  { destruct (Habs s) as [(_ & Hc & _) _]. rewrite E1 in Hc. now apply Hc. }
  cbn [Handler.run_callbacks]. apply sat_at_bind_ret. cbv beta.
  cbn [Handler.info_is_none Handler.read Handler.get_field]. apply sat_at_bind_ret. cbv beta.
  cbn [Handler.local_model_path].
  destruct (truthy local_model_path); cbn [negb]; [|split; [apply rel_refl | exact I]].
  apply sat_at_bind.
  2: { intros _ s2 _. split; [apply rel_refl | exact I]. }
  apply sat_at_try_finally.
  2: { intros s2. apply sat_release. reflexivity. }
  apply sat_at_try_except.
  2: { intros e s2 _. apply sat_debug. reflexivity. }
  apply restore_locked_reuses with (mid := mid) (uri := uri) (filepath := filepath); auto.
  now rewrite Hc1.
Qed.

End WithWorldFacts.

Example restore_registers_the_path :
  (demo_restore [] [] (PStr "/srv/a.cbm") (PObj 7)).1 = Normal (PStr "/srv/a.cbm")
  /\ trace (demo_restore [] [] (PStr "/srv/a.cbm") (PObj 7)).2
     = [Called (Abspath (PStr "/srv/a.cbm")) (inr (PStr "/srv/a.cbm"));
        Acquire; Called (Getattr_name (PObj 1)) (inr (PStr "net"));
        CacheGet (PStr "/srv/a.cbm");
        Called (Attr (PObj 7) "name") (inr (PStr "train"));
        Called (Task_get_labels_enumeration (PObj 7)) (inr PNone);
        Called (InputModel_import_model (PStr "/srv/a.cbm") PNone PNone
                  (PStr "train net") PNone (PStr "CatBoost")) (inr (PObj 11));
        Called (Task_connect (PObj 7) (PObj 11)) (inr PNone);
        Called (Attr (PObj 11) "id") (inr (PStr "id-1"));
        Called (Attr (PObj 11) "url") (inr (PStr "file:///srv/a.cbm"));
        CacheSet (PStr "/srv/a.cbm") (PStr "id-1", PStr "file:///srv/a.cbm");
        Release]
  /\ cache (demo_restore [] [] (PStr "/srv/a.cbm") (PObj 7)).2 !! PStr "/srv/a.cbm"
     = Some (PStr "id-1", PStr "file:///srv/a.cbm").
Proof. vm_compute. auto. Qed.

Example create_registers_the_path :
  (demo_create [] [] (PStr "/srv/a.cbm") (PObj 7)).1 = Normal (PStr "/srv/a.cbm")
  /\ trace (demo_create [] [] (PStr "/srv/a.cbm") (PObj 7)).2
     = [Called (Attr (PObj 7) "id") (inr (PStr "id-1")); Acquire;
        Called (Abspath (PStr "/srv/a.cbm")) (inr (PStr "/srv/a.cbm"));
        Called (Is_dir "/srv/a.cbm") (inr false);
        CacheGet (PStr "/srv/a.cbm");
        Called (Attr (PObj 7) "output_uri") (inr PNone);
        Called (InputModel_load_model (PStr "/srv/a.cbm")) (inr PNone);
        Called (Attr (PObj 7) "name") (inr (PStr "train"));
        Called (Task_get_labels_enumeration (PObj 7)) (inr PNone);
        Called (OutputModel (PObj 7) PNone PNone (PStr "train - /srv/a.cbm") PNone
                  (PStr "CatBoost") PNone) (inr (PObj 12));
        Called (Attr (PObj 12) "upload_storage_uri") (inr PNone);
        Called (Update_weights_register (PObj 12) (PStr "/srv/a.cbm") false) (inr PNone);
        Called (Attr (PObj 12) "id") (inr (PStr "id-1"));
        Called (Attr (PObj 12) "url") (inr (PStr "file:///srv/a.cbm"));
        CacheSet (PStr "/srv/a.cbm") (PStr "id-1", PStr "file:///srv/a.cbm");
        Release]
  /\ cache (demo_create [] [] (PStr "/srv/a.cbm") (PObj 7)).2 !! PStr "/srv/a.cbm"
     = Some (PStr "id-1", PStr "file:///srv/a.cbm").
Proof. vm_compute. auto. Qed.

Example create_with_a_callback_that_returns_None :
  (demo_create [3%nat] [] (PStr "/srv/a.cbm") (PObj 7)).1 = Normal (PStr "/srv/a.cbm")
  /\ new_events demo_start (demo_create [3%nat] [] (PStr "/srv/a.cbm") (PObj 7)).2
     = [Called (Attr (PObj 7) "id") (inr (PStr "id-1")); Acquire;
        Called (Abspath (PStr "/srv/a.cbm")) (inr (PStr "/srv/a.cbm"));
        Called (Is_dir "/srv/a.cbm") (inr false);
        CallbackRan save
          (Info {| model := PNone; upload_filename := PStr "/srv/a.cbm";
                   local_model_path := PStr "/srv/a.cbm";
                   local_model_id := PStr "/srv/a.cbm"; framework := PStr "CatBoost";
                   task := PObj 7; weights_object := PObj 1 |})
          (CbReturned (Object PNone));
        Debug AttributeError; Release]
  /\ cache (demo_create [3%nat] [] (PStr "/srv/a.cbm") (PObj 7)).2 = ∅.
Proof. vm_compute. auto. Qed.

Example create_with_an_open_file :
  (demo_create [] [] (PObj 5) (PObj 7)).1 = Normal (PObj 5)
  /\ trace (demo_create [] [] (PObj 5) (PObj 7)).2
     = [Called (Attr (PObj 7) "id") (inr (PStr "id-1")); Acquire;
        Called (Abspath (PObj 5)) (inl TypeError); Release].
Proof. vm_compute. auto. Qed.

(** A path-like object is a key of the dictionary as it is. *)
Example create_with_a_path_like_object :
  (demo_create [] [] (PObj 6) (PObj 7)).1 = Normal (PObj 6)
  /\ writes (trace (demo_create [] [] (PObj 6) (PObj 7)).2)
     = [(PObj 6, (PStr "id-1", PStr "file:///srv/a.cbm"))]
  /\ cache (demo_create [] [] (PObj 6) (PObj 7)).2 !! PObj 6
     = Some (PStr "id-1", PStr "file:///srv/a.cbm").
Proof. vm_compute. auto. Qed.

(** A dictionary given as the path cannot be a key: the [TypeError] of line
    271 is logged and nothing is stored. *)
Example restore_with_an_unhashable_path :
  (demo_restore [] [] (PDict 1) (PObj 7)).1 = Normal (PDict 1)
  /\ new_events demo_start (demo_restore [] [] (PDict 1) (PObj 7)).2
     = [Called (Abspath (PDict 1)) (inl TypeError)].
Proof. vm_compute. auto. Qed.

Example restore_without_a_task :
  function_call
    (restore_weights_file demo_oracle demo_callback [1%nat] []
       (PObj 1) (PStr "/srv/a.cbm") (PStr "CatBoost") PNone)
    demo_start
  = (Normal (PStr "/srv/a.cbm"), demo_start).
Proof. reflexivity. Qed.

(** C2 as it is stated fails on the lines that no [try] guards.
    [create_output_model] raises what reading [task.id] raises (line 360);
    [restore_weights_file] raises what [os.path.abspath] raises other than
    [TypeError] (line 207), and what reading [local_model_path] raises when a
    pre callback returned something that is neither a [ModelInfo] nor [None]
    (line 233); and [_save], whose original returned, raises with
    [create_output_model] and loses the result. *)
Lemma handlers_raise_on_unguarded_lines :
  (demo_create [] [] (PStr "/srv/a.cbm") (PObj 8)).1 = Raising (Failure 3)
  /\ (demo_restore [] [] (PStr "a.cbm") (PObj 7)).1 = Raising (Failure 2)
  /\ (demo_restore [4%nat] [] (PStr "/srv/a.cbm") (PObj 7)).1 = Raising AttributeError
  /\ (demo_oracle pyval (Original_fn (PObj 1) (PStr "/srv/a.cbm")) (world demo_start)).1
     = inr (PObj 99)
  /\ (demo_save [] [] (PObj 8) (PStr "/srv/a.cbm")).1 = Raising (Failure 3).
Proof. vm_compute. auto 10. Qed.


Lemma function_call_state {W : Type} (m : M pyval) (s : @state W) :
  (function_call m s).2 = (m s).2.
Proof. unfold function_call. now destruct (m s) as [[a|e|v] s']. Qed.

Lemma demo_callbacks_keep (path : pyval) :
  callbacks_keep demo_callback (fun k => k = path) [0%nat; 2%nat; 0%nat].
Proof.
  intros cb kind model_info w Hin Hok. simpl in Hin.
  destruct Hin as [<-|[<-|[<-|[]]]]; destruct model_info as [i|o]; exact Hok.
Defined.


(** Traces that break the discipline: the dictionary used without the lock,
    a lock that is left held, a release too many. *)
Example lock_discipline_rejects :
  lock_discipline [CacheGet (PStr "/srv/a.cbm")] = false
  /\ lock_discipline [Acquire; CacheSet PNone (PNone, PNone)] = false
  /\ lock_discipline [Acquire; Release; Release] = false
  /\ lock_discipline [Acquire; CacheGet PNone; Release; CacheSet PNone (PNone, PNone)]
     = false.
Proof. repeat split; reflexivity. Qed.

Example lock_discipline_of_a_run :
  lock_discipline
    (new_events demo_start (demo_create [0%nat; 2%nat] [1%nat] (PStr "/m") (PObj 7)).2)
  = true
  /\ count_event is_acquire
       (trace (demo_create [0%nat; 2%nat] [1%nat] (PStr "/m") (PObj 7)).2) = 1%nat
  /\ lock_held (demo_create [0%nat; 2%nat] [1%nat] (PStr "/m") (PObj 7)).2 = false.
Proof. vm_compute. auto. Qed.

Example save_returns_what_the_original_returned :
  (demo_save [2%nat] [3%nat] (PObj 7) (PStr "/srv/a.cbm")).1 = Normal (PObj 99).
Proof. vm_compute. reflexivity. Qed.

Lemma dictionary_used_under_lock_witness :
  lock_held (restore_weights_file demo_oracle demo_callback [0%nat; 2%nat] [3%nat]
               (PObj 1) (PStr "/srv/a.cbm") (PStr "CatBoost") (PObj 7) demo_start).2
  = false
  /\ lock_held (create_output_model demo_oracle demo_callback (fun p => p) (fun p => p)
                  (fun p => p) [0%nat; 2%nat] [3%nat] (PObj 1) (PStr "/srv/a.cbm")
                  (PStr "CatBoost") (PObj 7) true PNone PNone demo_start).2
     = false
  /\ lock_discipline
       (new_events demo_start
          (restore_weights_file demo_oracle demo_callback [0%nat; 2%nat] [3%nat]
             (PObj 1) (PStr "/srv/a.cbm") (PStr "CatBoost") (PObj 7) demo_start).2)
     = true.
Proof.
  destruct (dictionary_used_under_lock demo_oracle demo_callback (fun p => p)
              (fun p => p) (fun p => p) [0%nat; 2%nat] [3%nat]
              (PObj 1) (PStr "/srv/a.cbm") (PStr "CatBoost") (PObj 7)
              true PNone PNone demo_start) as ((Hd & _ & Hl) & (_ & _ & Hl')).
  split; [exact (Hl eq_refl)|]. split; [exact (Hl' eq_refl) | exact Hd].
Defined.

Example load_returns_what_the_original_returned :
  (demo_load [2%nat] [3%nat] (PObj 1) [PStr "/srv/a.cbm"]).1 = Normal (PObj 99)
  /\ count_event is_original
       (trace (demo_load [2%nat] [3%nat] (PObj 1) [PStr "/srv/a.cbm"]).2) = 1%nat.
Proof. vm_compute. auto. Qed.

(** The model that the original returned is lost when
    [restore_weights_file] raises. *)
Example load_loses_the_model :
  demo_load [] [] (PObj 1) [PStr "a.cbm"]
  = (Raising (Failure 2),
     State 2%nat false ∅
       [Called (Original_fn (PObj 1) (PStr "a.cbm")) (inr (PObj 99));
        Called (Abspath (PStr "a.cbm")) (inl (Failure 2))]).
Proof. vm_compute. reflexivity. Qed.

(** The second of two loads of the same file resolves the model by its id. *)
Example restore_twice :
  new_events (demo_restore [] [] (PStr "/srv/a.cbm") (PObj 7)).2
    (restore_weights_file demo_oracle demo_callback [] []
       (PObj 1) (PStr "/srv/a.cbm") (PStr "CatBoost") (PObj 7)
       (demo_restore [] [] (PStr "/srv/a.cbm") (PObj 7)).2).2
  = [Called (Abspath (PStr "/srv/a.cbm")) (inr (PStr "/srv/a.cbm"));
     Acquire; Called (Getattr_name (PObj 1)) (inr (PStr "net"));
     CacheGet (PStr "/srv/a.cbm");
     Called (InputModel (PStr "id-1")) (inr (PObj 10));
     Called (Task_connect (PObj 7) (PObj 10)) (inr PNone);
     Called (Attr (PObj 10) "id") (inr (PStr "id-1"));
     Called (Attr (PObj 10) "url") (inr (PStr "file:///srv/a.cbm"));
     CacheSet (PStr "/srv/a.cbm") (PStr "id-1", PStr "file:///srv/a.cbm");
     Release].
Proof. vm_compute. reflexivity. Qed.

Lemma pre_callback_returning_None_disables_tracking_witness :
  (demo_restore [0%nat; 3%nat] [1%nat] (PStr "/srv/a.cbm") (PObj 7)).1
  = Normal (PStr "/srv/a.cbm")
  /\ (demo_create [0%nat; 3%nat] [1%nat] (PStr "/srv/a.cbm") (PObj 7)).1
     = Normal (PStr "/srv/a.cbm")
  /\ forallb (untracked (PObj 7))
       (new_events demo_start
          (demo_create [0%nat; 3%nat] [1%nat] (PStr "/srv/a.cbm") (PObj 7)).2)
     = true
  /\ cache (demo_create [0%nat; 3%nat] [1%nat] (PStr "/srv/a.cbm") (PObj 7)).2
     = cache demo_start.
Proof.
  destruct (pre_callback_returning_None_disables_tracking demo_oracle demo_callback
              (fun p => p) (fun p => p) (fun p => p) [0%nat; 3%nat] [1%nat]
              [0%nat] 3%nat (PObj 1) (PStr "/srv/a.cbm") (PStr "CatBoost")
              (PObj 7) true PNone PNone demo_start)
    as (H1 & _ & _ & H2 & H3 & H4).
  - reflexivity.
  - intros kind [given|o] w; reflexivity.
  - split; [|split; [|split; [exact H3 | exact H4]]].
    + destruct H1 as [H1|(e & _ & _ & H1 & _)]; [exact H1 | discriminate H1].
    + destruct H2 as [H2|(e & _ & _ & H2)]; [exact H2 | discriminate H2].
Defined.

Lemma unusable_path_is_not_tracked_witness :
  (exists body,
     new_events demo_start (demo_create [0%nat] [1%nat] (PObj 5) (PObj 7)).2
     = Called (Attr (PObj 7) "id") (inr (PStr "id-1")) :: Acquire :: body ++ [Release]
     /\ no_path (PObj 5) body)
  /\ (demo_restore [0%nat] [1%nat] (PObj 5) (PObj 7)).1 = Normal (PObj 5).
Proof.
  destruct (unusable_path_is_not_tracked demo_oracle demo_callback
              (fun p => p) (fun p => p) (fun p => p) [0%nat] [1%nat]
              (PObj 1) (PObj 5) (PStr "CatBoost") (PObj 7) (PStr "id-1") true PNone PNone
              demo_start)
    as (_ & H1 & _ & H2).
  - reflexivity.
  - reflexivity.
  - right. intros w. reflexivity.
  - split; [exact H1 | apply H2; reflexivity].
Defined.

Lemma stored_model_is_not_imported_again_witness :
  forallb (fun ev => negb (imports ev))
    (new_events (demo_restore [] [] (PStr "/srv/a.cbm") (PObj 7)).2
       (restore_weights_file demo_oracle demo_callback [] []
          (PObj 1) (PStr "/srv/a.cbm") (PStr "CatBoost") (PObj 7)
          (demo_restore [] [] (PStr "/srv/a.cbm") (PObj 7)).2).2) = true.
Proof.
  apply (stored_model_is_not_imported_again demo_oracle demo_callback [] []
           (PObj 1) (PStr "CatBoost") (PObj 7) (PStr "id-1") (PStr "file:///srv/a.cbm")
           "/srv/a.cbm").
  - reflexivity.
  - reflexivity.
  - discriminate.
  - vm_compute. reflexivity.
  - reflexivity.
  - intros w. eexists. reflexivity.
Defined.

End Handler.

(** ** clearml/utilities/config.py : [config_dict_to_text] and
       [text_to_config_dict] *)

Module Config.

Local Open Scope string_scope.

(** A configuration object: what [json] can hold, with dictionary keys that
    are strings or something else. *)
Inductive key :=
| KStr (s : string)
| KOther (k : Z).

#[local] Unset Elimination Schemes.
Inductive config :=
| CStr (s : string)
| CInt (z : Z)
| CBool (b : bool)
| CNone
| CList (items : list config)
| CDict (entries : list (key * config)).
#[local] Set Elimination Schemes.

Inductive exn :=
| ValueError_unsupported        (* "Configuration only supports dictionary/list objects" *)
| ValueError_not_serialized     (* "Could not serialize configuration dictionary" *)
| ValueError_not_string         (* "Configuration parsing only supports string" *)
| ValueError_not_parsed.        (* "Could not parse configuration text" *)

Inductive result (A : Type) :=
| Raised (e : exn)
| Returned (a : A).
Arguments Raised {A} e.
Arguments Returned {A} a.

Definition special_chars : string := "$}[]:=+#`^?!@*&.".

(** [any(key_char in special_chars for key_char in key)] *)
Fixpoint has_special_char (k : string) : bool :=
  match k with
  | EmptyString => false
  | String c rest => Unpack.char_in c special_chars || has_special_char rest
  end.

Definition key_is_special (k : key) : bool :=
  match k with
  | KStr s => has_special_char s
  | KOther _ => false
  end.

(** Lines 66-80; [true]: the [ValueError] is raised.  Only dictionaries, and
    the values of dictionaries, are looked at. *)
Fixpoint raise_on_special_key (config_ : config) : bool :=
  match config_ with
  | CDict entries =>
      existsb (fun kv => key_is_special kv.1) entries
      || existsb (fun kv => raise_on_special_key kv.2) entries
  | _ => false
  end.

(** A dictionary key that contains one of the special characters, in the
    dictionary itself or in a dictionary that is reached from it through
    values of dictionaries alone. *)
Inductive offending : config -> Prop :=
| offending_here entries k v c :
    In (KStr k, v) entries ->
    In c (list_ascii_of_string k) -> In c (list_ascii_of_string special_chars) ->
    offending (CDict entries)
| offending_below entries k v :
    In (k, v) entries -> offending v -> offending (CDict entries).

Section WithPyhocon.

(** The vendored pyhocon and the key quoting of [.dicts], which are not part
    of the sources: serialising a quoted dictionary, serialising what
    [json.dumps] writes, and parsing; [None] stands for an exception. *)
Variable to_hocon_from_dict : config -> option string.
Variable to_hocon_from_json : config -> option string.
Variable parse_string : string -> option config.

(** Lines 56-95. *)
Definition config_dict_to_text (config_ : config) : result string :=
  match config_ with
  | CStr s => Returned s
  | CInt _ | CBool _ | CNone => Raised ValueError_unsupported
  | CList _ | CDict _ =>
      let direct :=
        if raise_on_special_key config_ then None else to_hocon_from_dict config_ in
      match direct with
      | Some text => Returned text
      | None =>
          match to_hocon_from_json config_ with
          | Some text => Returned text
          | None => Raised ValueError_not_serialized
          end
      end
  end.

(** Lines 98-111, for a string argument. *)
Definition text_to_config_dict (text : string) : result config :=
  match parse_string text with
  | Some c => Returned c
  | None => Raised ValueError_not_parsed
  end.

(** A string is returned as it is. *)
Lemma config_dict_to_text_string (s : string) : config_dict_to_text (CStr s) = Returned s.
Proof. reflexivity. Qed.

(** A dictionary with a special character in a key, at any depth of nested
    dictionaries, is never serialised directly. *)
Lemma config_dict_to_text_special_key (config_ : config) :
  raise_on_special_key config_ = true ->
  config_dict_to_text config_
  = match to_hocon_from_json config_ with
    | Some text => Returned text
    | None => Raised ValueError_not_serialized
    end.
Proof.
  destruct config_; simpl; try discriminate. now intros ->.
Qed.

Lemma char_in_In c s : Unpack.char_in c s = true <-> In c (list_ascii_of_string s).
Proof.
  induction s as [|d s IH]; simpl; [split; [discriminate | contradiction]|].
  rewrite orb_true_iff, IH, Ascii.eqb_eq. split; intros [H|H]; auto.
Qed.

Lemma has_special_char_In k :
  has_special_char k = true
  <-> exists c, In c (list_ascii_of_string k) /\ In c (list_ascii_of_string special_chars).
Proof.
  induction k as [|d k IH]; cbn [has_special_char list_ascii_of_string].
  - split; [discriminate | intros (c & [] & _)].
  - rewrite orb_true_iff, IH, char_in_In. split.
    + intros [H|(c & H1 & H2)]; [exists d | exists c];
        (split; [first [now left | now right] | assumption]).
    + intros (c & [<-|H1] & H2); [now left | right; eauto].
Qed.

Lemma raise_on_special_key_offending :
  forall config_, raise_on_special_key config_ = true -> offending config_.
Proof.
  fix IH 1. intros [s|z|b| |items|entries]; simpl; try discriminate.
  intros H. apply orb_true_iff in H as [H|H].
  - apply existsb_exists in H as ([k v] & Hin & Hk). destruct k as [k|k]; [|discriminate].
    apply has_special_char_In in Hk as (c & H1 & H2). eapply offending_here; eauto.
  - assert (exists k v, In (k, v) entries /\ offending v) as (k & v & Hin & Hv).
    { induction entries as [|[k v] entries IHe]; simpl in H; [discriminate|].
      apply orb_true_iff in H as [H|H].
      - exists k, v. split; [now left | now apply IH].
      - destruct (IHe H) as (k' & v' & Hin & Hv). exists k', v'. split; [now right | exact Hv]. }
    eapply offending_below; eauto.
Qed.

Lemma offending_raise_on_special_key config_ :
  offending config_ -> raise_on_special_key config_ = true.
Proof.
  induction 1 as [entries k v c Hin H1 H2 | entries k v Hin Hv IH]; simpl;
    apply orb_true_iff; [left | right]; apply existsb_exists.
  - exists (KStr k, v). split; [exact Hin|]. simpl. apply has_special_char_In. eauto.
  - exists (k, v). auto.
Qed.

(** X26: which dictionaries [config_dict_to_text] does not serialise
    directly.  [raise_on_special_key] raises exactly when a string key with
    one of the special characters sits in the dictionary or in a dictionary
    reached from it through dictionary values alone; such a configuration is
    serialised through [json.dumps], whatever the direct serialiser would do
    with it.  A key inside a list is not looked at, and neither is any key of
    a configuration that is a list. *)
Theorem special_key_decides_the_route (config_ : config) :
  (raise_on_special_key config_ = true <-> offending config_)
  /\ (offending config_ ->
      config_dict_to_text config_
      = match to_hocon_from_json config_ with
        | Some text => Returned text
        | None => Raised ValueError_not_serialized
        end)
  /\ (forall items, ~ offending (CList items))
  /\ (forall k items, ~ offending (CDict [(KOther k, CList items)])).
Proof.
  split; [split; [apply raise_on_special_key_offending
                 | apply offending_raise_on_special_key]|].
  split; [intros H; apply config_dict_to_text_special_key;
          now apply offending_raise_on_special_key|].
  split.
  - intros items H. apply offending_raise_on_special_key in H. discriminate.
  - intros k items H. apply offending_raise_on_special_key in H. discriminate.
Qed.

End WithPyhocon.

Example nested_special_key :
  raise_on_special_key
    (CDict [(KStr "model", CDict [(KStr "lr.decay", CInt 1)]); (KOther 3, CNone)]) = true
  /\ raise_on_special_key
       (CDict [(KStr "layers", CList [CDict [(KStr "a.b", CInt 1)]])]) = false.
Proof. split; reflexivity. Qed.

End Config.

(** ** clearml/binding/frameworks/catboost_bind.py :
       [_fit], [ClearMLCallback], [update_current_task] and [_patch_model_io] *)

Module CatBoost.

Local Open Scope nat_scope.
Local Open Scope string_scope.
Local Open Scope list_scope.

(** What the code outside the file raises, and what Python raises in it. *)
Inductive exn :=
| TypeError
| AttributeError
| IndexError
| Failure (code : Z).

(** A callback object in the [callbacks] argument of [fit]: one of the
    caller's own, or an instance of [ClearMLCallback], which holds its logger
    and its [_scalar_index]. *)
Inductive callback :=
| UserCallback (c : Z)
| ClearMLCallback (logger : Z) (scalar_index : nat).

(** The entry [callbacks] of [kwargs]: no such key, [None], a list, or a
    tuple. *)
Inductive callbacks_arg :=
| Absent
| GivenNone
| GivenList (l : list callback)
| GivenTuple (l : list callback).

(** One call of the original [fit]: the object, the remaining arguments
    (named by a number), the [callbacks] entry, and how the call ended. *)
Record fit_call := FitCall {
  call_obj : Z;
  call_rest : Z;
  call_callbacks : callbacks_arg;
  call_answer : exn + Z
}.

Section WithCatBoost.

(** The original [fit], [task.get_logger()] and [logger.report_text(...)]
    ([Some e]: it raises). *)
Context {W : Type}.
Variable original_fn : Z -> Z -> callbacks_arg -> W -> (exn + Z) * W.
Variable get_logger : Z -> W -> (exn + Z) * W.
Variable report_text : Z -> W -> option exn * W.

(** The class attribute [ClearMLCallback._scalar_index_counter], the world,
    and the calls of the original so far. *)
Record state := State {
  _scalar_index_counter : nat;
  world : W;
  calls : list fit_call
}.

(** [original_fn(obj, *args, **kwargs)] *)
Definition call_original (obj rest : Z) (given : callbacks_arg) (st : state)
  : (exn + Z) * state :=
  let '(answer, w) := original_fn obj rest given (world st) in
  (answer, State (_scalar_index_counter st) w (calls st ++ [FitCall obj rest given answer])).

(** [ClearMLCallback.__init__], lines 133-136. *)
Definition new_callback (task : Z) (st : state) : (exn + callback) * state :=
  match get_logger task (world st) with
  | (inl e, w) => (inl e, State (_scalar_index_counter st) w (calls st))
  | (inr logger, w) =>
      (inr (ClearMLCallback logger (_scalar_index_counter st)),
       State (S (_scalar_index_counter st)) w (calls st))
  end.

(** [kwargs.get("callbacks") or []], as the left operand of the [+] of line
    115: a list, or a tuple that is not empty and cannot be added to a list. *)
Definition callbacks_or_empty (given : callbacks_arg) : option (list callback) :=
  match given with
  | Absent | GivenNone => Some []
  | GivenList l => Some l
  | GivenTuple [] => Some []
  | GivenTuple (_ :: _) => None
  end.

(** Lines 111-126; [current_task] is [PatchCatBoostModelIO._current_task]. *)
Definition _fit (current_task : option Z) (obj rest : Z) (given : callbacks_arg)
    (st : state) : (exn + Z) * state :=
  match current_task with
  | None => call_original obj rest given st
  | Some task =>
      match new_callback task st with
      | (inl e, st1) => (inl e, st1)
      | (inr cb, st1) =>
          match callbacks_or_empty given with
          | None => (inl TypeError, st1)
          | Some callbacks =>
              match call_original obj rest (GivenList (callbacks ++ [cb])) st1 with
              | (inr v, st2) => (inr v, st2)
              | (inl _, st2) =>
                  match get_logger task (world st2) with
                  | (inl e, w) => (inl e, State (_scalar_index_counter st2) w (calls st2))
                  | (inr logger, w) =>
                      match report_text logger w with
                      | (Some e, w') =>
                          (inl e, State (_scalar_index_counter st2) w' (calls st2))
                      | (None, w') =>
                          (* del kwargs["callbacks"] *)
                          call_original obj rest Absent
                            (State (_scalar_index_counter st2) w' (calls st2))
                      end
                  end
              end
          end
      end
  end.

(** A series of calls of the patched [fit] for one task. *)
Definition fit_all (task : Z) (requests : list (Z * Z * callbacks_arg)) (st : state)
  : state :=
  fold_left (fun st r => (_fit (Some task) r.1.1 r.1.2 r.2 st).2) requests st.

End WithCatBoost.

(** The scalar indices of the [ClearMLCallback]s among callbacks. *)
Definition indices_in (l : list callback) : list nat :=
  flat_map (fun cb => match cb with ClearMLCallback _ i => [i] | UserCallback _ => [] end) l.

Definition indices_of (given : callbacks_arg) : list nat :=
  match given with
  | GivenList l | GivenTuple l => indices_in l
  | Absent | GivenNone => []
  end.

(** The scalar indices handed to the original in a series of calls. *)
Definition indices_passed (cs : list fit_call) : list nat :=
  flat_map (fun c => indices_of (call_callbacks c)) cs.

(** Line 142-143: the title under which a metric is reported. *)
Definition title_for (scalar_index : nat) (title : string) : string :=
  if Nat.eqb scalar_index 0 then title else title ++ " - " ++ pretty scalar_index.

Section WithValues.

(** Metric values and iteration numbers, which are only handed on. *)
Context {V I : Type}.

(** One call of [logger.report_scalar]. *)
Record scalar := Scalar {
  scalar_title : string;
  scalar_series : string;
  scalar_value : V;
  scalar_iteration : I
}.

(** Lines 144-146: the scalars reported for one metric, and whether every
    log had a last element. *)
Fixpoint report_metric (title : string) (iteration : I) (metric : list (string * list V))
  : list scalar * bool :=
  match metric with
  | [] => ([], true)
  | (series, log) :: rest =>
      match List.last (map Some log) None with
      | None => ([], false)          (* log[-1] of an empty list *)
      | Some value =>
          let '(reported, ok) := report_metric title iteration rest in
          (Scalar title series value iteration :: reported, ok)
      end
  end.

(** Lines 141-146. *)
Fixpoint report_metrics (scalar_index : nat) (iteration : I)
    (metrics : list (string * list (string * list V))) : list scalar * bool :=
  match metrics with
  | [] => ([], true)
  | (title, metric) :: rest =>
      let '(reported, ok) := report_metric (title_for scalar_index title) iteration metric in
      if ok then
        let '(reported', ok') := report_metrics scalar_index iteration rest in
        (reported ++ reported', ok')
      else (reported, false)
  end.

(** [ClearMLCallback.after_iteration], lines 138-147: what is reported, and
    the value returned or the exception raised. *)
Definition after_iteration (scalar_index : nat) (iteration : I)
    (metrics : option (list (string * list (string * list V))))
  : list scalar * (exn + bool) :=
  let '(reported, ok) := report_metrics scalar_index iteration (default [] metrics) in
  (reported, if ok then inr true else inl IndexError).

End WithValues.

(** The class attributes of [PatchCatBoostModelIO], with what has been done
    to [catboost]: how often the block of lines 42-48 has wrapped the six
    methods, how often the import hook has been registered, and how often
    the failure of line 51 has been reported. *)
Record patching := Patching {
  _current_task : option Z;
  __patched : bool;
  wrapped : nat;
  hooks : nat;
  reported_failures : nat
}.

(** What a call finds outside: whether ["catboost"] is in [sys.modules],
    whether the four classes can be imported from it, and whether the logger
    calls of lines 50-51 return. *)
Record environment := Environment {
  in_sys_modules : bool;
  import_succeeds : bool;
  logger_works : bool
}.

(** Lines 27-51; [Some e]: the call raises. *)
Definition _patch_model_io (env : environment) (p : patching) : option exn * patching :=
  if __patched p then (None, p)
  else if negb (in_sys_modules env) then (None, p)
  else
    let p := Patching (_current_task p) true (wrapped p) (hooks p) (reported_failures p) in
    if import_succeeds env then
      (None, Patching (_current_task p) true (S (wrapped p)) (hooks p) (reported_failures p))
    else
      match _current_task p with
      | None => (Some AttributeError, p)      (* None.get_logger() *)
      | Some _ =>
          if logger_works env then
            (None, Patching (_current_task p) true (wrapped p) (hooks p)
                     (S (reported_failures p)))
          else (Some (Failure 0), p)
      end.

(** Lines 19-24. *)
Definition update_current_task (task : option Z) (env : environment) (p : patching)
  : option exn * patching :=
  let p := Patching task (__patched p) (wrapped p) (hooks p) (reported_failures p) in
  match task with
  | None => (None, p)
  | Some _ =>
      match _patch_model_io env p with
      | (Some e, p') => (Some e, p')
      | (None, p') =>
          (None, Patching (_current_task p') (__patched p') (wrapped p') (S (hooks p'))
                   (reported_failures p'))
      end
  end.

(** What happens to the class over time: [update_current_task] is called, or
    the import hook calls [_patch_model_io]. *)
Inductive operation :=
| Update (task : option Z) (env : environment)
| ImportHook (env : environment).

Definition perform (p : patching) (o : operation) : patching :=
  match o with
  | Update task env => (update_current_task task env p).2
  | ImportHook env => (_patch_model_io env p).2
  end.

(** The class as it is defined, lines 14-16. *)
Definition unpatched : patching := Patching None false 0 0 0.

(** What one call of the patched [fit] for a task may add to the calls of the
    original: nothing (no logger, or callbacks in a tuple), one call that
    carries the caller's callbacks followed by a [ClearMLCallback], or, when
    that call raised, the same call again without any callbacks. *)
Definition block_ok (r : Z * Z * callbacks_arg) (b : list fit_call) : Prop :=
  b = []
  \/ exists user logger i answer,
       callbacks_or_empty r.2 = Some user
       /\ (b = [FitCall r.1.1 r.1.2 (GivenList (user ++ [ClearMLCallback logger i])) answer]
           \/ exists e again,
                answer = inl e
                /\ b = [FitCall r.1.1 r.1.2 (GivenList (user ++ [ClearMLCallback logger i]))
                          answer;
                        FitCall r.1.1 r.1.2 Absent again]).

(** A [fit] that fails whenever it is given callbacks, as on a GPU. *)
Definition demo_fit (obj rest : Z) (given : callbacks_arg) (w : nat) : (exn + Z) * nat :=
  (match given with
   | Absent | GivenNone => inr obj
   | _ => if (obj =? 2)%Z then inl (Failure 1792) else inr obj
   end, S w).

Definition demo_logger (task : Z) (w : nat) : (exn + Z) * nat := (inr 70%Z, w).

Definition demo_report (logger : Z) (w : nat) : option exn * nat := (None, w).

Definition demo_fits : @state nat :=
  fit_all demo_fit demo_logger demo_report 7
    [(1%Z, 0%Z, GivenList [UserCallback 5]); (2%Z, 0%Z, GivenList [UserCallback 5]);
     (3%Z, 0%Z, Absent)]
    (State 0 0 []).

Section WithCatBoostFacts.

Context {W : Type}.
Variable original_fn : Z -> Z -> callbacks_arg -> W -> (exn + Z) * W.
Variable get_logger : Z -> W -> (exn + Z) * W.
Variable report_text : Z -> W -> option exn * W.

Local Abbreviation state := (@CatBoost.state W).
Local Abbreviation _fit := (CatBoost._fit original_fn get_logger report_text).
Local Abbreviation fit_all := (CatBoost.fit_all original_fn get_logger report_text).

Lemma indices_in_app l1 l2 : indices_in (l1 ++ l2) = indices_in l1 ++ indices_in l2.
Proof. unfold indices_in. apply flat_map_app. Qed.

Lemma indices_passed_app cs1 cs2 :
  indices_passed (cs1 ++ cs2) = indices_passed cs1 ++ indices_passed cs2.
Proof. unfold indices_passed. apply flat_map_app. Qed.

Lemma callbacks_or_empty_indices given user :
  callbacks_or_empty given = Some user -> indices_of given = [] -> indices_in user = [].
Proof.
  destruct given as [| |l|[|cb l]]; simpl; intros [= <-]; auto; discriminate.
Qed.

(** One call of the patched [fit] for a task. *)
Lemma fit_step task (r : Z * Z * callbacks_arg) (st : state) :
  indices_of r.2 = [] ->
  let st' := (_fit (Some task) r.1.1 r.1.2 r.2 st).2 in
  exists b,
    calls st' = calls st ++ b
    /\ block_ok r b
    /\ (_scalar_index_counter st <= _scalar_index_counter st')
    /\ (indices_passed b = []
        \/ (indices_passed b = [_scalar_index_counter st]
            /\ _scalar_index_counter st' = S (_scalar_index_counter st))).
Proof.
  intros Huser. cbv zeta. unfold _fit, new_callback.
  destruct (get_logger task (world st)) as [[e|logger] w]; simpl.
  { exists []. rewrite app_nil_r. repeat split; auto. now left. }
  destruct (callbacks_or_empty r.2) as [user|] eqn:Eu; simpl.
  2: { exists []. rewrite app_nil_r. repeat split; auto. now left. }
  pose proof (callbacks_or_empty_indices _ _ Eu Huser) as Hi.
  unfold call_original. simpl.
  destruct (original_fn r.1.1 r.1.2 _ w) as [[e|v] w1]; simpl.
  - destruct (get_logger task w1) as [[e'|logger'] w2]; simpl.
    { eexists [_]. split; [reflexivity|]. split; [|split; [lia|]].
      - right. exists user, logger, (_scalar_index_counter st), (inl e). auto.
      - right. unfold indices_passed. simpl. rewrite indices_in_app, Hi. auto. }
    destruct (report_text logger' w2) as [[e'|] w3]; simpl.
    { eexists [_]. split; [reflexivity|]. split; [|split; [lia|]].
      - right. exists user, logger, (_scalar_index_counter st), (inl e). auto.
      - right. unfold indices_passed. simpl. rewrite indices_in_app, Hi. auto. }
    destruct (original_fn r.1.1 r.1.2 Absent w3) as [again w4]; simpl.
    eexists [_; _]. split; [now rewrite <- app_assoc|]. split; [|split; [lia|]].
    + right. exists user, logger, (_scalar_index_counter st), (inl e).
      split; [exact Eu|]. right. eauto.
    + right. unfold indices_passed. simpl. rewrite indices_in_app, Hi. auto.
  - eexists [_]. split; [reflexivity|]. split; [|split; [lia|]].
    + right. exists user, logger, (_scalar_index_counter st), (inr v). auto.
    + right. unfold indices_passed. simpl. rewrite indices_in_app, Hi. auto.
Qed.

Lemma fit_all_cons task r requests (st : state) :
  fit_all task (r :: requests) st
  = fit_all task requests (_fit (Some task) r.1.1 r.1.2 r.2 st).2.
Proof. reflexivity. Qed.

Lemma fit_all_blocks task requests : forall st : state,
  Forall (fun r : Z * Z * callbacks_arg => indices_of r.2 = []) requests ->
  let st' := fit_all task requests st in
  exists blocks,
    calls st' = calls st ++ concat blocks
    /\ Forall2 block_ok requests blocks
    /\ _scalar_index_counter st <= _scalar_index_counter st'
    /\ NoDup (indices_passed (concat blocks))
    /\ Forall (fun i => _scalar_index_counter st <= i < _scalar_index_counter st')
              (indices_passed (concat blocks)).
Proof.
  induction requests as [|r requests IH]; intros st Hu; cbv zeta.
  - exists []. simpl. rewrite app_nil_r. repeat split; auto; constructor.
  - apply Forall_cons in Hu as [Hr Hu]. rewrite fit_all_cons.
    destruct (fit_step task r st Hr) as (b & Hb & Hok & Hle & Hi). cbv zeta in Hb, Hle, Hi.
    set (st1 := (_fit (Some task) r.1.1 r.1.2 r.2 st).2) in *.
    destruct (IH st1 Hu) as (blocks & Hc & Hall & Hle' & Hnd & Hrange). cbv zeta in *.
    exists (b :: blocks). simpl.
    split; [rewrite Hc, Hb; now rewrite <- app_assoc|].
    split; [now constructor|]. split; [lia|].
    rewrite indices_passed_app.
    destruct Hi as [->|[-> Hs]]; simpl.
    + split; [exact Hnd|]. eapply Forall_impl; [exact Hrange|]. simpl. intros; lia.
    + split.
      * apply NoDup_cons. split; [|exact Hnd]. intros Hin.
        rewrite Forall_forall in Hrange. specialize (Hrange _ Hin). lia.
      * apply Forall_cons. split; [lia|].
        eapply Forall_impl; [exact Hrange|]. simpl. intros; lia.
Qed.

(** X23: what the patched [fit] hands to the original over a series of calls
    for a task, when the callers pass no [ClearMLCallback] of their own.  Each
    call of [fit] calls the original at most twice: first with the caller's
    callbacks followed by one new [ClearMLCallback], and again only if that
    call raised, and then without any callbacks at all, the caller's
    included.  No two of the callbacks handed over share a scalar index. *)
Theorem fit_callbacks_are_fresh
    (task : Z) (requests : list (Z * Z * callbacks_arg)) (st : state) :
  Forall (fun r : Z * Z * callbacks_arg => indices_of r.2 = []) requests ->
  calls st = [] ->
  let st' := fit_all task requests st in
  (exists blocks, calls st' = concat blocks /\ Forall2 block_ok requests blocks)
  /\ NoDup (indices_passed (calls st'))
  /\ Forall (fun i => _scalar_index_counter st <= i < _scalar_index_counter st')
            (indices_passed (calls st')).
Proof.
  intros Hu Hempty. cbv zeta.
  destruct (fit_all_blocks task requests st Hu) as (blocks & Hc & Hall & _ & Hnd & Hr).
  cbv zeta in *. rewrite Hempty in Hc. simpl in Hc. rewrite Hc. eauto.
Qed.

End WithCatBoostFacts.

Lemma string_length_app (s1 s2 : string) :
  String.length (s1 ++ s2) = String.length s1 + String.length s2.
Proof. induction s1 as [|c s1 IH]; simpl; [reflexivity | now rewrite IH]. Qed.

Lemma title_for_length i title :
  i <> 0 -> String.length title < String.length (title_for i title).
Proof.
  intros Hi. unfold title_for. destruct (Nat.eqb_spec i 0) as [->|_]; [contradiction|].
  rewrite !string_length_app. simpl. lia.
Qed.

(** Instances with different scalar indices report a metric under different
    titles. *)
Lemma title_for_inj i j title : title_for i title = title_for j title -> i = j.
Proof.
  intros E. destruct (Nat.eq_dec i 0) as [->|Hi], (Nat.eq_dec j 0) as [->|Hj]; auto.
  - pose proof (title_for_length j title Hj) as H. rewrite <- E in H.
    unfold title_for in H. simpl in H. lia.
  - pose proof (title_for_length i title Hi) as H. rewrite E in H.
    unfold title_for in H. simpl in H. lia.
  - unfold title_for in E.
    destruct (Nat.eqb_spec i 0) as [|_]; [contradiction|].
    destruct (Nat.eqb_spec j 0) as [|_]; [contradiction|].
    apply String.app_inj in E. apply String.app_inj in E.
    now apply pretty_nat_inj in E.
Qed.

Section WithValuesFacts.

Context {V I : Type}.

Lemma report_metric_scalars title (iteration : I) (metric : list (string * list V)) :
  let out := report_metric title iteration metric in
  (out.2 = true <-> Forall (fun sl : string * list V => sl.2 <> []) metric)
  /\ (out.2 = true -> length out.1 = length metric)
  /\ Forall (fun sc => scalar_title sc = title /\ scalar_iteration sc = iteration
                       /\ exists log, In (scalar_series sc, log) metric
                                      /\ List.last (map Some log) None
                                         = Some (scalar_value sc)) out.1.
Proof.
  cbv zeta. induction metric as [|[series log] metric IH]; simpl.
  - repeat split; auto.
  - destruct (List.last (map Some log) None) as [value|] eqn:El; simpl.
    + destruct (report_metric title iteration metric) as [reported ok]. simpl in *.
      destruct IH as (Hok & Hlen & Hall).
      assert (log <> []) as Hne by (intros ->; discriminate).
      split; [|split].
      * rewrite Hok. split; [intros H; constructor; auto|].
        intros H. now apply Forall_cons in H as [_ H].
      * intros H. now rewrite Hlen.
      * constructor; [simpl; eauto 10|].
        eapply Forall_impl; [exact Hall|]. simpl.
        intros sc (H1 & H2 & log' & H3 & H4). eauto 10.
    + split; [|split; [discriminate | constructor]].
      split; [discriminate|]. intros H. apply Forall_cons in H as [H _]. simpl in H.
      destruct log as [|v log]; [contradiction|]. exfalso. clear - El.
      revert v El. induction log as [|v' log IH]; intros v; simpl; [discriminate|].
      apply IH.
Qed.

(** X24: what [ClearMLCallback.after_iteration] reports.  It returns [True]
    exactly when every log of every metric has a last element, and raises
    [IndexError] otherwise; every scalar it reports carries the given
    iteration, the last value of the log of its series, and as title the
    metric's own for the instance with index 0 and the metric's followed by
    the index for any other, so that instances with different indices never
    report the same metric under the same title. *)
Theorem after_iteration_reports
    (scalar_index : nat) (iteration : I)
    (metrics : option (list (string * list (string * list V)))) :
  let out := after_iteration scalar_index iteration metrics in
  (out.2 = inr true \/ out.2 = inl IndexError)
  /\ (out.2 = inr true <->
      Forall (fun tm : string * list (string * list V) =>
                Forall (fun sl : string * list V => sl.2 <> []) tm.2)
             (default [] metrics))
  /\ Forall (fun sc =>
               scalar_iteration sc = iteration
               /\ exists title metric log,
                    In (title, metric) (default [] metrics)
                    /\ scalar_title sc = title_for scalar_index title
                    /\ In (scalar_series sc, log) metric
                    /\ List.last (map Some log) None = Some (scalar_value sc)) out.1
  /\ forall other title, title_for scalar_index title = title_for other title ->
       scalar_index = other.
Proof.
  cbv zeta. unfold after_iteration.
  assert (forall ms,
            let out := report_metrics scalar_index iteration ms in
            (out.2 = true <->
               Forall (fun tm : string * list (string * list V) =>
                         Forall (fun sl : string * list V => sl.2 <> []) tm.2) ms)
            /\ Forall (fun sc =>
                         scalar_iteration sc = iteration
                         /\ exists title metric log,
                              In (title, metric) ms
                              /\ scalar_title sc = title_for scalar_index title
                              /\ In (scalar_series sc, log) metric
                              /\ List.last (map Some log) None = Some (scalar_value sc))
                      out.1) as H.
  { induction ms as [|[title metric] ms IH]; cbv zeta; simpl.
    - repeat split; auto.
    - pose proof (report_metric_scalars (title_for scalar_index title) iteration metric)
        as (Hok & _ & Hall). cbv zeta in *.
      destruct (report_metric _ iteration metric) as [reported ok]. simpl in *.
      assert (Forall (fun sc =>
                 scalar_iteration sc = iteration
                 /\ exists title0 metric0 log,
                      ((title, metric) = (title0, metric0) \/ In (title0, metric0) ms)
                      /\ scalar_title sc = title_for scalar_index title0
                      /\ In (scalar_series sc, log) metric0
                      /\ List.last (map Some log) None = Some (scalar_value sc)) reported)
        as Hhere.
      { eapply Forall_impl; [exact Hall|]. simpl.
        intros sc (H1 & H2 & log & H3 & H4). split; [exact H2|].
        exists title, metric, log. auto. }
      destruct ok.
      + destruct (report_metrics scalar_index iteration ms) as [reported' ok'].
        simpl in *. destruct IH as [Hok' Hall']. split.
        * rewrite Hok'. split; [intros H; constructor; [now apply Hok | exact H]|].
          intros H. now apply Forall_cons in H as [_ H].
        * apply Forall_app. split; [exact Hhere|].
          eapply Forall_impl; [exact Hall'|]. simpl.
          intros sc (H1 & t & m & log & H2 & H3). split; [exact H1|].
          exists t, m, log. tauto.
      + simpl. split; [|exact Hhere]. split; [discriminate|].
        intros H. apply Forall_cons in H as [H _]. simpl in H.
        apply Hok in H. discriminate. }
  specialize (H (default [] metrics)). cbv zeta in H.
  destruct (report_metrics scalar_index iteration (default [] metrics)) as [reported ok].
  simpl in *. destruct H as [Hok Hall].
  split; [destruct ok; auto|]. split; [|split; [exact Hall|]].
  - rewrite <- Hok. destruct ok; split; intros; try discriminate; auto.
  - intros other title. apply title_for_inj.
Qed.

End WithValuesFacts.

Lemma perform_wrapped (p : patching) (o : operation) :
  __patched (perform p o) = true
  /\ wrapped (perform p o) = S (wrapped p)
  /\ __patched p = false
  \/ wrapped (perform p o) = wrapped p
     /\ (__patched p = true -> __patched (perform p o) = true).
Proof.
  destruct o as [task env | env]; simpl;
    unfold update_current_task, _patch_model_io; simpl;
    destruct p as [t [|] n h f]; simpl; auto;
    destruct task as [tk|] || idtac; simpl; auto;
    destruct (in_sys_modules env); simpl; auto;
    destruct (import_succeeds env); simpl; auto;
    try destruct t; simpl; auto;
    destruct (logger_works env); simpl; auto.
Qed.

(** X25: [catboost] is patched at most once.  Whatever series of calls of
    [update_current_task] and of the import hook is made on the class as it
    is defined, with any task and in any environment, the block that wraps
    the six methods has run at most once, and only with [__patched] set; and
    once [__patched] is set nothing is wrapped any more, so an import that
    failed is never tried again. *)
Theorem catboost_is_patched_at_most_once (ops more : list operation) :
  let p := fold_left perform ops unpatched in
  wrapped p <= 1
  /\ (wrapped p = 1 -> __patched p = true)
  /\ (__patched p = true -> wrapped (fold_left perform more p) = wrapped p).
Proof.
  cbv zeta.
  assert (forall l p, __patched p = true ->
            __patched (fold_left perform l p) = true
            /\ wrapped (fold_left perform l p) = wrapped p) as Hkeep.
  { induction l as [|o l IH]; intros p Hp; simpl; [auto|].
    destruct (perform_wrapped p o) as [(_ & _ & H)|[Hw Hp']]; [congruence|].
    destruct (IH (perform p o) (Hp' Hp)) as [-> ->]. auto. }
  assert (forall l p, __patched p = false -> wrapped p = 0 ->
            wrapped (fold_left perform l p) <= 1
            /\ (wrapped (fold_left perform l p) = 1 ->
                __patched (fold_left perform l p) = true)) as Hrun.
  { induction l as [|o l IH]; intros p Hp Hw; simpl; [split; [lia | intros; lia]|].
    destruct (perform_wrapped p o) as [(Hp' & Hw' & _)|[Hw' _]].
    - destruct (Hkeep l _ Hp') as [-> ->]. rewrite Hw', Hw. auto.
    - destruct (__patched (perform p o)) eqn:Hp'.
      + destruct (Hkeep l _ Hp') as [-> ->]. rewrite Hw', Hw. split; [lia | intros; lia].
      + apply IH; [exact Hp' | congruence]. }
  destruct (Hrun ops unpatched eq_refl eq_refl) as [H1 H2].
  split; [exact H1|]. split; [exact H2|]. intros Hp. now apply Hkeep.
Qed.

Example fit_on_gpu :
  map (fun c => (call_obj c, call_callbacks c)) (calls demo_fits)
  = [(1%Z, GivenList [UserCallback 5; ClearMLCallback 70 0]);
     (2%Z, GivenList [UserCallback 5; ClearMLCallback 70 1]);
     (2%Z, Absent);
     (3%Z, GivenList [ClearMLCallback 70 2])]
  /\ _scalar_index_counter demo_fits = 3.
Proof. vm_compute. auto. Qed.

Example fit_with_a_tuple_of_callbacks :
  _fit demo_fit demo_logger demo_report (Some 7%Z) 1 0 (GivenTuple [UserCallback 5])
    (State 0 0 [])
  = (inl TypeError, State 1 0 []).
Proof. reflexivity. Qed.

Example after_iteration_of_the_second_fit :
  after_iteration 1 (10%Z)
    (Some [("learn", [("Logloss", [5%Z; 4%Z]); ("AUC", [7%Z])]); ("validation", [("Logloss", [])])])
  = ([Scalar "learn - 1" "Logloss" 4%Z 10%Z; Scalar "learn - 1" "AUC" 7%Z 10%Z],
     inl IndexError).
Proof. vm_compute. reflexivity. Qed.

(** An import that fails is not tried again, also when it would succeed. *)
Example patch_after_a_failed_import :
  fold_left perform
    [Update (Some 7%Z) (Environment false true true);
     Update (Some 7%Z) (Environment true false true);
     ImportHook (Environment true true true);
     Update (Some 8%Z) (Environment true true true)] unpatched
  = Patching (Some 8%Z) true 0 3 1.
Proof. reflexivity. Qed.

Lemma fit_callbacks_are_fresh_witness :
  NoDup (indices_passed (calls demo_fits)).
Proof.
  destruct (fit_callbacks_are_fresh demo_fit demo_logger demo_report 7
              [(1%Z, 0%Z, GivenList [UserCallback 5]); (2%Z, 0%Z, GivenList [UserCallback 5]);
               (3%Z, 0%Z, Absent)]
              (State 0 0 [])) as (_ & H & _).
  - repeat constructor.
  - reflexivity.
  - exact H.
Defined.

End CatBoost.
